(** * markdown-parser: block diff, line diff, line classifier and hub dispatch

    A shallow embedding of the Go packages
      - diff      (BlockDiffer.ComputeDiff, LineDiffer.ComputeLineDiff)
      - parser    (MarkdownParser.Parse, ParseIncremental, DetectNotionSyntax,
                   IncrementalParser.ParseLine)
      - websocket (Hub.broadcastToDocument)
      - models    (Block, Position, BlockChange, ParseResponse)
    together with the properties the specification states about them.

    Go [string] values are byte sequences: they are modelled by [string]
    (a list of 8-bit [ascii]).  Go maps are modelled by stdpp's [gmap];
    wherever Go ranges over a map, the model ranges over [map_to_list],
    one fixed enumeration of the unspecified order Go may pick, and the
    properties proved are stated on membership so that they do not depend
    on that order. *)

From Stdlib Require Import ZArith Ascii String Lia.
From stdpp Require Import base option list gmap strings pretty.

Local Open Scope nat_scope.

(** ** The parts of Go's [strings] and [unicode] packages the code calls *)

Module strings.

Definition byte (n : nat) : ascii := ascii_of_nat n.

Fixpoint bytes (l : list nat) : string :=
  match l with
  | [] => EmptyString
  | n :: l' => String (byte n) (bytes l')
  end.

(** The newline separator ["\n"]. *)
Definition NL : string := bytes [10].

(** s[n:] and s[:n] for 0 <= n; both saturate at len(s), where Go would
    panic: every use below slices inside the string. *)
Fixpoint dropBytes (n : nat) (s : string) : string :=
  match n, s with
  | S n', String _ s' => dropBytes n' s'
  | _, _ => s
  end.

Fixpoint takeBytes (n : nat) (s : string) : string :=
  match n, s with
  | S n', String c s' => String c (takeBytes n' s')
  | _, _ => EmptyString
  end.

(** strings.HasPrefix(s, prefix) *)
Fixpoint HasPrefix (s prefix : string) : bool :=
  match prefix, s with
  | EmptyString, _ => true
  | String p prefix', String c s' => Ascii.eqb c p && HasPrefix s' prefix'
  | String _ _, EmptyString => false
  end.

(** strings.TrimPrefix(s, prefix) *)
Definition TrimPrefix (s prefix : string) : string :=
  if HasPrefix s prefix then dropBytes (String.length prefix) s else s.

(** strings.Index(s, substr); [None] stands for -1. *)
Fixpoint Index (s substr : string) : option nat :=
  if HasPrefix s substr then Some 0
  else match s with
       | EmptyString => None
       | String _ s' => S <$> Index s' substr
       end.

(** strings.Contains(s, substr) *)
Definition Contains (s substr : string) : bool :=
  match Index s substr with Some _ => true | None => false end.

(** strings.Split(s, sep) for a separator that is not empty (the code
    only splits on ["\n"]).  Go cuts at the first occurrence of [sep],
    and goes on with the rest; the rest is shorter, which the model
    tracks with [fuel], started at len(s). *)
Fixpoint genSplit (fuel : nat) (s sep : string) : list string :=
  match Index s sep, fuel with
  | Some m, S fuel' =>
      takeBytes m s :: genSplit fuel' (dropBytes (m + String.length sep) s) sep
  | _, _ => [s]
  end.

Definition Split (s sep : string) : list string :=
  genSplit (String.length s) s sep.

(** strings.SplitN(s, sep, 2) for a separator that is not empty: at most
    one cut, at the first occurrence. *)
Definition SplitN2 (s sep : string) : list string :=
  match Index s sep with
  | Some m => [takeBytes m s; dropBytes (m + String.length sep) s]
  | None => [s]
  end.

(** strings.Replace(s, old, "", 1) for [old] not empty: the first
    occurrence is cut out. *)
Definition ReplaceFirstWithEmpty (s old : string) : string :=
  match Index s old with
  | Some m => takeBytes m s +:+ dropBytes (m + String.length old) s
  | None => s
  end.

(** strings.Join(elems, sep) *)
Fixpoint Join (elems : list string) (sep : string) : string :=
  match elems with
  | [] => EmptyString
  | [e] => e
  | e :: rest => e +:+ sep +:+ Join rest sep
  end.

(** The six ASCII bytes of Go's [asciiSpace] table. *)
Definition asciiSpace (c : ascii) : bool :=
  let n := nat_of_ascii c in
  (n =? 9) || (n =? 10) || (n =? 11) || (n =? 12) || (n =? 13) || (n =? 32).

(** unicode.IsSpace on a decoded rune: the ASCII spaces and the UTF-8
    encodings of U+0085, U+00A0, U+1680, U+2000..U+200A, U+2028, U+2029,
    U+202F, U+205F and U+3000.  [spaceRuneLen s] is the byte length of
    the space rune [s] starts with, 0 when it starts with none (an
    invalid encoding decodes to U+FFFD, which is not a space). *)
Definition spaceRuneLen (s : string) : nat :=
  match s with
  | EmptyString => 0
  | String c1 s1 =>
      if asciiSpace c1 then 1
      else
        match s1 with
        | EmptyString => 0
        | String c2 s2 =>
            let n1 := nat_of_ascii c1 in
            let n2 := nat_of_ascii c2 in
            if (n1 =? 194) && ((n2 =? 133) || (n2 =? 160)) then 2
            else
              match s2 with
              | EmptyString => 0
              | String c3 _ =>
                  let n3 := nat_of_ascii c3 in
                  if (n1 =? 225) && (n2 =? 154) && (n3 =? 128) then 3
                  else if (n1 =? 226) && (n2 =? 128) &&
                          (((128 <=? n3) && (n3 <=? 138)) ||
                           (n3 =? 168) || (n3 =? 169) || (n3 =? 175)) then 3
                  else if (n1 =? 226) && (n2 =? 129) && (n3 =? 159) then 3
                  else if (n1 =? 227) && (n2 =? 128) && (n3 =? 128) then 3
                  else 0
              end
        end
  end.

(** Leading space runes are dropped one rune at a time; [fuel] bounds the
    number of runes, len(s) is enough. *)
Fixpoint trimLeftSpace (fuel : nat) (s : string) : string :=
  match fuel with
  | 0 => s
  | S fuel' =>
      match spaceRuneLen s with
      | 0 => s
      | k => trimLeftSpace fuel' (dropBytes k s)
      end
  end.

(** The last rune is found from the end of the string: it is a space when
    the string ends with the encoding of one.  On the reversed string
    that is a prefix whose reversal is such an encoding. *)
Definition spaceRuneLenRev (r : string) : nat :=
  match r with
  | EmptyString => 0
  | String c1 r1 =>
      if asciiSpace c1 then 1
      else if spaceRuneLen (String.rev (takeBytes 2 r)) =? 2 then 2
      else if spaceRuneLen (String.rev (takeBytes 3 r)) =? 3 then 3
      else 0
  end.

Fixpoint trimRightSpaceRev (fuel : nat) (r : string) : string :=
  match fuel with
  | 0 => r
  | S fuel' =>
      match spaceRuneLenRev r with
      | 0 => r
      | k => trimRightSpaceRev fuel' (dropBytes k r)
      end
  end.

(** strings.TrimSpace(s) *)
Definition TrimSpace (s : string) : string :=
  let l := trimLeftSpace (String.length s) s in
  String.rev (trimRightSpaceRev (String.length l) (String.rev l)).

(** unicode.IsDigit(rune(b)) for a byte b: below U+0100 the digits are
    '0'..'9'. *)
Definition IsDigitByte (c : ascii) : bool :=
  let n := nat_of_ascii c in (48 <=? n) && (n <=? 57).

(** s == "" *)
Definition isEmpty (s : string) : bool :=
  match s with EmptyString => true | _ => false end.

End strings.

(** ** The verbs of [fmt.Sprintf] the code uses *)

Module fmt.

Definition hexDigit (n : nat) : ascii :=
  nth n (list_ascii_of_string "0123456789abcdef") "0"%char.

(** %x on a byte array: two lower-case hexadecimal digits per byte. *)
Fixpoint hex (digest : string) : string :=
  match digest with
  | EmptyString => EmptyString
  | String c rest =>
      let n := nat_of_ascii c in
      String (hexDigit (n / 16)) (String (hexDigit (n mod 16)) (hex rest))
  end.

(** %d on an int: decimal digits, with a leading minus sign below zero. *)
Definition decimal (n : Z) : string := pretty n.

End fmt.

(** ** Go statements shared by the packages *)

Module builtin.

(** A loop body that may panic ([None]), run over the elements of a
    range in order. *)
Fixpoint rangeM {A S : Type} (body : S -> A -> option S) (s : S) (l : list A)
  : option S :=
  match l with
  | [] => Some s
  | x :: l' => s' ← body s x; rangeM body s' l'
  end.

(** m[k] on a map[string]bool: false for a missing key. *)
Definition lookupBool (m : gmap string bool) (k : string) : bool :=
  default false (m !! k).

(** The double quote character inside a Go string literal. *)
Definition quote : string := String (ascii_of_nat 34) EmptyString.

End builtin.

(** ** internal/models *)

Module models.

(** type Position struct { Start, End, Line int } ([End] is a keyword). *)
Record Position := mkPosition {
  Start : Z;
  End_ : Z;
  Line : Z
}.

(** A [*Block] is [nil] or the address of a Block object in the store. *)
Abbreviation ptr := (option nat).

(** type Block struct; [Type] and [Position] are spelled [Type_] and
    [Position_].  [Children] is a slice of pointers; a nil slice and an
    empty one are both [[]]. *)
Record Block := mkBlock {
  ID : string;
  Type_ : string;
  Level : Z;
  Content : string;
  HTML : string;
  Position_ : Position;
  Children : list ptr
}.

(** The store of Block objects: the object at address [a] is [h !! a];
    [&Block{..}] allocates at the end of the store. *)
Abbreviation heap := (list Block).

(** type BlockChange struct { Type string; BlockID string; Block *Block } *)
Record BlockChange := mkBlockChange {
  ChangeType : string;
  BlockID : string;
  ChangeBlock : ptr
}.

(** type ParseResponse struct.  The blocks a parse returns are fresh
    objects that the callers modelled here only read: the map holds them
    by value.  The [AST] field, which the parser leaves nil, is left
    out. *)
Record ParseResponse := mkParseResponse {
  ResponseHTML : string;
  Blocks : gmap string Block;
  Changes : list BlockChange;
  Success : bool;
  Error : string
}.

(** A Go result pair (value, error). *)
Inductive result (A : Type) : Type :=
| Ok (a : A)
| Err (msg : string).
Global Arguments Ok {A} a.
Global Arguments Err {A} msg.

End models.

(** ** pkg/diff *)

Module diff.
Import builtin models.

(** *** BlockDiffer *)

Section BlockDiffer.
(** crypto/md5: [md5_Sum s] is the 16-byte digest of [s]. *)
Variable md5_Sum : string -> string.

(** The depth of recursion available to [copyBlock]. *)
Variable depth : nat.

(** func (d *BlockDiffer) computeBlockHash(block *models.Block) string;
    [None] is the panic of reading through a nil pointer. *)
Definition computeBlockHash (h : heap) (block : ptr) : option string :=
  a ← block;
  b ← h !! a;
  let content :=
    Type_ b +:+ "|" +:+ Content b +:+ "|" +:+ fmt.decimal (Level b)
            +:+ "|" +:+ HTML b in
  Some (fmt.hex (md5_Sum content)).

(** func (d *BlockDiffer) hasBlockChanged(oldBlock, newBlock) bool *)
Definition hasBlockChanged (h : heap) (oldBlock newBlock : ptr)
  : option bool :=
  oldHash ← computeBlockHash h oldBlock;
  newHash ← computeBlockHash h newBlock;
  Some (negb (String.eqb oldHash newHash)).

(** The children of a block, copied in order. *)
Fixpoint copyEach (copy : ptr -> heap -> option (ptr * heap))
    (children : list ptr) (h : heap) : option (list ptr * heap) :=
  match children with
  | [] => Some ([], h)
  | child :: rest =>
      '(child', h1) ← copy child h;
      '(rest', h2) ← copyEach copy rest h1;
      Some (child' :: rest', h2)
  end.

(** func (d *BlockDiffer) copyBlock(block *models.Block) *models.Block.
    [copied] is allocated first, with no children; the copies of the
    children are stored into it once they are made.  [None] when the
    recursion is deeper than [fuel] or a pointer is dangling. *)
Fixpoint copyBlock (fuel : nat) (block : ptr) (h : heap)
  : option (ptr * heap) :=
  match block with
  | None => Some (None, h)
  | Some a =>
      match fuel with
      | 0 => None
      | S fuel' =>
          b ← h !! a;
          let copied := length h in
          let fresh := mkBlock (ID b) (Type_ b) (Level b) (Content b)
                               (HTML b) (Position_ b) [] in
          let h1 := h ++ [fresh] in
          if 0 <? length (Children b) then
            '(children', h2) ← copyEach (copyBlock fuel') (Children b) h1;
            Some (Some copied,
                  <[copied := mkBlock (ID b) (Type_ b) (Level b) (Content b)
                                      (HTML b) (Position_ b) children']> h2)
          else Some (Some copied, h1)
      end
  end.

(** The body of the loop of copyBlocks: copied[id] = d.copyBlock(block) *)
Definition copyEntry (acc : gmap string ptr * heap) (kv : string * ptr)
  : option (gmap string ptr * heap) :=
  '(block', h') ← copyBlock depth kv.2 acc.2;
  Some (<[kv.1 := block']> acc.1, h').

(** func (d *BlockDiffer) copyBlocks(blocks) map[string]*models.Block *)
Definition copyBlocks (blocks : gmap string ptr) (h : heap)
  : option (gmap string ptr * heap) :=
  rangeM copyEntry (∅, h) (map_to_list blocks).

(** The first loop of ComputeDiff: added and modified blocks. *)
Definition diffNewBlock (previousBlocks : gmap string ptr) (h : heap)
    (acc : list BlockChange * gmap string bool) (kv : string * ptr)
  : option (list BlockChange * gmap string bool) :=
  let blockID := kv.1 in
  let newBlock := kv.2 in
  let seenBlocks := <[blockID := true]> acc.2 in
  match previousBlocks !! blockID with
  | Some oldBlock =>
      changed ← hasBlockChanged h oldBlock newBlock;
      if (changed : bool)
      then Some (acc.1 ++ [mkBlockChange "modified" blockID newBlock], seenBlocks)
      else Some (acc.1, seenBlocks)
  | None =>
      Some (acc.1 ++ [mkBlockChange "added" blockID newBlock], seenBlocks)
  end.

(** The second loop: removed blocks. *)
Definition diffOldBlock (seenBlocks : gmap string bool)
    (changes : list BlockChange) (kv : string * ptr) : list BlockChange :=
  if negb (lookupBool seenBlocks kv.1)
  then changes ++ [mkBlockChange "removed" kv.1 kv.2]
  else changes.

(** The two loops of ComputeDiff: they read the store and build
    [changes]. *)
Definition computeChanges (previousBlocks newBlocks : gmap string ptr)
    (h : heap) : option (list BlockChange) :=
  '(changes, seenBlocks) ←
    rangeM (diffNewBlock previousBlocks h) ([], ∅) (map_to_list newBlocks);
  Some (foldl (diffOldBlock seenBlocks) changes (map_to_list previousBlocks)).

(** func (d *BlockDiffer) ComputeDiff(newBlocks) []models.BlockChange.
    The detector is its field [previousBlocks]; the call returns the
    changes, the detector's new [previousBlocks] and the new store. *)
Definition ComputeDiff (previousBlocks newBlocks : gmap string ptr)
    (h : heap) : option (list BlockChange * gmap string ptr * heap) :=
  changes ← computeChanges previousBlocks newBlocks h;
  '(copied, h') ← copyBlocks newBlocks h;
  Some (changes, copied, h').

End BlockDiffer.

(** func NewBlockDiffer() *BlockDiffer *)
Definition NewBlockDiffer : gmap string ptr := ∅.

(** *** LineDiffer *)

(** type LineChange struct { Type string; LineNum int; Content string }.
    [Type] is a keyword here, so the fields are [LineType], [LineNum] and
    [LineContent].  Line numbers range over 1..len(lines): [nat]. *)
Record LineChange := mkLineChange {
  LineType : string;
  LineNum : nat;
  LineContent : string
}.

(** func max(a, b int) int *)
Definition max (a b : nat) : nat := if b <? a then a else b.

(** The table [dp] is a slice of rows; dp[i][j] reads and writes stay
    inside the (oldLen+1) x (newLen+1) table. *)
Definition dpAt (dp : list (list nat)) (i j : nat) : nat :=
  nth j (nth i dp []) 0.

Definition dpSet (dp : list (list nat)) (i j v : nat) : list (list nat) :=
  <[i := <[j := v]> (nth i dp [])]> dp.

(** oldLines[k] and newLines[k], read inside the slice. *)
Definition lineAt (lines : list string) (k : nat) : string :=
  nth k lines EmptyString.

(** The state of the backtracking loop: i, j and [changes]. *)
Record backtrack := mkBacktrack {
  bt_i : nat;
  bt_j : nat;
  bt_changes : list LineChange
}.

Section computeLCS.
Variables oldLines newLines : list string.

(** dp := make([][]int, oldLen+1); dp[i] = make([]int, newLen+1) *)
Definition makeTable : list (list nat) :=
  replicate (length oldLines + 1) (replicate (length newLines + 1) 0).

(** The body of the two nested filling loops. *)
Definition fillCell (dp : list (list nat)) (i j : nat) : list (list nat) :=
  if String.eqb (lineAt oldLines (i - 1)) (lineAt newLines (j - 1))
  then dpSet dp i j (dpAt dp (i - 1) (j - 1) + 1)
  else dpSet dp i j (max (dpAt dp (i - 1) j) (dpAt dp i (j - 1))).

(** for i := 1; i <= oldLen; i++ { for j := 1; j <= newLen; j++ {..} } *)
Definition fillTable : list (list nat) :=
  foldl (fun dp i =>
           foldl (fun dp' j => fillCell dp' i j) dp (seq 1 (length newLines)))
        makeTable (seq 1 (length oldLines)).

(** One test of the loop condition [i > 0 || j > 0] followed by one
    run of the loop body; [None] when the loop is left.  The body's
    if / else-if chain has no final else: were no branch taken, the
    state would stay as it is. *)
Definition backtrackStep (dp : list (list nat)) (st : backtrack)
  : option backtrack :=
  let i := bt_i st in
  let j := bt_j st in
  let changes := bt_changes st in
  if (0 <? i) || (0 <? j) then
    if (0 <? i) && (0 <? j) &&
       String.eqb (lineAt oldLines (i - 1)) (lineAt newLines (j - 1))
    then
      Some (mkBacktrack (i - 1) (j - 1)
              (mkLineChange "unchanged" j (lineAt newLines (j - 1)) :: changes))
    else if (0 <? j) && ((i =? 0) || (dpAt dp (i - 1) j <=? dpAt dp i (j - 1)))
    then
      Some (mkBacktrack i (j - 1)
              (mkLineChange "added" j (lineAt newLines (j - 1)) :: changes))
    else if 0 <? i
    then
      Some (mkBacktrack (i - 1) j
              (mkLineChange "removed" i (lineAt oldLines (i - 1)) :: changes))
    else Some st
  else None.

(** The loop, run for at most [fuel] iterations; [None] when it has not
    been left by then. *)
Fixpoint backtrackLoop (fuel : nat) (dp : list (list nat)) (st : backtrack)
  : option (list LineChange) :=
  match backtrackStep dp st with
  | None => Some (bt_changes st)
  | Some st' =>
      match fuel with
      | 0 => None
      | S fuel' => backtrackLoop fuel' dp st'
      end
  end.

(** func (ld *LineDiffer) computeLCS(oldLines, newLines []string).
    Every iteration lowers i + j, so oldLen + newLen iterations are
    enough for the loop to be left. *)
Definition computeLCS : option (list LineChange) :=
  backtrackLoop (length oldLines + length newLines) fillTable
                (mkBacktrack (length oldLines) (length newLines) []).

End computeLCS.

(** func (ld *LineDiffer) ComputeLineDiff(oldContent, newContent string) *)
Definition ComputeLineDiff (oldContent newContent : string)
  : option (list LineChange) :=
  let oldLines := strings.Split oldContent strings.NL in
  let newLines := strings.Split newContent strings.NL in
  computeLCS oldLines newLines.

End diff.

(** ** internal/parser *)

Module parser.
Import builtin models.

(** The goldmark syntax tree, as far as [nodeToBlock] looks at it: the
    kind of a node (with the level of a heading and the ordered flag of
    a list), the segment of the nodes that have one, and the children
    that [ast.Walk] visits. *)
Inductive NodeKind : Type :=
| KindText
| KindString
| KindHeading (level : Z)
| KindParagraph
| KindList (ordered : bool)
| KindListItem
| KindCodeBlock
| KindFencedCodeBlock
| KindBlockquote
| KindThematicBreak
| KindOther.

#[warnings="-register-all"] Inductive Node : Type :=
| mkNode (kind : NodeKind) (segment : option (nat * nat)) (children : list Node).

Definition Kind (n : Node) : NodeKind := let '(mkNode k _ _) := n in k.
Definition Segment (n : Node) : option (nat * nat) := let '(mkNode _ s _) := n in s.
Definition NodeChildren (n : Node) : list Node := let '(mkNode _ _ c) := n in c.

(** func (p *MarkdownParser) DetectNotionSyntax(line string) string *)
Definition DetectNotionSyntax (line : string) : string :=
  let trimmed := strings.TrimSpace line in
  if strings.HasPrefix trimmed "# " then "h1"
  else if strings.HasPrefix trimmed "## " then "h2"
  else if strings.HasPrefix trimmed "### " then "h3"
  else if strings.HasPrefix trimmed "#### " then "h4"
  else if strings.HasPrefix trimmed "##### " then "h5"
  else if strings.HasPrefix trimmed "###### " then "h6"
  else if strings.HasPrefix trimmed "- [ ]" || strings.HasPrefix trimmed "- [x]"
  then "checkbox"
  else if strings.HasPrefix trimmed "- " || strings.HasPrefix trimmed "* "
          || strings.HasPrefix trimmed "+ "
  then "unordered_list"
  else if match trimmed with
          | String c _ =>
              strings.IsDigitByte c &&
              (length (strings.SplitN2 trimmed ". ") =? 2)
          | EmptyString => false
          end
  then "ordered_list"
  else if strings.HasPrefix trimmed "```" then "code_block"
  else if strings.HasPrefix trimmed "> " then "blockquote"
  else "paragraph".

(** func (ip *IncrementalParser) renderLineToHTML(line, syntaxType string) *)
Definition renderLineToHTML (line syntaxType : string) : string :=
  let trimmed := strings.TrimSpace line in
  if String.eqb syntaxType "h1" then
    "<h1>" +:+ strings.TrimPrefix trimmed "# " +:+ "</h1>"
  else if String.eqb syntaxType "h2" then
    "<h2>" +:+ strings.TrimPrefix trimmed "## " +:+ "</h2>"
  else if String.eqb syntaxType "h3" then
    "<h3>" +:+ strings.TrimPrefix trimmed "### " +:+ "</h3>"
  else if String.eqb syntaxType "h4" then
    "<h4>" +:+ strings.TrimPrefix trimmed "#### " +:+ "</h4>"
  else if String.eqb syntaxType "h5" then
    "<h5>" +:+ strings.TrimPrefix trimmed "##### " +:+ "</h5>"
  else if String.eqb syntaxType "h6" then
    "<h6>" +:+ strings.TrimPrefix trimmed "###### " +:+ "</h6>"
  else if String.eqb syntaxType "unordered_list" then
    let content := strings.TrimPrefix trimmed "- " in
    let content := strings.TrimPrefix content "* " in
    let content := strings.TrimPrefix content "+ " in
    "<ul><li>" +:+ content +:+ "</li></ul>"
  else if String.eqb syntaxType "ordered_list" then
    match strings.SplitN2 trimmed ". " with
    | [_; rest] => "<ol><li>" +:+ rest +:+ "</li></ol>"
    | _ => "<p>" +:+ line +:+ "</p>"
    end
  else if String.eqb syntaxType "blockquote" then
    "<blockquote><p>" +:+ strings.TrimPrefix trimmed "> " +:+ "</p></blockquote>"
  else if String.eqb syntaxType "code_block" then
    if strings.HasPrefix trimmed "```" then
      let lang := strings.TrimPrefix trimmed "```" in
      if strings.isEmpty lang then "<pre><code>"
      else "<pre><code class=" +:+ quote +:+ "language-" +:+ lang +:+ quote +:+ ">"
    else "<pre><code>" +:+ line +:+ "</code></pre>"
  else if String.eqb syntaxType "checkbox" then
    if strings.Contains trimmed "- [x]" then
      let content := strings.ReplaceFirstWithEmpty trimmed "- [x]" in
      "<ul><li><input type=" +:+ quote +:+ "checkbox" +:+ quote
        +:+ " checked disabled>" +:+ strings.TrimSpace content +:+ "</li></ul>"
    else
      let content := strings.ReplaceFirstWithEmpty trimmed "- [ ]" in
      "<ul><li><input type=" +:+ quote +:+ "checkbox" +:+ quote
        +:+ " disabled>" +:+ strings.TrimSpace content +:+ "</li></ul>"
  else "<p>" +:+ line +:+ "</p>".

Section MarkdownParser.
(** crypto/md5: [md5_Sum s] is the 16-byte digest of [s]. *)
Variable md5_Sum : string -> string.

(** The goldmark library: the parser, p.goldmark.Parser().Parse, and
    the renderer, p.goldmark.Renderer().Render, whose output is what it
    writes to the buffer. *)
Variable goldmark_Parse : string -> Node.
Variable goldmark_Render : string -> Node -> result string.

(** func (p *MarkdownParser) renderNodeToHTML(node, source) string *)
Definition renderNodeToHTML (node : Node) (source : string) : string :=
  match goldmark_Render source node with
  | Ok html => html
  | Err _ => EmptyString
  end.

(** The guarded slice source[startPos:endPos] shared by
    [generateBlockID] and [nodeToBlock]. *)
Definition sourceSlice (source : string) (startPos endPos : nat) : string :=
  if (startPos <? String.length source) && (endPos <=? String.length source)
     && (startPos <? endPos)
  then strings.takeBytes (endPos - startPos) (strings.dropBytes startPos source)
  else EmptyString.

(** func (p *MarkdownParser) generateBlockID(node, source) string *)
Definition generateBlockID (node : Node) (source : string) : string :=
  let '(startPos, endPos, content) :=
    match Segment node with
    | Some (start, stop) => (start, stop, sourceSlice source start stop)
    | None => (0, 0, EmptyString)
    end in
  let hash := md5_Sum (content +:+ "-" +:+ fmt.decimal (Z.of_nat startPos)
                               +:+ "-" +:+ fmt.decimal (Z.of_nat endPos)) in
  strings.takeBytes 8 (fmt.hex hash).

(** func (p *MarkdownParser) nodeToBlock(node, source) *models.Block *)
Definition nodeToBlock (node : Node) (source : string) : option Block :=
  match Kind node with
  | KindText | KindString => None
  | kind =>
      let '(startPos, endPos) :=
        match Segment node with
        | Some (start, stop) => (start, stop)
        | None => (0, 0)
        end in
      let id := generateBlockID node source in
      let position := mkPosition (Z.of_nat startPos) (Z.of_nat endPos) 0 in
      let content := sourceSlice source startPos endPos in
      let html := renderNodeToHTML node source in
      let '(type, level) :=
        match kind with
        | KindHeading n =>
            ((if n =? 1 then "h1" else if n =? 2 then "h2"
              else if n =? 3 then "h3" else if n =? 4 then "h4"
              else if n =? 5 then "h5" else if n =? 6 then "h6"
              else "heading")%Z, n)
        | KindParagraph => ("paragraph", 0%Z)
        | KindList true => ("ordered_list", 0%Z)
        | KindList false => ("unordered_list", 0%Z)
        | KindListItem => ("list_item", 0%Z)
        | KindCodeBlock => ("code_block", 0%Z)
        | KindFencedCodeBlock => ("fenced_code_block", 0%Z)
        | KindBlockquote => ("blockquote", 0%Z)
        | KindThematicBreak => ("thematic_break", 0%Z)
        | _ => ("unknown", 0%Z)
        end in
      Some (mkBlock id type level content html position [])
  end.

(** The walker of [extractBlocks]: ast.Walk calls it on a node before
    the node's children. *)
Fixpoint walk (source : string) (n : Node) (blocks : gmap string Block)
  : gmap string Block :=
  let blocks' :=
    match nodeToBlock n source with
    | Some block => <[ID block := block]> blocks
    | None => blocks
    end in
  foldl (fun acc child => walk source child acc) blocks' (NodeChildren n).

(** func (p *MarkdownParser) extractBlocks(doc, source) *)
Definition extractBlocks (doc : Node) (source : string) : gmap string Block :=
  walk source doc ∅.

(** func (p *MarkdownParser) Parse(content string) *)
Definition Parse (content : string) : result ParseResponse :=
  if strings.isEmpty content then
    Ok (mkParseResponse EmptyString ∅ [] true EmptyString)
  else
    let doc := goldmark_Parse content in
    match goldmark_Render content doc with
    | Err err => Err ("failed to render HTML: " +:+ err)
    | Ok html =>
        Ok (mkParseResponse html (extractBlocks doc content) [] true EmptyString)
    end.

(** func (p *MarkdownParser) ParseIncremental(content, blockID string) *)
Definition ParseIncremental (content blockID : string) : result ParseResponse :=
  Parse content.

(** func generateLineID(line string, lineNumber int) string *)
Definition generateLineID (line : string) (lineNumber : Z) : string :=
  let content := strings.TrimSpace line in
  let content := if strings.isEmpty content then "empty" else content in
  strings.takeBytes 12
    ("line_" +:+ fmt.decimal lineNumber +:+ "_" +:+ fmt.hex (md5_Sum content)).

(** The test of the loop of ParseLine over the blocks goldmark found. *)
Definition usable (syntaxType : string) (goldmarkBlock : Block) : bool :=
  negb (String.eqb (Type_ goldmarkBlock) "unknown")
  && negb (strings.isEmpty (HTML goldmarkBlock))
  && (String.eqb syntaxType "paragraph"
      || String.eqb syntaxType (Type_ goldmarkBlock)).

(** func (ip *IncrementalParser) ParseLine(line, lineNumber) *models.Block;
    [None] is the nil result.  The loop stops at the first usable
    block of the range. *)
Definition ParseLine (line : string) (lineNumber : Z) : option Block :=
  let trimmed := strings.TrimSpace line in
  if strings.isEmpty trimmed then None
  else
    let syntaxType := DetectNotionSyntax line in
    let block :=
      mkBlock (generateLineID line lineNumber) syntaxType 0 line
              (renderLineToHTML line syntaxType)
              (mkPosition 0 (Z.of_nat (String.length line)) lineNumber) [] in
    match Parse line with
    | Ok result =>
        if 0 <? size (Blocks result) then
          match List.find (usable syntaxType) (map_to_list (Blocks result)).*2 with
          | Some goldmarkBlock =>
              Some (mkBlock (ID block)
                      (if String.eqb syntaxType "paragraph"
                       then Type_ goldmarkBlock else Type_ block)
                      (Level block) (Content block) (HTML goldmarkBlock)
                      (Position_ block) (Children block))
          | None => Some block
          end
        else Some block
    | Err _ => Some block
    end.

End MarkdownParser.

End parser.

(** ** internal/websocket *)

Module websocket.
Import builtin models.

(** A buffered channel of messages: what is queued, the capacity given
    to [make], and whether [close] was called.  The goroutine that
    drains the channel is not part of the model. *)
Record channel := mkChannel {
  queue : list string;
  capacity : nat;
  closed : bool
}.

(** Modelled from the spec: the Client struct, whose declaration is not
    among the sources.  The hub uses two of its fields: [send], the
    bounded outbound buffer of the connection, a channel of messages, and
    [subscribedDocuments], the set of documents the connection is
    subscribed to, a map[string]bool. *)
Record Client := mkClient {
  send : channel;
  subscribedDocuments : gmap string bool
}.

(** [Hub.clients], a map[*Client]bool keyed by the addresses of the
    Client objects; the objects themselves are in a store, which a
    removal from [clients] does not touch. *)
Record Hub := mkHub {
  clients : gmap nat bool
}.

(** select { case ch <- data: .. default: .. }: [None] is the panic of a
    send on a closed channel, [Some None] the default case. *)
Definition trySend (ch : channel) (data : string) : option (option channel) :=
  if closed ch then None
  else if length (queue ch) <? capacity ch
       then Some (Some (mkChannel (queue ch ++ [data]) (capacity ch) false))
       else Some None.

(** close(ch): [None] is the panic of closing a closed channel. *)
Definition close (ch : channel) : option channel :=
  if closed ch then None else Some (mkChannel (queue ch) (capacity ch) true).

Section Hub.
(** models.WebSocketResponse and json.Marshal on it. *)
Variable WebSocketResponse : Type.
Variable json_Marshal : WebSocketResponse -> result string.

(** The body of the loop of [broadcastToDocument] for one client. *)
Definition dispatchTo (documentID data : string)
    (st : Hub * gmap nat Client) (c : nat) : option (Hub * gmap nat Client) :=
  client ← st.2 !! c;
  if lookupBool (subscribedDocuments client) documentID then
    sent ← trySend (send client) data;
    match sent with
    | Some ch => Some (st.1, <[c := mkClient ch (subscribedDocuments client)]> st.2)
    | None =>
        ch ← close (send client);
        Some (mkHub (delete c (clients st.1)),
              <[c := mkClient ch (subscribedDocuments client)]> st.2)
    end
  else Some st.

(** func (h *Hub) broadcastToDocument(documentID, response).  The loop
    removes no entry of [h.clients] other than the one it is at, so it
    visits the entries the map had when the loop began. *)
Definition broadcastToDocument (h : Hub) (store : gmap nat Client)
    (documentID : string) (response : WebSocketResponse)
  : option (Hub * gmap nat Client) :=
  match json_Marshal response with
  | Err _ => Some (h, store)
  | Ok data =>
      rangeM (dispatchTo documentID data) (h, store) (map_to_list (clients h)).*1
  end.

(** The unregister case of [Hub.Run]. *)
Definition unregister (h : Hub) (store : gmap nat Client) (c : nat)
  : option (Hub * gmap nat Client) :=
  match clients h !! c with
  | Some _ =>
      client ← store !! c;
      ch ← close (send client);
      Some (mkHub (delete c (clients h)),
            <[c := mkClient ch (subscribedDocuments client)]> store)
  | None => Some (h, store)
  end.

End Hub.

End websocket.

(** ** internal/websocket: the event loop and the message handlers *)

Module handlers.
Import builtin models parser websocket.

(** models.WebSocketMessage, with the fields the handlers read; they
    read neither Timestamp nor Data. *)
Record WebSocketMessage := mkWebSocketMessage {
  MessageType : string;
  DocumentID : string;
  MessageContent : string;
  MessageBlockID : string
}.

(** What the hub puts in the Data field, an interface{}, of a response:
    nothing, a parse result, or map[string]string{"documentId": id}. *)
Inductive Payload : Type :=
| NoData
| ParseData (result : ParseResponse)
| DocumentData (documentID : string).

(** select { case client.send <- data: default: close(client.send);
    delete(h.clients, client) } on the client at address [c]. *)
Definition selectSend (st : Hub * gmap nat Client) (c : nat) (data : string)
  : option (Hub * gmap nat Client) :=
  client ← st.2 !! c;
  sent ← trySend (send client) data;
  match sent with
  | Some ch => Some (st.1, <[c := mkClient ch (subscribedDocuments client)]> st.2)
  | None =>
      ch ← close (send client);
      Some (mkHub (delete c (clients st.1)),
            <[c := mkClient ch (subscribedDocuments client)]> st.2)
  end.

Section Hub.
(** time.Time; a handler reads the clock at most once in a call, and
    [now] is what time.Now() returns then. *)
Variable Time : Type.

(** models.WebSocketResponse *)
Record WebSocketResponse := mkWebSocketResponse {
  ResponseType : string;
  ResponseSuccess : bool;
  ResponseData : Payload;
  ResponseError : string;
  Timestamp : Time
}.

(** encoding/json *)
Variable json_Marshal : WebSocketResponse -> result string.
Variable json_Unmarshal : string -> result WebSocketMessage.

(** h.parser: crypto/md5 and the goldmark library under it. *)
Variable md5_Sum : string -> string.
Variable goldmark_Parse : string -> Node.
Variable goldmark_Render : string -> Node -> result string.

(** func (h *Hub) sendToClient(client, response) *)
Definition sendToClient (st : Hub * gmap nat Client) (c : nat)
    (response : WebSocketResponse) : option (Hub * gmap nat Client) :=
  match json_Marshal response with
  | Err _ => Some st
  | Ok data => selectSend st c data
  end.

(** func (h *Hub) sendError(client, errorMsg) *)
Definition sendError (st : Hub * gmap nat Client) (c : nat) (now : Time)
    (errorMsg : string) : option (Hub * gmap nat Client) :=
  sendToClient st c (mkWebSocketResponse "error" false NoData errorMsg now).

(** func (h *Hub) handleParse(client, msg) *)
Definition handleParse (st : Hub * gmap nat Client) (c : nat) (now : Time)
    (msg : WebSocketMessage) : option (Hub * gmap nat Client) :=
  if strings.isEmpty (MessageContent msg) then
    sendError st c now "Content is required for parsing"
  else
    match Parse md5_Sum goldmark_Parse goldmark_Render (MessageContent msg) with
    | Err err => sendError st c now ("Failed to parse markdown: " +:+ err)
    | Ok result =>
        sendToClient st c
          (mkWebSocketResponse "parsed" true (ParseData result) EmptyString now)
    end.

(** func (h *Hub) handleParseIncremental(client, msg) *)
Definition handleParseIncremental (st : Hub * gmap nat Client) (c : nat)
    (now : Time) (msg : WebSocketMessage) : option (Hub * gmap nat Client) :=
  if strings.isEmpty (MessageContent msg) then
    sendError st c now "Content is required for incremental parsing"
  else
    match ParseIncremental md5_Sum goldmark_Parse goldmark_Render
            (MessageContent msg) (MessageBlockID msg) with
    | Err err =>
        sendError st c now ("Failed to parse markdown incrementally: " +:+ err)
    | Ok result =>
        let response :=
          mkWebSocketResponse "parsed_incremental" true (ParseData result)
                              EmptyString now in
        st1 ← sendToClient st c response;
        if negb (strings.isEmpty (DocumentID msg)) then
          broadcastToDocument WebSocketResponse json_Marshal st1.1 st1.2
                              (DocumentID msg) response
        else Some st1
    end.

(** func (h *Hub) handleSubscribe(client, msg) *)
Definition handleSubscribe (st : Hub * gmap nat Client) (c : nat) (now : Time)
    (msg : WebSocketMessage) : option (Hub * gmap nat Client) :=
  if strings.isEmpty (DocumentID msg) then
    sendError st c now "Document ID is required for subscription"
  else
    client ← st.2 !! c;
    let client' :=
      mkClient (send client)
               (<[DocumentID msg := true]> (subscribedDocuments client)) in
    sendToClient (st.1, <[c := client']> st.2) c
      (mkWebSocketResponse "subscribed" true (DocumentData (DocumentID msg))
                           EmptyString now).

(** func (h *Hub) handleUnsubscribe(client, msg) *)
Definition handleUnsubscribe (st : Hub * gmap nat Client) (c : nat) (now : Time)
    (msg : WebSocketMessage) : option (Hub * gmap nat Client) :=
  if strings.isEmpty (DocumentID msg) then
    sendError st c now "Document ID is required for unsubscription"
  else
    client ← st.2 !! c;
    let client' :=
      mkClient (send client)
               (delete (DocumentID msg) (subscribedDocuments client)) in
    sendToClient (st.1, <[c := client']> st.2) c
      (mkWebSocketResponse "unsubscribed" true (DocumentData (DocumentID msg))
                           EmptyString now).

(** func (h *Hub) HandleMessage(client, messageData) *)
Definition HandleMessage (st : Hub * gmap nat Client) (c : nat) (now : Time)
    (messageData : string) : option (Hub * gmap nat Client) :=
  match json_Unmarshal messageData with
  | Err err => sendError st c now ("Invalid message format: " +:+ err)
  | Ok msg =>
      if String.eqb (MessageType msg) "parse" then handleParse st c now msg
      else if String.eqb (MessageType msg) "parse_incremental"
      then handleParseIncremental st c now msg
      else if String.eqb (MessageType msg) "subscribe"
      then handleSubscribe st c now msg
      else if String.eqb (MessageType msg) "unsubscribe"
      then handleUnsubscribe st c now msg
      else sendError st c now ("Unknown message type: " +:+ MessageType msg)
  end.

(** What [Hub.Run] receives from its three channels. *)
Inductive event : Type :=
| Register (c : nat) (now : Time)
| Unregister (c : nat)
| Broadcast (message : string).

(** The register case of [Hub.Run]. *)
Definition register (st : Hub * gmap nat Client) (c : nat) (now : Time)
  : option (Hub * gmap nat Client) :=
  let st1 := (mkHub (<[c := true]> (clients st.1)), st.2) in
  match json_Marshal
          (mkWebSocketResponse "connected" true NoData EmptyString now) with
  | Ok data => selectSend st1 c data
  | Err _ => Some st1
  end.

(** The broadcast case of [Hub.Run]: the loop visits the entries
    [h.clients] had when it began, as it removes none but the one it
    is at. *)
Definition broadcast (st : Hub * gmap nat Client) (message : string)
  : option (Hub * gmap nat Client) :=
  rangeM (fun st' c => selectSend st' c message) st
         (map_to_list (clients st.1)).*1.

(** One iteration of the loop of [Hub.Run]. *)
Definition runStep (st : Hub * gmap nat Client) (ev : event)
  : option (Hub * gmap nat Client) :=
  match ev with
  | Register c now => register st c now
  | Unregister c => unregister st.1 st.2 c
  | Broadcast message => broadcast st message
  end.

(** func (h *Hub) Run(), on the events it receives in order. *)
Definition Run (st : Hub * gmap nat Client) (events : list event)
  : option (Hub * gmap nat Client) :=
  rangeM runStep st events.

End Hub.

(** func NewHub() *Hub, with no client. *)
Definition NewHub : Hub := mkHub ∅.

End handlers.

(** ** internal/parser: the incremental parser *)

Module incremental.
Import builtin models diff parser.

(** [result.Blocks] is a map of pointers to the blocks [nodeToBlock]
    allocated, of which [Parse] above gives the values.  The objects
    stand in the store after [h], in the order of the map, and the map
    of pointers holds their addresses. *)
Definition blockPointers (blocks : gmap string Block) (h : heap)
  : gmap string ptr * heap :=
  let l := map_to_list blocks in
  (list_to_map (imap (fun i (kv : string * Block) => (kv.1, Some (length h + i))) l),
   h ++ l.*2).

Section IncrementalParser.
Variable md5_Sum : string -> string.
Variable goldmark_Parse : string -> Node.
Variable goldmark_Render : string -> Node -> result string.

(** The depth of recursion available to [copyBlock]. *)
Variable depth : nat.

(** func (ip *IncrementalParser) ParseWithDiff(content string).  The
    parser's state is the [previousBlocks] of [ip.differ]; the call
    returns the response or the error, the new state and the new
    store; [None] is a panic. *)
Definition ParseWithDiff (previousBlocks : gmap string ptr) (h : heap)
    (content : string)
  : option (result ParseResponse * gmap string ptr * heap) :=
  match Parse md5_Sum goldmark_Parse goldmark_Render content with
  | Err err => Some (Err err, previousBlocks, h)
  | Ok result =>
      let '(newBlocks, h1) := blockPointers (Blocks result) h in
      '(changes, previousBlocks', h2) ←
        ComputeDiff md5_Sum depth previousBlocks newBlocks h1;
      Some (Ok (mkParseResponse (ResponseHTML result) (Blocks result) changes
                                (Success result) (Error result)),
            previousBlocks', h2)
  end.

End IncrementalParser.

(** func NewIncrementalParser() *IncrementalParser: the differ of a new
    parser has no previous block. *)
Definition NewIncrementalParser : gmap string ptr := NewBlockDiffer.

End incremental.

(** * Vocabulary of the properties *)

(** ** Edit scripts *)

Module script.
Import diff.

Definition hasType (t : string) (c : LineChange) : bool :=
  String.eqb (LineType c) t.

(** The entries that stand for a line of the new text. *)
Definition onNewSide (c : LineChange) : bool :=
  hasType "added" c || hasType "unchanged" c.

(** The entries that stand for a line of the old text. *)
Definition onOldSide (c : LineChange) : bool :=
  hasType "removed" c || hasType "unchanged" c.

(** The script whose entries all have type [t], one per line, numbered
    from 1. *)
Definition uniform (t : string) (lines : list string) : list LineChange :=
  imap (fun k line => mkLineChange t (k + 1) line) lines.

(** What the backtracking loop keeps true of its state: the entries
    recorded so far account for the new lines after the first [j] and
    the old lines after the first [i]. *)
Record accounts (oldLines newLines : list string) (st : backtrack) : Prop := {
  acc_i : bt_i st <= length oldLines;
  acc_j : bt_j st <= length newLines;
  acc_types :
    Forall (fun c => hasType "added" c || hasType "removed" c
                     || hasType "unchanged" c = true) (bt_changes st);
  acc_new_content :
    map LineContent (List.filter onNewSide (bt_changes st)) = drop (bt_j st) newLines;
  acc_new_num :
    map LineNum (List.filter onNewSide (bt_changes st))
    = seq (S (bt_j st)) (length newLines - bt_j st);
  acc_old_content :
    map LineContent (List.filter onOldSide (bt_changes st)) = drop (bt_i st) oldLines;
  acc_old_num :
    forall n c, List.filter onOldSide (bt_changes st) !! n = Some c ->
                hasType "removed" c = true -> LineNum c = bt_i st + n + 1
}.

(** The old-line number of the entry at place [k] (from 0) of the old
    side of a script: a removed entry records it; an unchanged entry
    records its new-line number, and its old line is the one at its
    place. *)
Definition oldLineNumber (k : nat) (c : LineChange) : nat :=
  if hasType "removed" c then LineNum c else k + 1.

(** A table of [rows] rows of [cols] cells. *)
Definition shaped (rows cols : nat) (dp : list (list nat)) : Prop :=
  length dp = rows /\ Forall (fun row => length row = cols) dp.

End script.

(** ** Blocks in the store *)

Module store.
Import models diff.

(** What is reachable from a block pointer, unfolded from the store to
    depth [n]: the objects with their addresses. *)
#[warnings="-register-all"] Inductive Shape : Type :=
| NilShape
| NodeShape (a : nat) (b : Block) (children : list Shape).

(** [None] when a pointer is dangling or the structure is deeper than
    [n], as every cyclic one is. *)
Fixpoint unfold (h : heap) (n : nat) (p : ptr) : option Shape :=
  match p with
  | None => Some NilShape
  | Some a =>
      match n with
      | 0 => None
      | S n' =>
          b ← h !! a;
          children ← mapM (unfold h n') (Children b);
          Some (NodeShape a b children)
      end
  end.

(** A block as a value: its fields and the values of its children,
    whatever the addresses. *)
#[warnings="-register-all"] Inductive BlockTree : Type :=
| NilBlock
| BlockNode (id type : string) (level : Z) (content html : string)
            (position : Position) (children : list BlockTree).

Fixpoint value (s : Shape) : BlockTree :=
  match s with
  | NilShape => NilBlock
  | NodeShape _ b children =>
      BlockNode (ID b) (Type_ b) (Level b) (Content b) (HTML b) (Position_ b)
                (map value children)
  end.

(** The addresses of the objects of a shape. *)
Fixpoint addrs (s : Shape) : list nat :=
  match s with
  | NilShape => []
  | NodeShape a _ children => a :: concat (map addrs children)
  end.

Definition valueOf (h : heap) (n : nat) (p : ptr) : option BlockTree :=
  value <$> unfold h n p.

Definition cellsOf (h : heap) (n : nat) (p : ptr) : list nat :=
  default [] (addrs <$> unfold h n p).

Definition isSome {A : Type} (o : option A) : bool :=
  match o with Some _ => true | None => false end.

(** A pointer to a Block object of the store. *)
Definition isBlock (h : heap) (p : ptr) : bool :=
  match p with
  | Some a => isSome (h !! a)
  | None => false
  end.

(** A snapshot handed to ComputeDiff is well formed when each of its
    values points to a block that is a tree of depth at most [n]. *)
Definition wellFormed (h : heap) (n : nat) (blocks : gmap string ptr) : bool :=
  forallb (fun kv : string * ptr => isSome kv.2 && isSome (unfold h n kv.2))
          (map_to_list blocks).

(** The detector's state is well formed when each of its values points
    to a block. *)
Definition live (h : heap) (blocks : gmap string ptr) : bool :=
  forallb (fun kv : string * ptr => isBlock h kv.2) (map_to_list blocks).

(** The two hashes exist and differ. *)
Definition hashDiffers (md5_Sum : string -> string) (h : heap)
    (oldBlock newBlock : ptr) : Prop :=
  exists oldHash newHash,
    computeBlockHash md5_Sum h oldBlock = Some oldHash /\
    computeBlockHash md5_Sum h newBlock = Some newHash /\
    oldHash <> newHash.

(** A snapshot as a value. *)
Definition snapshotValue (h : heap) (n : nat) (blocks : gmap string ptr)
  : gmap string (option BlockTree) :=
  valueOf h n <$> blocks.

(** [p'], in the store grown by [ext], is a copy of what [p] was in the
    store [h]: it has the same value and is made of objects allocated
    after [h]. *)
Definition copyOf (n : nat) (h ext : heap) (p p' : ptr) : Prop :=
  exists s s',
    unfold h n p = Some s /\
    unfold (h ++ ext) n p' = Some s' /\
    value s' = value s /\
    Forall (fun a => length h <= a) (addrs s') /\
    isSome p' = isSome p.

(** The entry the first loop of ComputeDiff appends for a block of the
    new snapshot. *)
Definition isNewEntry (md5_Sum : string -> string)
    (previousBlocks : gmap string ptr) (h : heap)
    (kv : string * ptr) (c : BlockChange) : Prop :=
  BlockID c = kv.1 /\ ChangeBlock c = kv.2 /\
  ((ChangeType c = "added" /\ previousBlocks !! kv.1 = None) \/
   (ChangeType c = "modified" /\
    exists oldBlock, previousBlocks !! kv.1 = Some oldBlock /\
                     hashDiffers md5_Sum h oldBlock kv.2)).

End store.

(** ** A store and two snapshots to run the detector on *)

Module scenario.
Import models diff store.

(** A stand-in for the MD5 digest, to run the model: the properties are
    proved for every digest function. *)
Definition digest (s : string) : string := s.

(** Address 0: the heading of the first snapshot.  Address 1: a
    paragraph with a child at address 2 and a nil child.  Address 3: the
    heading again, rendered at another offset. *)
Definition blocks : heap :=
  [ mkBlock "b1" "h1" 1 "Title" "<h1>Title</h1>" (mkPosition 0 7 1) [];
    mkBlock "b2" "paragraph" 0 "body" "<p>body</p>" (mkPosition 9 13 3)
            [Some 2; None];
    mkBlock "b3" "unknown" 0 "body" "body" (mkPosition 9 13 3) [];
    mkBlock "b1" "h1" 1 "Title" "<h1>Title</h1>" (mkPosition 2 9 2) [] ].

Definition first : gmap string ptr := {[ "b1" := Some 0 ]}.

Definition second : gmap string ptr := <[ "b2" := Some 1 ]> {[ "b1" := Some 3 ]}.

(** The caller edits the paragraph in place after the call. *)
Definition scribble (h : heap) : heap :=
  <[1 := mkBlock "b2" "paragraph" 0 "edited" "<p>edited</p>" (mkPosition 9 15 3)
                 [Some 2; None]]> h.

End scenario.

(** ** The classifier as the specification words it *)

Module classifier.

Definition startsWithDigit (trimmed : string) : bool :=
  match trimmed with
  | String c _ => strings.IsDigitByte c
  | EmptyString => false
  end.

(** The rules in their order of precedence: a test on the trimmed line
    and the category it gives. *)
Definition rules : list ((string -> bool) * string) :=
  [ (fun t => strings.HasPrefix t "# ", "h1");
    (fun t => strings.HasPrefix t "## ", "h2");
    (fun t => strings.HasPrefix t "### ", "h3");
    (fun t => strings.HasPrefix t "#### ", "h4");
    (fun t => strings.HasPrefix t "##### ", "h5");
    (fun t => strings.HasPrefix t "###### ", "h6");
    (fun t => strings.HasPrefix t "- [ ]" || strings.HasPrefix t "- [x]", "checkbox");
    (fun t => strings.HasPrefix t "- " || strings.HasPrefix t "* "
              || strings.HasPrefix t "+ ", "unordered_list");
    (fun t => startsWithDigit t && strings.Contains t ". ", "ordered_list");
    (fun t => strings.HasPrefix t "```", "code_block");
    (fun t => strings.HasPrefix t "> ", "blockquote") ].

(** The first rule that matches wins; with none, a paragraph. *)
Definition Classify (trimmed : string) : string :=
  match List.find (fun rule : (string -> bool) * string => rule.1 trimmed) rules with
  | Some rule => rule.2
  | None => "paragraph"
  end.

End classifier.

(** ** Hub states *)

Module hub.
Import builtin models websocket.

(** Every live client is in the store and its channel is open. *)
Definition openClients (h : Hub) (store : gmap nat Client) : bool :=
  forallb (fun kv : nat * bool =>
             match store !! kv.1 with
             | Some client => negb (closed (send client))
             | None => false
             end)
          (map_to_list (clients h)).

Definition subscribed (client : Client) (documentID : string) : bool :=
  lookupBool (subscribedDocuments client) documentID.

Definition hasRoom (client : Client) : bool :=
  length (queue (send client)) <? capacity (send client).

(** What a dispatch makes of one live client. *)
Definition delivered (documentID data : string) (client : Client) : Client :=
  if subscribed client documentID then
    if hasRoom client then
      mkClient (mkChannel (queue (send client) ++ [data]) (capacity (send client)) false)
               (subscribedDocuments client)
    else
      mkClient (mkChannel (queue (send client)) (capacity (send client)) true)
               (subscribedDocuments client)
  else client.

(** Whether the dispatch drops the client. *)
Definition dropped (documentID : string) (client : Client) : bool :=
  subscribed client documentID && negb (hasRoom client).

(** A hub with a slow consumer at address 1, whose buffer of capacity 1
    is full, and a subscriber with room at address 2. *)
Definition slowClient : Client :=
  mkClient (mkChannel ["m0"] 1 false) {[ "doc" := true ]}.

Definition readyClient : Client :=
  mkClient (mkChannel [] 1 false) {[ "doc" := true ]}.

Definition twoClients : gmap nat Client :=
  <[ 2 := readyClient ]> {[ 1 := slowClient ]}.

Definition twoLive : Hub := mkHub (<[ 2 := true ]> {[ 1 := true ]}).

(** A stand-in for json.Marshal on a response that is its own text. *)
Definition marshalText (response : string) : result string := Ok response.

End hub.

(** ** Longest common subsequences *)

Module lcs.
Import diff script.

(** The length of a longest common subsequence of two lists, by the
    usual recursion on their heads. *)
Fixpoint lcs (xs ys : list string) : nat :=
  match xs with
  | [] => 0
  | x :: xs' =>
      (fix inner (ys : list string) : nat :=
         match ys with
         | [] => 0
         | y :: ys' =>
             if String.eqb x y then S (lcs xs' ys')
             else Nat.max (lcs xs' (y :: ys')) (inner ys')
         end) ys
  end.

(** That length for the first [i] old lines and the first [j] new
    lines; the last line of a prefix is the head of its reversal. *)
Definition prefixLcs (oldLines newLines : list string) (i j : nat) : nat :=
  lcs (reverse (take i oldLines)) (reverse (take j newLines)).

(** The table while it is filled: the rows before [r], the cells of row
    [r] up to column [c], and column 0 hold their final values. *)
Definition filledTo (oldLines newLines : list string) (r c : nat)
    (dp : list (list nat)) : Prop :=
  shaped (length oldLines + 1) (length newLines + 1) dp /\
  forall i j, i <= length oldLines -> j <= length newLines ->
              i < r \/ (i = r /\ j <= c) \/ j = 0 ->
              dpAt dp i j = prefixLcs oldLines newLines i j.

(** The entries of a script that stand for a line common to both
    texts. *)
Definition common (changes : list LineChange) : list string :=
  map LineContent (List.filter (hasType "unchanged") changes).

(** The entries that stand for an edit. *)
Definition edits (changes : list LineChange) : list LineChange :=
  List.filter (fun c => negb (hasType "unchanged" c)) changes.

(** What the backtracking loop keeps true of its state when it reads
    a filled table: the unchanged entries recorded so far, with a
    longest common subsequence of the lines still to be visited, make
    up a longest common subsequence of all the lines; and every line
    already visited is counted once as an edit or twice (once on each
    side) as an unchanged entry. *)
Definition tracks (oldLines newLines : list string) (st : backtrack) : Prop :=
  bt_i st <= length oldLines /\ bt_j st <= length newLines /\
  length (common (bt_changes st))
    + prefixLcs oldLines newLines (bt_i st) (bt_j st)
  = prefixLcs oldLines newLines (length oldLines) (length newLines) /\
  length (edits (bt_changes st)) + 2 * length (common (bt_changes st))
    + bt_i st + bt_j st
  = length oldLines + length newLines.

(** [s] is a longest common subsequence of [xs] and [ys]. *)
Definition longestCommon (s xs ys : list string) : Prop :=
  sublist s xs /\ sublist s ys /\
  forall t, sublist t xs -> sublist t ys -> length t <= length s.

End lcs.

(** ** Syntax trees in document order *)

Module tree.
Import models parser store.

(** The nodes of a tree in the order [ast.Walk] enters them: a node
    before its children, the children from first to last. *)
Fixpoint preorder (n : Node) : list Node :=
  match n with
  | mkNode _ _ children => n :: concat (map preorder children)
  end.

(** blocks[block.ID] = block *)
Definition store_block (m : gmap string Block) (b : Block) : gmap string Block :=
  <[ID b := b]> m.

(** No node of the tree that gives a block has a segment. *)
Definition noSegment (doc : Node) : bool :=
  forallb (fun n => match Kind n with
                    | KindText | KindString => true
                    | _ => negb (isSome (Segment n))
                    end)
          (preorder doc).

(** The block types [nodeToBlock] gives. *)
Definition blockTypes : list string :=
  [ "h1"; "h2"; "h3"; "h4"; "h5"; "h6"; "heading"; "paragraph";
    "ordered_list"; "unordered_list"; "list_item"; "code_block";
    "fenced_code_block"; "blockquote"; "thematic_break"; "unknown" ].

Definition headingTypes : list string :=
  [ "h1"; "h2"; "h3"; "h4"; "h5"; "h6" ].

Definition oneOf (types : list string) (t : string) : bool :=
  existsb (String.eqb t) types.

(** The categories [DetectNotionSyntax] gives. *)
Definition lineTypes : list string :=
  [ "h1"; "h2"; "h3"; "h4"; "h5"; "h6"; "checkbox"; "unordered_list";
    "ordered_list"; "code_block"; "blockquote"; "paragraph" ].

Definition isHexDigit (c : ascii) : bool :=
  existsb (Ascii.eqb c) (list_ascii_of_string "0123456789abcdef").

(** Stand-ins for the goldmark parser and renderer and a small tree
    without segments, to run the model: the properties are proved for
    every parser and renderer. *)
Definition doc : Node :=
  mkNode KindOther None
    [ mkNode (KindHeading 1) None [mkNode KindText (Some (2, 7)) []];
      mkNode KindParagraph None [mkNode KindText (Some (9, 13)) []] ].

Definition parse (source : string) : Node := doc.

Definition render (source : string) (n : Node) : result string :=
  match Kind n with
  | KindListItem => Err "no renderer"
  | _ => Ok source
  end.

(** A digest function that gives sixteen bytes. *)
Definition digest16 (s : string) : string :=
  strings.takeBytes 16 (s +:+ "0123456789abcdef").

End tree.

(** ** Connections *)

Module session.
Import builtin models parser websocket handlers hub.

(** The client at [c] is in the store and its channel is open. *)
Definition isOpen (store : gmap nat Client) (c : nat) : bool :=
  match store !! c with
  | Some client => negb (closed (send client))
  | None => false
  end.

(** What a non-blocking send of [data] makes of a client whose channel
    is open: the message is queued when the buffer has room, the
    channel is closed when it has none. *)
Definition offer (data : string) (client : Client) : Client :=
  if hasRoom client then
    mkClient (mkChannel (queue (send client) ++ [data]) (capacity (send client)) false)
             (subscribedDocuments client)
  else
    mkClient (mkChannel (queue (send client)) (capacity (send client)) true)
             (subscribedDocuments client).

(** The live set after that send. *)
Definition keep (c : nat) (client : Client) (h : Hub) : Hub :=
  if hasRoom client then h else mkHub (delete c (clients h)).

(** The client with another set of subscriptions. *)
Definition withSubscriptions (client : Client) (subs : gmap string bool) : Client :=
  mkClient (send client) subs.

(** Every response can be marshalled. *)
Definition total {Time : Type}
    (json_Marshal : WebSocketResponse Time -> result string) : Prop :=
  forall response, exists data, json_Marshal response = Ok data.

(** The message is one that [HandleMessage] hands to
    [handleParseIncremental]. *)
Definition isIncremental (json_Unmarshal : string -> result WebSocketMessage)
    (messageData : string) : bool :=
  match json_Unmarshal messageData with
  | Ok msg => String.eqb (MessageType msg) "parse_incremental"
  | Err _ => false
  end.

(** An event [Hub.Run] can take: a client that registers is in the
    store with an open channel. *)
Definition admissible {Time : Type} (store : gmap nat Client) (ev : event Time) : bool :=
  match ev with
  | Register _ c _ => isOpen store c
  | _ => true
  end.

(** Stand-ins for encoding/json, the clock and the goldmark library, to
    run the model: a response is marshalled to its type, and a message
    is its type, about the document ["doc"]. *)
Definition marshalType (response : WebSocketResponse nat) : result string :=
  Ok (ResponseType nat response).

Definition unmarshalType (messageData : string) : result WebSocketMessage :=
  if strings.isEmpty messageData then Err "unexpected end of JSON input"
  else Ok (mkWebSocketMessage messageData "doc" "# Title" EmptyString).

Definition parseLeaf (source : string) : Node := mkNode KindParagraph None [].

Definition renderSource (source : string) (n : Node) : result string := Ok source.

(** A subscriber at address 1 with room for two messages, and a client
    at address 2 whose channel has been closed. *)
Definition roomy : Client := mkClient (mkChannel [] 2 false) {[ "doc" := true ]}.

Definition gone : Client := mkClient (mkChannel [] 2 true) ∅.

Definition connections : gmap nat Client := <[ 2 := gone ]> {[ 1 := roomy ]}.

Definition oneLive : Hub := mkHub {[ 1 := true ]}.

End session.

(** ** Parsed blocks as values *)

Module parsed.
Import models diff parser store incremental.

(** The value of a block without children. *)
Definition leaf (b : Block) : BlockTree :=
  BlockNode (ID b) (Type_ b) (Level b) (Content b) (HTML b) (Position_ b) [].

(** The blocks of a map have no children. *)
Definition flat (blocks : gmap string Block) : Prop :=
  forall id b, blocks !! id = Some b -> Children b = [].

End parsed.

(** * Properties *)

(** ** Splitting and joining *)

Module strings_facts.
Import strings.

Lemma append_String (c : ascii) (a b : string) :
  String c a +:+ b = String c (a +:+ b).
Proof. reflexivity. Qed.

Lemma append_empty_l (b : string) : "" +:+ b = b.
Proof. reflexivity. Qed.

Lemma length_append (a b : string) :
  String.length (a +:+ b) = String.length a + String.length b.
Proof.
  induction a as [|x a IH]; [done |].
  rewrite append_String. simpl. by rewrite IH.
Qed.

Lemma HasPrefix_split (s p : string) :
  HasPrefix s p = true -> s = p +:+ dropBytes (String.length p) s.
Proof.
  revert s. induction p as [|c p IH]; intros s H.
  - by destruct s.
  - destruct s as [|d s]; simpl in H; [done |].
    apply andb_true_iff in H as [Hc Hp].
    apply Ascii.eqb_eq in Hc as ->.
    rewrite append_String. simpl. f_equal. by apply IH.
Qed.

Lemma Index_unfold (s sep : string) :
  Index s sep =
    if HasPrefix s sep then Some 0
    else match s with
         | EmptyString => None
         | String _ s' => S <$> Index s' sep
         end.
Proof. by destruct s. Qed.

Lemma Index_split (s sep : string) (m : nat) :
  Index s sep = Some m ->
  s = takeBytes m s +:+ sep +:+ dropBytes (m + String.length sep) s.
Proof.
  revert m. induction s as [|c s IH]; intros m H; rewrite Index_unfold in H.
  - destruct (HasPrefix "" sep) eqn:Hp; [|done].
    injection H as <-. by apply HasPrefix_split.
  - destruct (HasPrefix (String c s) sep) eqn:Hp.
    + injection H as <-. by apply HasPrefix_split.
    + destruct (Index s sep) as [k|] eqn:Hk; [|done].
      injection H as <-. simpl. rewrite append_String. f_equal. by apply IH.
Qed.

Lemma Index_empty (sep : string) : sep <> EmptyString -> Index "" sep = None.
Proof. by destruct sep. Qed.

Lemma genSplit_not_nil (fuel : nat) (s sep : string) : genSplit fuel s sep <> [].
Proof. destruct fuel; simpl; by destruct (Index s sep). Qed.

Lemma Join_cons (e : string) (rest : list string) (sep : string) :
  rest <> [] -> Join (e :: rest) sep = e +:+ sep +:+ Join rest sep.
Proof. by destruct rest. Qed.

Lemma Join_genSplit (fuel : nat) (s sep : string) :
  sep <> EmptyString -> String.length s <= fuel ->
  Join (genSplit fuel s sep) sep = s.
Proof.
  intros Hsep. revert s. induction fuel as [|fuel IH]; intros s Hlen.
  - destruct s; [|simpl in Hlen; lia]. cbn [genSplit]. by rewrite Index_empty.
  - cbn [genSplit]. destruct (Index s sep) as [m|] eqn:Hm; [|done].
    rewrite Join_cons by apply genSplit_not_nil.
    pose proof (Index_split _ _ _ Hm) as Hs.
    rewrite IH; [by rewrite <- Hs |].
    apply (f_equal String.length) in Hs.
    rewrite !length_append in Hs.
    destruct sep; [done | simpl in Hs |- *; lia].
Qed.

(** Joining the pieces of a split with the separator gives the string
    back. *)
Lemma Join_Split (s sep : string) :
  sep <> EmptyString -> Join (Split s sep) sep = s.
Proof. intros H. by apply Join_genSplit. Qed.

Lemma Split_empty (sep : string) : sep <> EmptyString -> Split "" sep = [""].
Proof. intros H. unfold Split. cbn [genSplit String.length]. by rewrite Index_empty. Qed.

Lemma HasPrefix_takeBytes (n : nat) (s p : string) :
  HasPrefix (takeBytes n s) p = true -> HasPrefix s p = true.
Proof.
  revert n s. induction p as [|c p IH]; intros n s H; [by destruct s |].
  destruct n as [|n], s as [|d s]; simpl in H; try done.
  apply andb_true_iff in H as [Hc Hp]. simpl. rewrite Hc. simpl. by eapply IH.
Qed.

(** Before its first occurrence, a string has no occurrence of [sep]. *)
Lemma Index_takeBytes (s sep : string) (m : nat) :
  sep <> EmptyString -> Index s sep = Some m -> Index (takeBytes m s) sep = None.
Proof.
  intros Hsep. revert m. induction s as [|c s IH]; intros m H;
    rewrite Index_unfold in H.
  - destruct (HasPrefix "" sep); [|done]. injection H as <-. by apply Index_empty.
  - destruct (HasPrefix (String c s) sep) eqn:Hp.
    + injection H as <-. by apply Index_empty.
    + destruct (Index s sep) as [k|] eqn:Hk; [|done]. injection H as <-.
      cbn [takeBytes]. rewrite Index_unfold.
      destruct (HasPrefix (String c (takeBytes k s)) sep) eqn:Hp'.
      * apply (HasPrefix_takeBytes (S k) (String c s)) in Hp'. congruence.
      * by rewrite (IH k).
Qed.

(** The fuel of [Split] is enough: no piece has an occurrence of the
    separator left. *)
Lemma genSplit_pieces (fuel : nat) (s sep : string) :
  sep <> EmptyString -> String.length s <= fuel ->
  Forall (fun piece => Index piece sep = None) (genSplit fuel s sep).
Proof.
  intros Hsep. revert s. induction fuel as [|fuel IH]; intros s Hlen.
  - destruct s; [|simpl in Hlen; lia]. cbn [genSplit].
    rewrite Index_empty by done. constructor; [by apply Index_empty | done].
  - cbn [genSplit]. destruct (Index s sep) as [m|] eqn:Hm.
    + constructor; [by apply Index_takeBytes |]. apply IH.
      pose proof (Index_split _ _ _ Hm) as Hs.
      apply (f_equal String.length) in Hs. rewrite !length_append in Hs.
      destruct sep; [done | simpl in Hs |- *; lia].
    + by constructor.
Qed.

Lemma Split_pieces (s sep : string) :
  sep <> EmptyString -> Forall (fun piece => Index piece sep = None) (Split s sep).
Proof. intros H. by apply genSplit_pieces. Qed.

Lemma length_dropBytes (n : nat) (s : string) :
  String.length (dropBytes n s) = String.length s - n.
Proof.
  revert s. induction n as [|n IH]; intros s; simpl; [lia |].
  destruct s; simpl; [done | apply IH].
Qed.

(** The fuel of the two trimming loops is enough: what is left neither
    starts nor, read from its end, ends with a space rune. *)
Lemma trimLeftSpace_done (fuel : nat) (s : string) :
  String.length s <= fuel -> spaceRuneLen (trimLeftSpace fuel s) = 0.
Proof.
  revert s. induction fuel as [|fuel IH]; intros s Hlen.
  - by destruct s; [|simpl in Hlen; lia].
  - cbn [trimLeftSpace]. destruct (spaceRuneLen s) as [|k] eqn:Hk; [done |].
    apply IH. rewrite length_dropBytes.
    destruct s; [done | simpl in Hlen |- *; lia].
Qed.

Lemma trimRightSpaceRev_done (fuel : nat) (r : string) :
  String.length r <= fuel -> spaceRuneLenRev (trimRightSpaceRev fuel r) = 0.
Proof.
  revert r. induction fuel as [|fuel IH]; intros r Hlen.
  - by destruct r; [|simpl in Hlen; lia].
  - cbn [trimRightSpaceRev]. destruct (spaceRuneLenRev r) as [|k] eqn:Hk; [done |].
    apply IH. rewrite length_dropBytes.
    destruct r; [done | simpl in Hlen |- *; lia].
Qed.

End strings_facts.

(** ** The line differ *)

Module line_diff.
Import diff script.

Section backtracking.
Variables oldLines newLines : list string.
Variable dp : list (list nat).

Lemma backtrackStep_None (st : backtrack) :
  backtrackStep oldLines newLines dp st = None <-> bt_i st = 0 /\ bt_j st = 0.
Proof.
  unfold backtrackStep. destruct st as [[|i] [|j] cs];
    cbn [bt_i bt_j bt_changes Nat.ltb Nat.leb orb andb Nat.eqb].
  - done.
  - split; [done | intros [_ ?]; lia].
  - split; [done | intros [? _]; lia].
  - split; [| intros [? _]; lia].
    destruct (String.eqb _ _); [done |]. by destruct (_ <=? _).
Qed.

(** The three ways an iteration of the loop body can go. *)
Lemma backtrackStep_Some (st st' : backtrack) :
  backtrackStep oldLines newLines dp st = Some st' ->
  let i := bt_i st in
  let j := bt_j st in
  (0 < i /\ 0 < j /\ lineAt oldLines (i - 1) = lineAt newLines (j - 1) /\
   st' = mkBacktrack (i - 1) (j - 1)
           (mkLineChange "unchanged" j (lineAt newLines (j - 1)) :: bt_changes st))
  \/ (0 < j /\
      st' = mkBacktrack i (j - 1)
              (mkLineChange "added" j (lineAt newLines (j - 1)) :: bt_changes st))
  \/ (0 < i /\
      st' = mkBacktrack (i - 1) j
              (mkLineChange "removed" i (lineAt oldLines (i - 1)) :: bt_changes st)).
Proof.
  unfold backtrackStep. destruct st as [i j cs]. cbn [bt_i bt_j bt_changes].
  intros H.
  destruct i as [|i], j as [|j]; cbn [Nat.ltb Nat.leb orb andb Nat.eqb] in H.
  - done.
  - right; left. split; [lia |]. by injection H as <-.
  - right; right. split; [lia |]. by injection H as <-.
  - destruct (String.eqb _ _) eqn:He.
    + left. apply String.eqb_eq in He. injection H as <-. repeat split; lia || done.
    + destruct (_ <=? _); injection H as <-.
      * right; left. split; [lia | done].
      * right; right. split; [lia | done].
Qed.

Lemma backtrackStep_lowers (st st' : backtrack) :
  backtrackStep oldLines newLines dp st = Some st' -> bt_i st' + bt_j st' < bt_i st + bt_j st.
Proof.
  intros H. apply backtrackStep_Some in H.
  destruct H as [(? & ? & _ & ->) | [(? & ->) | (? & ->)]]; simpl; lia.
Qed.

Lemma drop_lineAt (lines : list string) (k : nat) :
  k < length lines -> drop k lines = lineAt lines k :: drop (S k) lines.
Proof.
  intros H. unfold lineAt. apply drop_S.
  destruct (lookup_lt_is_Some_2 lines k H) as [x Hx].
  rewrite Hx. f_equal. symmetry. by apply nth_lookup_Some with (d := EmptyString) in Hx.
Qed.

Lemma backtrackStep_accounts (st st' : backtrack) :
  backtrackStep oldLines newLines dp st = Some st' ->
  accounts oldLines newLines st -> accounts oldLines newLines st'.
Proof.
  intros H [Hi Hj Hty Hnc Hnn Hoc Hon]. apply backtrackStep_Some in H.
  destruct st as [i j cs]. cbn [bt_i bt_j bt_changes] in *.
  assert (Hfilter : forall c, List.filter onNewSide (c :: cs)
            = if onNewSide c then c :: List.filter onNewSide cs
              else List.filter onNewSide cs) by done.
  assert (Hfilter' : forall c, List.filter onOldSide (c :: cs)
            = if onOldSide c then c :: List.filter onOldSide cs
              else List.filter onOldSide cs) by done.
  destruct H as [(Hi0 & Hj0 & Heq & ->) | [(Hj0 & ->) | (Hi0 & ->)]];
    split; cbn [bt_i bt_j bt_changes]; rewrite ?Hfilter, ?Hfilter';
    repeat match goal with
      | |- context [onNewSide ?c] =>
          let b := eval vm_compute in (onNewSide c) in change (onNewSide c) with b
      | |- context [onOldSide ?c] =>
          let b := eval vm_compute in (onOldSide c) in change (onOldSide c) with b
      end;
    cbn [map LineType LineNum LineContent].
  all: try lia.
  all: try (constructor; done).
  all: try done.
  all: try (rewrite Hnc, (drop_lineAt newLines (j - 1)) by lia;
            by replace (S (j - 1)) with j by lia).
  all: try (rewrite Hnn;
            replace (length newLines - (j - 1)) with (S (length newLines - j)) by lia;
            simpl; f_equal; [lia |]; by replace (S (j - 1)) with j by lia).
  all: try (rewrite Hoc, (drop_lineAt oldLines (i - 1)) by lia;
            rewrite ?Heq; by replace (S (i - 1)) with i by lia).
  all: intros [|n] c Hc Hrem;
    [ injection Hc as <-; (done || (simpl; lia))
    | simpl in Hc; rewrite (Hon n c Hc Hrem); lia ].
Qed.

(** The loop is left within [bt_i st + bt_j st] iterations, and what
    held of the state at every iteration holds of the final state,
    where i = j = 0. *)
Lemma backtrackLoop_returns (P : backtrack -> Prop) (fuel : nat) (st : backtrack) :
  (forall s s', backtrackStep oldLines newLines dp s = Some s' -> P s -> P s') ->
  P st -> bt_i st + bt_j st <= fuel ->
  exists changes, backtrackLoop oldLines newLines fuel dp st = Some changes /\ P (mkBacktrack 0 0 changes).
Proof.
  intros Hstep. revert st. induction fuel as [|fuel IH]; intros st HP Hfuel.
  - destruct st as [i j cs]. simpl in Hfuel.
    assert (i = 0) as -> by lia. assert (j = 0) as -> by lia.
    exists cs. split; [|done]. unfold backtrackLoop.
    by rewrite (proj2 (backtrackStep_None _)).
  - cbn [backtrackLoop]. destruct (backtrackStep oldLines newLines dp st) as [st'|] eqn:Hst.
    + apply IH; [by eapply Hstep |].
      apply backtrackStep_lowers in Hst. lia.
    + apply backtrackStep_None in Hst as [Hi Hj].
      destruct st as [i j cs]. simpl in Hi, Hj. subst. by exists cs.
Qed.

End backtracking.

Lemma accounts_start (oldLines newLines : list string) :
  accounts oldLines newLines (mkBacktrack (length oldLines) (length newLines) []).
Proof.
  split; simpl; try done.
  - by rewrite drop_all.
  - by rewrite Nat.sub_diag.
  - by rewrite drop_all.
Qed.

(** computeLCS returns, and its script accounts for all the lines. *)
Lemma computeLCS_accounts (oldLines newLines : list string) :
  exists changes,
    computeLCS oldLines newLines = Some changes /\
    accounts oldLines newLines (mkBacktrack 0 0 changes).
Proof.
  unfold computeLCS. apply backtrackLoop_returns.
  - intros s s'. apply backtrackStep_accounts.
  - apply accounts_start.
  - done.
Qed.

Lemma NL_not_empty : strings.NL <> EmptyString.
Proof. done. Qed.

Lemma imap_oldLineNumber (k : nat) (l : list LineChange) :
  (forall n c, l !! n = Some c -> hasType "removed" c = true -> LineNum c = k + n + 1) ->
  imap (fun n c => oldLineNumber (k + n) c) l = seq (S k) (length l).
Proof.
  revert k. induction l as [|c l IH]; intros k H; [done |].
  cbn [imap length seq]. f_equal.
  - unfold oldLineNumber. destruct (hasType "removed" c) eqn:Hc; [|lia].
    rewrite (H 0 c) by done. lia.
  - rewrite <- (IH (S k)).
    + apply imap_ext. intros n c' _. simpl. f_equal. lia.
    + intros n c' Hn Hc'. rewrite (H (S n) c') by done. lia.
Qed.

(** C1.  For every pair of texts, ComputeLineDiff returns a script
    whose added and unchanged entries carry the new-line numbers 1, 2,
    .. in that order and whose contents, joined by newlines, are the new
    text; and whose removed and unchanged entries stand in the order of
    the old lines (a removed entry carries its old-line number, which is
    its place among them) and whose contents, joined by newlines, are
    the old text. *)
Theorem ComputeLineDiff_roundtrip (oldText newText : string) :
  exists changes,
    ComputeLineDiff oldText newText = Some changes /\
    let newSide := List.filter onNewSide changes in
    let oldSide := List.filter onOldSide changes in
    map LineNum newSide = seq 1 (length newSide) /\
    strings.Join (map LineContent newSide) strings.NL = newText /\
    imap oldLineNumber oldSide = seq 1 (length oldSide) /\
    strings.Join (map LineContent oldSide) strings.NL = oldText.
Proof.
  unfold ComputeLineDiff.
  destruct (computeLCS_accounts (strings.Split oldText strings.NL)
                                (strings.Split newText strings.NL))
    as (changes & -> & [_ _ _ Hnc Hnn Hoc Hon]).
  cbn [bt_i bt_j bt_changes] in *. rewrite drop_0 in Hnc, Hoc.
  exists changes. split; [done |]. cbv zeta. repeat split.
  - rewrite Hnn. f_equal. rewrite Nat.sub_0_r.
    rewrite <- (length_map LineContent). by rewrite Hnc.
  - rewrite Hnc. apply strings_facts.Join_Split, NL_not_empty.
  - apply (imap_oldLineNumber 0). intros n c Hn Hc. by rewrite (Hon n c).
  - rewrite Hoc. apply strings_facts.Join_Split, NL_not_empty.
Qed.

(** C6.  At a position of the backtracking where both indices are
    positive, the two lines differ and the two candidate cells of the
    table are equal, the loop body records an added entry for the new
    line and moves the new-sequence index only. *)
Theorem backtrack_tie_records_added (oldLines newLines : list string)
    (i j : nat) (changes : list LineChange) :
  0 < i -> 0 < j ->
  lineAt oldLines (i - 1) <> lineAt newLines (j - 1) ->
  dpAt (fillTable oldLines newLines) i (j - 1)
    = dpAt (fillTable oldLines newLines) (i - 1) j ->
  backtrackStep oldLines newLines (fillTable oldLines newLines)
                (mkBacktrack i j changes)
  = Some (mkBacktrack i (j - 1)
            (mkLineChange "added" j (lineAt newLines (j - 1)) :: changes)).
Proof.
  intros Hi Hj Hne Htie. unfold backtrackStep. cbn [bt_i bt_j bt_changes].
  apply String.eqb_neq in Hne. rewrite Hne, Htie.
  destruct i, j; try lia.
  cbn [Nat.ltb Nat.leb orb andb Nat.eqb].
  by rewrite Nat.leb_refl.
Qed.

(** An unchanged entry records its new-line number: on the old side of
    this script the recorded numbers are 1, 2, 1, the entries standing in
    the order of the old lines x, y, a. *)
Example old_side_records_new_numbers :
  exists changes,
    ComputeLineDiff (strings.Join ["x"; "y"; "a"] strings.NL) "a" = Some changes /\
    map LineNum (List.filter onOldSide changes) = [1; 2; 1] /\
    map LineContent (List.filter onOldSide changes) = ["x"; "y"; "a"].
Proof. eexists. split; [vm_compute; reflexivity |]. split; reflexivity. Qed.

Lemma backtrack_tie_records_added_witness :
  let oldLines := ["a"; "b"] in
  let newLines := ["b"; "a"] in
  dpAt (fillTable oldLines newLines) 2 1 = dpAt (fillTable oldLines newLines) 1 2 /\
  backtrackStep oldLines newLines (fillTable oldLines newLines) (mkBacktrack 2 2 [])
  = Some (mkBacktrack 2 1 [mkLineChange "added" 2 "a"]).
Proof.
  split; [reflexivity |].
  apply (backtrack_tie_records_added ["a"; "b"] ["b"; "a"] 2 2 []);
    [lia | lia | discriminate | reflexivity].
Defined.

Lemma hasType_eq (t : string) (c : LineChange) :
  hasType t c = true -> LineType c = t.
Proof. apply String.eqb_eq. Qed.

(** A script is determined by the types, numbers and contents of its
    entries. *)
Lemma uniform_intro (t : string) (l : list LineChange) (lines : list string) (k : nat) :
  Forall (fun c => hasType t c = true) l ->
  map LineNum l = seq (S k) (length lines) ->
  map LineContent l = lines ->
  l = imap (fun n line => mkLineChange t (k + n + 1) line) lines.
Proof.
  revert lines k. induction l as [|c l IH]; intros lines k Hty Hnum Hcon.
  - by subst lines.
  - destruct lines as [|line lines]; [done |].
    apply Forall_cons in Hty as [Hc Hty].
    injection Hnum as Hn Hnum. injection Hcon as Hl Hcon.
    cbn [imap]. f_equal.
    + destruct c as [ty n s]. apply hasType_eq in Hc. simpl in *. subst.
      f_equal. lia.
    + rewrite (IH lines (S k)) by done.
      apply imap_ext. intros n x _. simpl. f_equal. lia.
Qed.

Lemma filter_all {A : Type} (f : A -> bool) (l : list A) :
  Forall (fun x => f x = true) l -> List.filter f l = l.
Proof. induction 1 as [|x l Hx _ IH]; simpl; [done |]. by rewrite Hx, IH. Qed.

Lemma filter_nil_Forall {A : Type} (f : A -> bool) (l : list A) :
  List.filter f l = [] -> Forall (fun x => f x = false) l.
Proof.
  induction l as [|x l IH]; simpl; [done |].
  destruct (f x) eqn:Hx; [done |]. intros H. constructor; auto.
Qed.

Lemma not_old_side_added (c : LineChange) :
  hasType "added" c || hasType "removed" c || hasType "unchanged" c = true ->
  onOldSide c = negb (hasType "added" c).
Proof.
  unfold onOldSide. destruct (hasType "added" c) eqn:Ha.
  - apply hasType_eq in Ha. unfold hasType. by rewrite Ha.
  - simpl. intros H. by rewrite H.
Qed.

Lemma not_new_side_removed (c : LineChange) :
  hasType "added" c || hasType "removed" c || hasType "unchanged" c = true ->
  onNewSide c = negb (hasType "removed" c).
Proof.
  unfold onNewSide. destruct (hasType "removed" c) eqn:Ha.
  - apply hasType_eq in Ha. unfold hasType. by rewrite Ha.
  - rewrite orb_false_r. simpl. intros H. by rewrite H.
Qed.

Lemma filter_ext_Forall {A : Type} (f g : A -> bool) (l : list A) :
  Forall (fun x => f x = g x) l -> List.filter f l = List.filter g l.
Proof. induction 1 as [|x l Hx _ IH]; simpl; [done |]. by rewrite Hx, IH. Qed.

Lemma all_of_one_type (t : string) (side : LineChange -> bool)
    (changes : list LineChange) :
  (forall c, hasType "added" c || hasType "removed" c || hasType "unchanged" c = true ->
             side c = negb (hasType t c)) ->
  Forall (fun c => hasType "added" c || hasType "removed" c
                   || hasType "unchanged" c = true) changes ->
  List.filter side changes = [] ->
  Forall (fun c => hasType t c = true) changes.
Proof.
  intros Hside Hty Hnil. apply filter_nil_Forall in Hnil.
  rewrite Forall_forall in Hty, Hnil. apply Forall_forall. intros c Hc.
  specialize (Hty c Hc). specialize (Hnil c Hc). cbv beta in *.
  rewrite Hside in Hnil by done. by apply negb_false_iff.
Qed.

(** With no old line, every new line is added. *)
Lemma computeLCS_no_old (newLines : list string) :
  computeLCS [] newLines = Some (uniform "added" newLines).
Proof.
  destruct (computeLCS_accounts [] newLines)
    as (changes & -> & [_ _ Hty Hnc Hnn Hoc _]).
  cbn [bt_i bt_j bt_changes] in *. rewrite drop_0 in Hnc. simpl in Hoc.
  apply map_eq_nil in Hoc.
  pose proof (all_of_one_type "added" onOldSide changes
                not_old_side_added Hty Hoc) as Hall.
  assert (List.filter onNewSide changes = changes) as Hnew.
  { apply filter_all. eapply Forall_impl; [exact Hall |].
    intros c Hc. unfold onNewSide. cbv beta in Hc. by rewrite Hc. }
  rewrite Hnew in Hnc, Hnn. rewrite Nat.sub_0_r in Hnn.
  f_equal. by apply (uniform_intro "added" changes newLines 0).
Qed.

Lemma removed_numbers (k : nat) (l : list LineChange) :
  Forall (fun c => hasType "removed" c = true) l ->
  map LineNum l = imap (fun n c => oldLineNumber (k + n) c) l.
Proof.
  intros Hall. revert k.
  induction Hall as [|c l Hc _ IH]; intros k; [done |].
  cbn [map imap]. f_equal.
  - unfold oldLineNumber. by rewrite Hc.
  - rewrite (IH (S k)). apply imap_ext. intros n x _. simpl. f_equal. lia.
Qed.

(** With no new line, every old line is removed. *)
Lemma computeLCS_no_new (oldLines : list string) :
  computeLCS oldLines [] = Some (uniform "removed" oldLines).
Proof.
  destruct (computeLCS_accounts oldLines [])
    as (changes & -> & [_ _ Hty Hnc Hnn Hoc Hon]).
  cbn [bt_i bt_j bt_changes] in *. rewrite drop_0 in Hoc. simpl in Hnc.
  apply map_eq_nil in Hnc.
  pose proof (all_of_one_type "removed" onNewSide changes
                not_new_side_removed Hty Hnc) as Hall.
  assert (List.filter onOldSide changes = changes) as Hold.
  { apply filter_all. eapply Forall_impl; [exact Hall |].
    intros c Hc. unfold onOldSide. cbv beta in Hc. by rewrite Hc. }
  rewrite Hold in Hoc, Hon.
  f_equal. apply (uniform_intro "removed" changes oldLines 0); [done | | done].
  rewrite <- Hoc, length_map.
  rewrite <- (imap_oldLineNumber 0 changes) by
    (intros n c Hn Hc; by rewrite (Hon n c)).
  by apply removed_numbers.
Qed.

Lemma dpSet_shaped (rows cols : nat) (dp : list (list nat)) (i j v : nat) :
  shaped rows cols dp -> shaped rows cols (dpSet dp i j v).
Proof.
  intros [Hrows Hcols]. unfold dpSet. split; [by rewrite length_insert |].
  destruct (decide (i < length dp)) as [Hi|Hi].
  - apply Forall_insert; [done |]. rewrite length_insert.
    rewrite Forall_forall in Hcols. apply Hcols.
    apply list_elem_of_In, nth_In. done.
  - rewrite list_insert_ge by lia. done.
Qed.

(** The table keeps its shape while it is filled, so the reads and
    writes of the filling loops and of the backtracking are inside it. *)
Lemma fillTable_shaped (oldLines newLines : list string) :
  shaped (length oldLines + 1) (length newLines + 1) (fillTable oldLines newLines).
Proof.
  unfold fillTable.
  assert (Hstart : shaped (length oldLines + 1) (length newLines + 1)
                     (makeTable oldLines newLines)).
  { unfold makeTable. split; [by rewrite length_replicate |].
    apply Forall_replicate. by rewrite length_replicate. }
  revert Hstart. generalize (makeTable oldLines newLines) as dp.
  generalize (seq 1 (length oldLines)) as rows.
  induction rows as [|i rows IH]; intros dp Hdp; [done |].
  cbn [foldl]. apply IH. revert Hdp. generalize dp as dp'.
  generalize (seq 1 (length newLines)) as js.
  induction js as [|j js IHj]; intros dp' Hdp'; [done |].
  cbn [foldl]. apply IHj. unfold fillCell.
  destruct (String.eqb _ _); by apply dpSet_shaped.
Qed.

Lemma ComputeLineDiff_accounts (oldText newText : string) :
  exists changes,
    ComputeLineDiff oldText newText = Some changes /\
    accounts (strings.Split oldText strings.NL) (strings.Split newText strings.NL)
             (mkBacktrack 0 0 changes).
Proof. apply computeLCS_accounts. Qed.

(** C8, as the code has it.  computeLCS takes empty line sequences: two
    of them give the empty script, no old line gives one added entry per
    new line, no new line gives one removed entry per old line.
    ComputeLineDiff never passes an empty sequence, since an empty text
    splits into one empty line: two empty texts give one unchanged entry
    for that line, and an empty text against any text gives, besides the
    added (or removed) entries, exactly one entry for the empty line. *)
Theorem computeLCS_empty_sequences :
  computeLCS [] [] = Some [] /\
  (forall newLines, computeLCS [] newLines = Some (uniform "added" newLines)) /\
  (forall oldLines, computeLCS oldLines [] = Some (uniform "removed" oldLines)) /\
  ComputeLineDiff "" "" = Some [mkLineChange "unchanged" 1 ""] /\
  (forall newText, exists changes,
      ComputeLineDiff "" newText = Some changes /\
      map LineContent (List.filter (fun c => negb (hasType "added" c)) changes) = [""]) /\
  (forall oldText, exists changes,
      ComputeLineDiff oldText "" = Some changes /\
      map LineContent (List.filter (fun c => negb (hasType "removed" c)) changes) = [""]).
Proof.
  split; [reflexivity |].
  split; [apply computeLCS_no_old |].
  split; [apply computeLCS_no_new |].
  split; [reflexivity |].
  split.
  - intros newText.
    destruct (ComputeLineDiff_accounts "" newText)
      as (changes & Hrun & [_ _ Hty _ _ Hoc _]).
    exists changes. split; [done |].
    cbn [bt_i bt_changes] in *. rewrite drop_0 in Hoc.
    rewrite <- (filter_ext_Forall onOldSide); [done |].
    eapply Forall_impl; [exact Hty |]. apply not_old_side_added.
  - intros oldText.
    destruct (ComputeLineDiff_accounts oldText "")
      as (changes & Hrun & [_ _ Hty Hnc _ _ _]).
    exists changes. split; [done |].
    cbn [bt_j bt_changes] in *. rewrite drop_0 in Hnc.
    rewrite <- (filter_ext_Forall onNewSide); [done |].
    eapply Forall_impl; [exact Hty |]. apply not_new_side_removed.
Qed.

(** C8 as stated fails: two empty texts do not give the empty script,
    and an empty old text against the text "a" gives a script that is not
    made of added entries only. *)
Lemma ComputeLineDiff_empty_text_is_one_line :
  ComputeLineDiff "" "" <> Some [] /\
  ~ (exists changes,
        ComputeLineDiff "" "a" = Some changes /\
        Forall (fun c => hasType "added" c = true) changes).
Proof.
  split; [discriminate |].
  intros (changes & Hrun & Hall).
  vm_compute in Hrun. injection Hrun as <-.
  apply Forall_cons in Hall as [Hc _]. discriminate.
Qed.

End line_diff.

(** ** The block differ *)

Module block_diff.
Import builtin models diff store.

Lemma isSome_true {A : Type} (o : option A) : isSome o = true <-> is_Some o.
Proof. destruct o; simpl; split; (done || by intros [? ?] || eauto). Qed.

Lemma unfold_S (h : heap) (n : nat) (a : nat) :
  unfold h (S n) (Some a) =
    b ← h !! a;
    children ← mapM (unfold h n) (Children b);
    Some (NodeShape a b children).
Proof. done. Qed.

Lemma unfold_nil (h : heap) (n : nat) : unfold h n None = Some NilShape.
Proof. by destruct n. Qed.

(** The objects of a shape are in the store. *)
Lemma unfold_addrs_allocated (h : heap) (n : nat) (p : ptr) (s : Shape) :
  unfold h n p = Some s -> Forall (fun a => a < length h) (addrs s).
Proof.
  revert p s. induction n as [|n IH]; intros [a|] s H;
    rewrite ?unfold_nil in H; try done; try (by injection H as <-).
  rewrite unfold_S in H.
  destruct (h !! a) as [b|] eqn:Hb; [|done]. cbn [mbind option_bind] in H.
  destruct (mapM (unfold h n) (Children b)) as [cs|] eqn:Hcs; [|done].
  cbn [mbind option_bind] in H. injection H as <-. cbn [addrs].
  constructor; [by eapply lookup_lt_Some |].
  apply mapM_Some in Hcs. apply Forall_concat, Forall_fmap.
  induction Hcs as [|c s' ? ? Hc _ IHcs]; constructor; [|done].
  by eapply IH.
Qed.

(** A shape depends on the objects it contains only. *)
Lemma unfold_agree (h1 h2 : heap) (n : nat) (p : ptr) (s : Shape) :
  unfold h1 n p = Some s ->
  Forall (fun a => h2 !! a = h1 !! a) (addrs s) ->
  unfold h2 n p = Some s.
Proof.
  revert p s. induction n as [|n IH]; intros [a|] s H Hagree;
    rewrite ?unfold_nil in *; try done.
  rewrite unfold_S in H |- *.
  destruct (h1 !! a) as [b|] eqn:Hb; [|done]. cbn [mbind option_bind] in H.
  destruct (mapM (unfold h1 n) (Children b)) as [cs|] eqn:Hcs; [|done].
  cbn [mbind option_bind] in H. injection H as <-.
  apply Forall_cons in Hagree as [Ha Hrest]. rewrite Ha, Hb.
  cbn [mbind option_bind].
  assert (mapM (unfold h2 n) (Children b) = Some cs) as ->; [|done].
  apply mapM_Some. apply mapM_Some in Hcs.
  induction Hcs as [|c s' ? ? Hc _ IHcs]; constructor.
  - eapply IH; [done |]. simpl in Hrest. by apply Forall_app in Hrest as [? _].
  - apply IHcs. simpl in Hrest. by apply Forall_app in Hrest as [_ ?].
Qed.

(** Allocation leaves the shapes of the store as they are. *)
Lemma unfold_extend (h ext : heap) (n : nat) (p : ptr) (s : Shape) :
  unfold h n p = Some s -> unfold (h ++ ext) n p = Some s.
Proof.
  intros H. eapply unfold_agree; [done |].
  eapply Forall_impl; [by eapply unfold_addrs_allocated |].
  intros a Ha. by apply lookup_app_l.
Qed.

Lemma copyBlock_nil (n : nat) (h : heap) : copyBlock n None h = Some (None, h).
Proof. by destruct n. Qed.

Lemma copyBlock_S (n a : nat) (h : heap) :
  copyBlock (S n) (Some a) h =
    b ← h !! a;
    let copied := length h in
    let fresh := mkBlock (ID b) (Type_ b) (Level b) (Content b)
                         (HTML b) (Position_ b) [] in
    let h1 := h ++ [fresh] in
    if 0 <? length (Children b) then
      '(children', h2) ← copyEach (copyBlock n) (Children b) h1;
      Some (Some copied,
            <[copied := mkBlock (ID b) (Type_ b) (Level b) (Content b)
                                (HTML b) (Position_ b) children']> h2)
    else Some (Some copied, h1).
Proof. done. Qed.

Section children.
Variable n : nat.
Hypothesis copyBlock_n :
  forall p h s, unfold h n p = Some s ->
    exists p' ext s',
      copyBlock n p h = Some (p', h ++ ext) /\
      unfold (h ++ ext) n p' = Some s' /\
      value s' = value s /\
      Forall (fun a => length h <= a) (addrs s') /\
      isSome p' = isSome p.

Lemma copyEach_spec (children : list ptr) :
  forall (h : heap) (shapes : list Shape),
    Forall2 (fun c s => unfold h n c = Some s) children shapes ->
    exists children' ext shapes',
      copyEach (copyBlock n) children h = Some (children', h ++ ext) /\
      Forall2 (fun c s => unfold (h ++ ext) n c = Some s) children' shapes' /\
      map value shapes' = map value shapes /\
      Forall (fun a => length h <= a) (concat (map addrs shapes')).
Proof.
  induction children as [|c rest IH]; intros h shapes Hshapes.
  - apply Forall2_nil_inv_l in Hshapes as ->.
    exists [], [], []. rewrite app_nil_r. by repeat split.
  - apply Forall2_cons_inv_l in Hshapes as (s & shapes0 & Hc & Hrest & ->).
    destruct (copyBlock_n c h s Hc) as (c' & ext1 & s' & Hrun & Hs' & Hval & Hfresh & _).
    destruct (IH (h ++ ext1) shapes0) as (rest' & ext2 & shapes' & Hrun' & Hall & Hvals & Hfresh').
    { eapply Forall2_impl; [done |]. intros ? ?. apply unfold_extend. }
    exists (c' :: rest'), (ext1 ++ ext2), (s' :: shapes').
    cbn [copyEach]. rewrite Hrun. cbn [mbind option_bind].
    rewrite Hrun'. cbn [mbind option_bind]. rewrite app_assoc.
    split; [done |]. split; [|split].
    + constructor; [by apply unfold_extend | done].
    + simpl. by rewrite Hval, Hvals.
    + simpl. apply Forall_app. split; [done |].
      eapply Forall_impl; [done |]. intros a. rewrite length_app. lia.
Qed.
End children.

(** copyBlock returns on a tree within the depth: the store grows by
    [ext], and the result unfolds in the new store to a shape with the
    value of the original, made of objects allocated by the copy. *)
Lemma copyBlock_spec (n : nat) :
  forall p h s, unfold h n p = Some s ->
    exists p' ext s',
        copyBlock n p h = Some (p', h ++ ext) /\
        unfold (h ++ ext) n p' = Some s' /\
        value s' = value s /\
        Forall (fun a => length h <= a) (addrs s') /\
        isSome p' = isSome p.
Proof.
  induction n as [|n IH]; intros [a|] h s H.
  - done.
  - rewrite unfold_nil in H. injection H as <-.
    exists None, [], NilShape. rewrite app_nil_r. by repeat split.
  - rewrite unfold_S in H.
    destruct (h !! a) as [b|] eqn:Hb; [|done]. cbn [mbind option_bind] in H.
    destruct (mapM (unfold h n) (Children b)) as [cs|] eqn:Hcs; [|done].
    cbn [mbind option_bind] in H. injection H as <-.
    rewrite copyBlock_S, Hb. cbn [mbind option_bind]. cbv zeta.
    set (fresh := mkBlock (ID b) (Type_ b) (Level b) (Content b) (HTML b)
                          (Position_ b) []).
    apply mapM_Some in Hcs.
    destruct (0 <? length (Children b)) eqn:Hlen.
    + destruct (copyEach_spec n IH (Children b) (h ++ [fresh]) cs)
        as (children' & ext & cs' & Hrun & Hall & Hvals & Hfresh).
      { eapply Forall2_impl; [done |]. intros ? ?. apply unfold_extend. }
      rewrite Hrun. cbn [mbind option_bind].
      set (filled := mkBlock (ID b) (Type_ b) (Level b) (Content b) (HTML b)
                             (Position_ b) children').
      assert (Hfinal : <[length h := filled]> ((h ++ [fresh]) ++ ext)
                       = h ++ (filled :: ext)).
      { rewrite <- app_assoc. rewrite insert_app_r_alt by lia.
        by rewrite Nat.sub_diag. }
      exists (Some (length h)), (filled :: ext), (NodeShape (length h) filled cs').
      rewrite Hfinal. split; [done |].
      rewrite length_app in Hfresh. simpl in Hfresh.
      split; [|split; [|split]].
      * rewrite unfold_S, list_lookup_middle by done. cbn [mbind option_bind].
        assert (mapM (unfold (h ++ filled :: ext) n) (Children filled) = Some cs') as ->;
          [|done].
        apply mapM_Some. simpl.
        clearbody filled. clear -Hall Hfresh.
        induction Hall as [|c s ? ? Hc _ IHall]; constructor.
        -- eapply unfold_agree; [done |].
           simpl in Hfresh. apply Forall_app in Hfresh as [Hs _].
           eapply Forall_impl; [done |]. intros a' Ha. cbv beta in Ha.
           rewrite <- app_assoc. simpl.
           rewrite !lookup_app_r by lia.
           destruct (a' - length h) eqn:Hd; [lia | done].
        -- apply IHall. simpl in Hfresh. by apply Forall_app in Hfresh as [_ ?].
      * simpl. by rewrite Hvals.
      * simpl. constructor; [lia |].
        eapply Forall_impl; [done |]. intros a' Ha. cbv beta in Ha. lia.
      * done.
    + exists (Some (length h)), [fresh], (NodeShape (length h) fresh []).
      split; [done |].
      destruct (Children b) eqn:Hch; [|done].
      apply Forall2_nil_inv_l in Hcs as ->.
      split; [|split; [|split]].
      * rewrite unfold_S, list_lookup_middle by done. done.
      * done.
      * simpl. constructor; [lia | done].
      * done.
  - rewrite unfold_nil in H. injection H as <-.
    exists None, [], NilShape. rewrite app_nil_r, copyBlock_nil. by repeat split.
Qed.

Section loops.
Variable md5_Sum : string -> string.
Variable depth : nat.

Lemma isBlock_inv (h : heap) (p : ptr) :
  isBlock h p = true -> exists a b, p = Some a /\ h !! a = Some b.
Proof.
  destruct p as [a|]; [|done]. simpl. intros H.
  apply isSome_true in H as [b Hb]. eauto.
Qed.

Lemma computeBlockHash_block (h : heap) (p : ptr) :
  isBlock h p = true -> is_Some (computeBlockHash md5_Sum h p).
Proof.
  intros H. apply isBlock_inv in H as (a & b & -> & Hb).
  unfold computeBlockHash. simpl. rewrite Hb. simpl. eauto.
Qed.

(** hasBlockChanged returns on blocks, and says whether the hashes
    differ. *)
Lemma hasBlockChanged_block (h : heap) (oldBlock newBlock : ptr) :
  isBlock h oldBlock = true -> isBlock h newBlock = true ->
  exists changed,
    hasBlockChanged md5_Sum h oldBlock newBlock = Some changed /\
    (changed = true <-> hashDiffers md5_Sum h oldBlock newBlock).
Proof.
  intros Ho Hn.
  destruct (computeBlockHash_block h oldBlock Ho) as [oh Hoh].
  destruct (computeBlockHash_block h newBlock Hn) as [nh Hnh].
  unfold hasBlockChanged, hashDiffers. rewrite Hoh, Hnh. simpl.
  eexists. split; [done |]. split.
  - intros H. exists oh, nh. repeat split.
    apply negb_true_iff in H. by apply String.eqb_neq.
  - intros (oh' & nh' & ? & ? & Hne). simplify_eq.
    apply negb_true_iff. by apply String.eqb_neq.
Qed.

Lemma lookupBool_insert (m : gmap string bool) (k k' : string) :
  lookupBool (<[k := true]> m) k' = true <-> k = k' \/ lookupBool m k' = true.
Proof.
  unfold lookupBool. destruct (decide (k = k')) as [->|Hne].
  - rewrite lookup_insert_eq. simpl. split; [by left | done].
  - rewrite lookup_insert_ne by done. split; [by right | by intros [? | ?]].
Qed.

Lemma diffNewBlock_spec (previousBlocks : gmap string ptr) (h : heap)
    (changes : list BlockChange) (seen : gmap string bool)
    (id : string) (p : ptr) :
  live h previousBlocks = true ->
  isBlock h p = true ->
  exists changes',
    diffNewBlock md5_Sum previousBlocks h (changes, seen) (id, p)
      = Some (changes', <[id := true]> seen) /\
    (forall c, c ∈ changes' <->
               c ∈ changes \/ isNewEntry md5_Sum previousBlocks h (id, p) c).
Proof.
  intros Hlive Hp. unfold live in Hlive. rewrite forallb_forall in Hlive.
  unfold diffNewBlock, isNewEntry. cbn [fst snd].
  destruct (previousBlocks !! id) as [oldBlock|] eqn:Hold.
  - assert (Ho : isBlock h oldBlock = true).
    { apply (Hlive (id, oldBlock)). apply list_elem_of_In.
      by apply elem_of_map_to_list. }
    destruct (hasBlockChanged_block h oldBlock p Ho Hp) as (changed & -> & Hch).
    cbn [mbind option_bind]. destruct changed.
    + eexists. split; [done |]. intros c.
      rewrite elem_of_app, list_elem_of_singleton. split.
      * intros [? | ->]; [by left |]. right. simpl. repeat split. right.
        split; [done |]. exists oldBlock. split; [done |]. by apply Hch.
      * intros [? | (Hid & Hb & [[_ ?] | [Hty _]])]; [by left | done |].
        right. destruct c; simpl in *; by subst.
    + eexists. split; [done |]. intros c. split; [by left |].
      intros [? | (Hid & Hb & [[_ ?] | [_ (ob & Hob & Hd)]])]; [done | done |].
      simplify_eq. by apply Hch in Hd.
  - eexists. split; [done |]. intros c.
    rewrite elem_of_app, list_elem_of_singleton. split.
    + intros [? | ->]; [by left |]. right. simpl. repeat split. by left.
    + intros [? | (Hid & Hb & [[Hty _] | [_ (ob & ? & _)]])]; [by left | | done].
      right. destruct c; simpl in *; by subst.
Qed.

Lemma first_loop (previousBlocks : gmap string ptr) (h : heap)
    (l : list (string * ptr)) :
  live h previousBlocks = true ->
  (forall kv, kv ∈ l -> isBlock h kv.2 = true) ->
  forall changes seen,
  exists changes' seen',
    rangeM (diffNewBlock md5_Sum previousBlocks h) (changes, seen) l
      = Some (changes', seen') /\
    (forall c, c ∈ changes' <->
               c ∈ changes \/ exists kv, kv ∈ l /\ isNewEntry md5_Sum previousBlocks h kv c) /\
    (forall id, lookupBool seen' id = true <->
                lookupBool seen id = true \/ id ∈ l.*1).
Proof.
  intros Hlive.
  induction l as [|[id p] l IH]; intros Hl changes seen.
  - exists changes, seen. split; [done |]. split.
    + intros c. split; [auto |]. intros [? | (kv & Hkv & _)]; [done |].
      by apply elem_of_nil in Hkv.
    + intros k. split; [auto |]. intros [? | Hk]; [done |].
      by apply elem_of_nil in Hk.
  - assert (Hp : isBlock h p = true) by (apply (Hl (id, p)); left).
    assert (Hl' : forall kv, kv ∈ l -> isBlock h kv.2 = true)
      by (intros kv Hkv; apply Hl; by right).
    destruct (diffNewBlock_spec previousBlocks h changes seen id p Hlive Hp)
      as (changes1 & Hstep & Hc1).
    destruct (IH Hl' changes1 (<[id := true]> seen))
      as (changes' & seen' & Hrun & Hc & Hs).
    exists changes', seen'. cbn [rangeM]. rewrite Hstep. cbn [mbind option_bind].
    split; [done |]. split.
    + intros c. rewrite Hc, Hc1. split.
      * intros [[? | ?] | (kv & ? & ?)]; [by left | |].
        -- right. exists (id, p). split; [left | done].
        -- right. exists kv. split; [by right | done].
      * intros [? | (kv & Hkv & ?)]; [by left; left |].
        apply elem_of_cons in Hkv as [-> | ?]; [by left; right |]. right. eauto.
    + intros k. rewrite Hs, lookupBool_insert. rewrite fmap_cons, elem_of_cons.
      simpl. split.
      * intros [[-> | ?] | ?]; [right; by left | by left | right; by right].
      * intros [? | [-> | ?]]; [left; by right | left; by left | by right].
Qed.

Lemma second_loop (seen : gmap string bool) (l : list (string * ptr)) :
  forall changes c,
    c ∈ foldl (diffOldBlock seen) changes l <->
    c ∈ changes \/
    exists kv, kv ∈ l /\ lookupBool seen kv.1 = false /\
               c = mkBlockChange "removed" kv.1 kv.2.
Proof.
  induction l as [|kv l IH]; intros changes c; cbn [foldl].
  - split; [auto |]. intros [? | (kv & Hkv & _)]; [done |].
    by apply elem_of_nil in Hkv.
  - rewrite IH. unfold diffOldBlock at 1.
    destruct (lookupBool seen kv.1) eqn:Hseen; cbn [negb].
    + split.
      * intros [? | (kv' & ? & ?)]; [by left |]. right. exists kv'.
        split; [by right | done].
      * intros [? | (kv' & Hkv' & Hs & ?)]; [by left |].
        apply elem_of_cons in Hkv' as [-> | ?]; [congruence |]. right. eauto.
    + rewrite elem_of_app, list_elem_of_singleton. split.
      * intros [[? | ->] | (kv' & ? & ?)]; [by left | |].
        -- right. exists kv. split; [left | done].
        -- right. exists kv'. split; [by right | done].
      * intros [? | (kv' & Hkv' & Hs & ?)]; [by left; left |].
        apply elem_of_cons in Hkv' as [-> | ?]; [by left; right |]. right. eauto.
Qed.

End loops.

Lemma live_lookup (h : heap) (blocks : gmap string ptr) (id : string) (p : ptr) :
  live h blocks = true -> blocks !! id = Some p -> isBlock h p = true.
Proof.
  unfold live. rewrite forallb_forall. intros H Hp.
  apply (H (id, p)). apply list_elem_of_In. by apply elem_of_map_to_list.
Qed.

Lemma wellFormed_lookup (h : heap) (n : nat) (blocks : gmap string ptr)
    (id : string) (p : ptr) :
  wellFormed h n blocks = true -> blocks !! id = Some p ->
  is_Some p /\ is_Some (unfold h n p).
Proof.
  unfold wellFormed. rewrite forallb_forall. intros H Hp.
  specialize (H (id, p)). simpl in H.
  rewrite andb_true_iff, !isSome_true in H. apply H.
  apply list_elem_of_In. by apply elem_of_map_to_list.
Qed.

Lemma unfold_isBlock (h : heap) (n : nat) (p : ptr) :
  is_Some p -> is_Some (unfold h n p) -> isBlock h p = true.
Proof.
  intros [a ->] [s Hs]. destruct n; [done |]. rewrite unfold_S in Hs.
  simpl. by destruct (h !! a).
Qed.

Lemma wellFormed_live (h : heap) (n : nat) (blocks : gmap string ptr) :
  wellFormed h n blocks = true -> live h blocks = true.
Proof.
  intros H. unfold live. apply forallb_forall. intros [id p] Hin.
  apply list_elem_of_In, elem_of_map_to_list in Hin.
  destruct (wellFormed_lookup h n blocks id p H Hin). by eapply unfold_isBlock.
Qed.

Section changes.
Variable md5_Sum : string -> string.
Variable depth : nat.

(** The change list, entry by entry. *)
Lemma computeChanges_spec (previousBlocks newBlocks : gmap string ptr) (h : heap) :
  live h previousBlocks = true ->
  live h newBlocks = true ->
  exists changes,
    computeChanges md5_Sum previousBlocks newBlocks h = Some changes /\
    forall c, c ∈ changes <->
      (ChangeType c = "added" /\
       newBlocks !! BlockID c = Some (ChangeBlock c) /\
       previousBlocks !! BlockID c = None)
      \/ (ChangeType c = "modified" /\
          newBlocks !! BlockID c = Some (ChangeBlock c) /\
          exists oldBlock, previousBlocks !! BlockID c = Some oldBlock /\
                           hashDiffers md5_Sum h oldBlock (ChangeBlock c))
      \/ (ChangeType c = "removed" /\
          previousBlocks !! BlockID c = Some (ChangeBlock c) /\
          newBlocks !! BlockID c = None).
Proof.
  intros Hprev Hnew. unfold computeChanges.
  destruct (first_loop md5_Sum previousBlocks h (map_to_list newBlocks) Hprev)
    with (changes := @nil BlockChange) (seen := (∅ : gmap string bool))
    as (changes1 & seen & -> & Hc1 & Hseen).
  { intros [id p] Hin. apply elem_of_map_to_list in Hin. by eapply live_lookup. }
  cbn [mbind option_bind]. eexists. split; [done |].
  assert (Hseen' : forall id, lookupBool seen id = false <-> newBlocks !! id = None).
  { intros id. rewrite <- not_true_iff_false, Hseen.
    unfold lookupBool at 1. rewrite lookup_empty. simpl. split.
    - intros H. destruct (newBlocks !! id) as [p|] eqn:Hp; [|done].
      exfalso. apply H. right. apply list_elem_of_fmap.
      exists (id, p). split; [done |]. by apply elem_of_map_to_list.
    - intros H [? | Hin]; [done |].
      apply list_elem_of_fmap in Hin as ([id' p] & -> & Hin).
      apply elem_of_map_to_list in Hin. simpl in H. congruence. }
  intros c. rewrite second_loop, Hc1. split.
  - intros [[Hnil | (kv & Hkv & Hid & Hb & Hcase)] | (kv & Hkv & Hs & ->)].
    + by apply elem_of_nil in Hnil.
    + destruct kv as [id p]. apply elem_of_map_to_list in Hkv. simpl in *.
      rewrite Hid, Hb. destruct Hcase as [[? ?] | [? ?]]; [left | right; left]; done.
    + destruct kv as [id p]. apply elem_of_map_to_list in Hkv. simpl in *.
      right; right. repeat split; [done |]. by apply Hseen'.
  - intros [(Hty & Hn & Hp) | [(Hty & Hn & Hp) | (Hty & Hp & Hn)]].
    + left; right. exists (BlockID c, ChangeBlock c).
      split; [by apply elem_of_map_to_list |]. unfold isNewEntry. simpl.
      repeat split. by left.
    + left; right. exists (BlockID c, ChangeBlock c).
      split; [by apply elem_of_map_to_list |]. unfold isNewEntry. simpl.
      repeat split. by right.
    + right. exists (BlockID c, ChangeBlock c).
      split; [by apply elem_of_map_to_list |]. split; [by apply Hseen' |].
      destruct c; simpl in *; by subst.
Qed.

(** The change list depends on the blocks the two maps point to
    only. *)
Lemma computeBlockHash_agree (h1 h2 : heap) (p : ptr) :
  (forall a, p = Some a -> h1 !! a = h2 !! a) ->
  computeBlockHash md5_Sum h1 p = computeBlockHash md5_Sum h2 p.
Proof.
  intros H. destruct p as [a|]; [|done]. unfold computeBlockHash. simpl.
  by rewrite (H a).
Qed.

Lemma rangeM_ext {A S : Type} (f g : S -> A -> option S) (l : list A) (s : S) :
  (forall s x, x ∈ l -> f s x = g s x) -> rangeM f s l = rangeM g s l.
Proof.
  revert s. induction l as [|x l IH]; intros s H; [done |]. cbn [rangeM].
  rewrite H by left. destruct (g s x); [|done]. simpl. apply IH.
  intros s' y Hy. apply H. by right.
Qed.

Lemma computeChanges_agree (previousBlocks newBlocks : gmap string ptr)
    (h1 h2 : heap) :
  (forall id a, previousBlocks !! id = Some (Some a) -> h1 !! a = h2 !! a) ->
  (forall id a, newBlocks !! id = Some (Some a) -> h1 !! a = h2 !! a) ->
  computeChanges md5_Sum previousBlocks newBlocks h1
  = computeChanges md5_Sum previousBlocks newBlocks h2.
Proof.
  intros Hprev Hnew. unfold computeChanges.
  rewrite (rangeM_ext (diffNewBlock md5_Sum previousBlocks h1)
                      (diffNewBlock md5_Sum previousBlocks h2)); [done |].
  intros [changes seen] [id p] Hin. apply elem_of_map_to_list in Hin.
  unfold diffNewBlock. cbn [fst snd].
  destruct (previousBlocks !! id) as [oldBlock|] eqn:Hold; [|done].
  unfold hasBlockChanged.
  rewrite (computeBlockHash_agree h1 h2 oldBlock)
    by (intros a ->; by eapply Hprev).
  rewrite (computeBlockHash_agree h1 h2 p)
    by (intros a ->; by eapply Hnew).
  done.
Qed.

End changes.

Section ids.
Variable md5_Sum : string -> string.

Lemma diffNewBlock_ids (previousBlocks : gmap string ptr) (h : heap)
    (changes changes' : list BlockChange) (seen seen' : gmap string bool)
    (kv : string * ptr) :
  diffNewBlock md5_Sum previousBlocks h (changes, seen) kv = Some (changes', seen') ->
  seen' = <[kv.1 := true]> seen /\
  exists extra, changes' = changes ++ extra /\
                BlockID <$> extra `sublist_of` [kv.1].
Proof.
  unfold diffNewBlock. cbn [fst snd].
  destruct (previousBlocks !! kv.1) as [oldBlock|].
  - destruct (hasBlockChanged md5_Sum h oldBlock kv.2) as [[|]|];
      cbn [mbind option_bind]; intros [= <- <-]; (split; [done |]).
    + eexists [_]. split; [done |]. done.
    + exists []. split; [by rewrite app_nil_r |]. apply sublist_nil_l.
  - intros [= <- <-]. split; [done |]. eexists [_]. split; [done |]. done.
Qed.

Lemma first_loop_ids (previousBlocks : gmap string ptr) (h : heap)
    (l : list (string * ptr)) :
  forall changes seen changes' seen',
    rangeM (diffNewBlock md5_Sum previousBlocks h) (changes, seen) l
      = Some (changes', seen') ->
    (forall id, lookupBool seen id = true \/ id ∈ l.*1 ->
                lookupBool seen' id = true) /\
    exists extra, changes' = changes ++ extra /\
                  BlockID <$> extra `sublist_of` l.*1.
Proof.
  induction l as [|kv l IH]; intros changes seen changes' seen' H.
  - injection H as <- <-. split.
    + intros id [? | Hid]; [done |]. by apply elem_of_nil in Hid.
    + exists []. split; [by rewrite app_nil_r |]. done.
  - cbn [rangeM] in H.
    destruct (diffNewBlock md5_Sum previousBlocks h (changes, seen) kv)
      as [[changes1 seen1]|] eqn:Hstep; [|done].
    cbn [mbind option_bind] in H.
    apply diffNewBlock_ids in Hstep as (-> & e1 & -> & Hsub1).
    apply IH in H as (Hseen & e2 & -> & Hsub2).
    split.
    + intros id Hid. apply Hseen. rewrite lookupBool_insert.
      rewrite fmap_cons, elem_of_cons in Hid.
      destruct Hid as [? | [-> | ?]]; [left; by right | left; by left | by right].
    + exists (e1 ++ e2). split; [by rewrite app_assoc |].
      rewrite fmap_app, fmap_cons. by apply (sublist_app _ [_]).
Qed.

Lemma second_loop_ids (seen : gmap string bool) (l : list (string * ptr)) :
  forall changes,
  exists extra,
    foldl (diffOldBlock seen) changes l = changes ++ extra /\
    BlockID <$> extra `sublist_of` l.*1 /\
    Forall (fun c => lookupBool seen (BlockID c) = false) extra.
Proof.
  induction l as [|kv l IH]; intros changes; cbn [foldl].
  - exists []. by rewrite app_nil_r.
  - destruct (IH (diffOldBlock seen changes kv)) as (e2 & -> & Hsub & Hall).
    unfold diffOldBlock. destruct (lookupBool seen kv.1) eqn:Hseen; cbn [negb].
    + exists e2. repeat split; [|done]. rewrite fmap_cons. by apply sublist_cons.
    + exists (mkBlockChange "removed" kv.1 kv.2 :: e2).
      rewrite <- app_assoc. repeat split.
      * rewrite !fmap_cons. by apply sublist_skip.
      * by constructor.
Qed.

(** The change list has at most one entry for an id. *)
Lemma computeChanges_NoDup (previousBlocks newBlocks : gmap string ptr)
    (h : heap) (changes : list BlockChange) :
  computeChanges md5_Sum previousBlocks newBlocks h = Some changes ->
  NoDup (BlockID <$> changes).
Proof.
  unfold computeChanges.
  destruct (rangeM _ _ _) as [[changes1 seen]|] eqn:Hloop; [|done].
  cbn [mbind option_bind]. intros [= <-].
  apply first_loop_ids in Hloop as (Hseen & e1 & -> & Hsub1).
  destruct (second_loop_ids seen (map_to_list previousBlocks) ([] ++ e1))
    as (e2 & -> & Hsub2 & Hall).
  simpl. rewrite fmap_app. apply NoDup_app. repeat split.
  - exact (sublist_NoDup _ _ (NoDup_fst_map_to_list _) Hsub1).
  - intros id Hid1 Hid2.
    assert (lookupBool seen id = true) as Htrue.
    { apply Hseen. right. exact (elem_of_sublist _ _ _ Hid1 Hsub1). }
    apply list_elem_of_fmap in Hid2 as (c & -> & Hc).
    rewrite Forall_forall in Hall. specialize (Hall c Hc). cbv beta in Hall.
    congruence.
  - exact (sublist_NoDup _ _ (NoDup_fst_map_to_list _) Hsub2).
Qed.

End ids.

Lemma copyOf_extend (n : nat) (h ext ext' : heap) (p p' : ptr) :
  copyOf n h ext p p' -> copyOf n h (ext ++ ext') p p'.
Proof.
  intros (s & s' & Hs & Hs' & Hv & Hf & Hn). exists s, s'.
  repeat split; try done. rewrite app_assoc. by apply unfold_extend.
Qed.

Section copyBlocks.
Variable depth : nat.
Variable h : heap.
Variable source : gmap string ptr.

Lemma copyBlocks_loop (l : list (string * ptr)) :
  (forall kv, kv ∈ l -> source !! kv.1 = Some kv.2 /\ is_Some (unfold h depth kv.2)) ->
  forall (m : gmap string ptr) (ext : heap),
    (forall id p', m !! id = Some p' ->
                   exists p, source !! id = Some p /\ copyOf depth h ext p p') ->
    exists m' ext',
      rangeM (copyEntry depth) (m, h ++ ext) l = Some (m', h ++ ext') /\
      (forall id p', m' !! id = Some p' ->
                     exists p, source !! id = Some p /\ copyOf depth h ext' p p') /\
      (forall id, is_Some (m' !! id) <-> is_Some (m !! id) \/ id ∈ l.*1).
Proof.
  induction l as [|[id p] l IH]; intros Hl m ext Hm.
  - exists m, ext. split; [done |]. split; [done |].
    intros k. split; [auto |]. intros [? | Hk]; [done |]. by apply elem_of_nil in Hk.
  - destruct (Hl (id, p)) as [Hsrc [s Hs]]; [left |]. simpl in Hsrc, Hs.
    destruct (copyBlock_spec depth p (h ++ ext) s)
      as (p' & ext1 & s' & Hrun & Hs' & Hval & Hfresh & Hnil).
    { by apply unfold_extend. }
    destruct (IH (fun kv Hkv => Hl kv (list_elem_of_further _ _ _ Hkv))
                 (<[id := p']> m) (ext ++ ext1))
      as (m' & ext' & Hrun' & Hm' & Hdom).
    { intros k q Hq. destruct (decide (id = k)) as [<- | Hne].
      - rewrite lookup_insert_eq in Hq. injection Hq as <-.
        exists p. split; [done |]. exists s, s'. rewrite app_assoc.
        repeat split; try done.
        eapply Forall_impl; [done |]. intros a. rewrite length_app. lia.
      - rewrite lookup_insert_ne in Hq by done.
        destruct (Hm k q Hq) as (p0 & ? & ?). exists p0.
        split; [done |]. by apply copyOf_extend. }
    assert (Hstep : copyEntry depth (m, h ++ ext) (id, p)
                    = Some (<[id := p']> m, (h ++ ext) ++ ext1)).
    { unfold copyEntry. cbn [fst snd]. by rewrite Hrun. }
    exists m', ext'.
    cbn [rangeM]. rewrite Hstep. cbn [mbind option_bind]. rewrite <- app_assoc.
    split; [done |]. split; [done |].
    intros k. rewrite Hdom, fmap_cons, elem_of_cons. simpl.
    destruct (decide (id = k)) as [<- | Hne].
    + rewrite lookup_insert_eq. split; [intros _; right; by left | eauto].
    + rewrite lookup_insert_ne by done.
      split.
      * intros [? | ?]; [by left | right; by right].
      * intros [? | [? | ?]]; [by left | done | by right].
Qed.

End copyBlocks.

(** copyBlocks returns on a well-formed snapshot: the new map has the
    keys of the snapshot, and each value is a copy of the snapshot's. *)
Lemma copyBlocks_spec (depth : nat) (blocks : gmap string ptr) (h : heap) :
  wellFormed h depth blocks = true ->
  exists copied ext,
    copyBlocks depth blocks h = Some (copied, h ++ ext) /\
    (forall id, is_Some (copied !! id) <-> is_Some (blocks !! id)) /\
    (forall id p p', blocks !! id = Some p -> copied !! id = Some p' ->
                     copyOf depth h ext p p').
Proof.
  intros Hwf. unfold copyBlocks.
  destruct (copyBlocks_loop depth h blocks (map_to_list blocks)) with (m := (∅ : gmap string ptr)) (ext := @nil Block)
    as (m' & ext' & Hrun & Hm' & Hdom).
  - intros [id p] Hin. apply elem_of_map_to_list in Hin. split; [done |].
    by destruct (wellFormed_lookup h depth blocks id p Hwf Hin).
  - intros id p'. by rewrite lookup_empty.
  - rewrite app_nil_r in Hrun. exists m', ext'. split; [exact Hrun |]. split.
    + intros id. rewrite Hdom, lookup_empty. split.
      * intros [[? ?] | Hin]; [done |].
        apply list_elem_of_fmap in Hin as ([id' p] & -> & Hin).
        apply elem_of_map_to_list in Hin. eauto.
      * intros [p Hp]. right. apply list_elem_of_fmap. exists (id, p).
        split; [done |]. by apply elem_of_map_to_list.
    + intros id p p' Hp Hp'. destruct (Hm' id p' Hp') as (p0 & Hp0 & Hcopy).
      by simplify_eq.
Qed.

Section completeness.
Variable md5_Sum : string -> string.
Variable depth : nat.

(** ComputeDiff returns on a well-formed state and snapshot: its
    changes are those of [computeChanges], its new state has the keys
    of the snapshot and holds a copy of each of its blocks. *)
Lemma ComputeDiff_returns (previousBlocks newBlocks : gmap string ptr) (h : heap) :
  live h previousBlocks = true ->
  wellFormed h depth newBlocks = true ->
  exists changes copied ext,
    ComputeDiff md5_Sum depth previousBlocks newBlocks h
      = Some (changes, copied, h ++ ext) /\
    computeChanges md5_Sum previousBlocks newBlocks h = Some changes /\
    (forall id, is_Some (copied !! id) <-> is_Some (newBlocks !! id)) /\
    (forall id p p', newBlocks !! id = Some p -> copied !! id = Some p' ->
                     copyOf depth h ext p p').
Proof.
  intros Hprev Hnew. unfold ComputeDiff.
  destruct (computeChanges_spec md5_Sum previousBlocks newBlocks h Hprev)
    as (changes & Hch & _); [by eapply wellFormed_live |].
  destruct (copyBlocks_spec depth newBlocks h Hnew)
    as (copied & ext & Hcp & Hdom & Hcopy).
  exists changes, copied, ext. by rewrite Hch, Hcp.
Qed.

(** C2.  On a well-formed detector state P and snapshot N, ComputeDiff
    returns, and its change list has at most one entry for an id and
    holds exactly: an added entry for each id of N that is not in P, a
    modified entry for each id of both whose two content hashes differ,
    both carrying N's block; and a removed entry for each id of P that
    is not in N, carrying P's block. *)
Theorem ComputeDiff_complete (previousBlocks newBlocks : gmap string ptr) (h : heap) :
  live h previousBlocks = true ->
  wellFormed h depth newBlocks = true ->
  exists changes previousBlocks' h',
    ComputeDiff md5_Sum depth previousBlocks newBlocks h
      = Some (changes, previousBlocks', h') /\
    NoDup (BlockID <$> changes) /\
    forall c, c ∈ changes <->
      (ChangeType c = "added" /\
       newBlocks !! BlockID c = Some (ChangeBlock c) /\
       previousBlocks !! BlockID c = None)
      \/ (ChangeType c = "modified" /\
          newBlocks !! BlockID c = Some (ChangeBlock c) /\
          exists oldBlock, previousBlocks !! BlockID c = Some oldBlock /\
                           hashDiffers md5_Sum h oldBlock (ChangeBlock c))
      \/ (ChangeType c = "removed" /\
          previousBlocks !! BlockID c = Some (ChangeBlock c) /\
          newBlocks !! BlockID c = None).
Proof.
  intros Hprev Hnew.
  destruct (ComputeDiff_returns previousBlocks newBlocks h Hprev Hnew)
    as (changes & copied & ext & Hrun & Hch & _).
  exists changes, copied, (h ++ ext). split; [done |].
  split; [by eapply computeChanges_NoDup |].
  destruct (computeChanges_spec md5_Sum previousBlocks newBlocks h Hprev)
    as (changes' & Hch' & Hspec); [by eapply wellFormed_live |].
  by simplify_eq.
Qed.

(** C7.  An id of both snapshots whose two blocks agree on type,
    content, level and rendered markup gets no entry in the change
    list, whatever the positions of the two blocks. *)
Theorem ComputeDiff_ignores_position
    (previousBlocks newBlocks : gmap string ptr) (h : heap)
    (id : string) (a1 a2 : nat) (b1 b2 : Block) :
  live h previousBlocks = true ->
  wellFormed h depth newBlocks = true ->
  previousBlocks !! id = Some (Some a1) ->
  newBlocks !! id = Some (Some a2) ->
  h !! a1 = Some b1 ->
  h !! a2 = Some b2 ->
  Type_ b1 = Type_ b2 ->
  Content b1 = Content b2 ->
  Level b1 = Level b2 ->
  HTML b1 = HTML b2 ->
  exists changes previousBlocks' h',
    ComputeDiff md5_Sum depth previousBlocks newBlocks h
      = Some (changes, previousBlocks', h') /\
    forall c, c ∈ changes -> BlockID c <> id.
Proof.
  intros Hprev Hnew Hp Hn Hb1 Hb2 Hty Hco Hle Hht.
  destruct (ComputeDiff_returns previousBlocks newBlocks h Hprev Hnew)
    as (changes & copied & ext & Hrun & Hch & _).
  exists changes, copied, (h ++ ext). split; [done |].
  destruct (computeChanges_spec md5_Sum previousBlocks newBlocks h Hprev)
    as (changes' & Hch' & Hspec); [by eapply wellFormed_live |].
  simplify_eq. intros c Hc Hid. apply Hspec in Hc. subst id.
  destruct Hc as [(_ & _ & Hnone) | [(_ & Hnb & old & Hold & Hdiff) | (_ & _ & Hnone)]];
    [congruence | | congruence].
  rewrite Hn in Hnb. injection Hnb as Hnb. rewrite <- Hnb in Hdiff.
  rewrite Hp in Hold. injection Hold as Hold. rewrite <- Hold in Hdiff.
  destruct Hdiff as (oh & nh & Hoh & Hnh & Hne). apply Hne.
  unfold computeBlockHash in Hoh, Hnh. simpl in Hoh, Hnh.
  rewrite Hb1 in Hoh. rewrite Hb2 in Hnh. simpl in Hoh, Hnh.
  rewrite Hty, Hco, Hle, Hht in Hoh. congruence.
Qed.

End completeness.

Lemma ComputeDiff_ignores_position_witness :
  exists changes previousBlocks' h',
    ComputeDiff scenario.digest 3 scenario.first scenario.second scenario.blocks
      = Some (changes, previousBlocks', h') /\
    forall c, c ∈ changes -> BlockID c <> "b1".
Proof.
  apply (ComputeDiff_ignores_position scenario.digest 3 scenario.first
           scenario.second scenario.blocks "b1" 0 3
           (mkBlock "b1" "h1" 1 "Title" "<h1>Title</h1>" (mkPosition 0 7 1) [])
           (mkBlock "b1" "h1" 1 "Title" "<h1>Title</h1>" (mkPosition 2 9 2) []));
    reflexivity.
Defined.

Lemma ComputeDiff_complete_witness :
  exists changes previousBlocks' h',
    ComputeDiff scenario.digest 3 scenario.first scenario.second scenario.blocks
      = Some (changes, previousBlocks', h') /\
    NoDup (BlockID <$> changes) /\
    forall c, c ∈ changes <->
      (ChangeType c = "added" /\
       scenario.second !! BlockID c = Some (ChangeBlock c) /\
       scenario.first !! BlockID c = None)
      \/ (ChangeType c = "modified" /\
          scenario.second !! BlockID c = Some (ChangeBlock c) /\
          exists oldBlock, scenario.first !! BlockID c = Some oldBlock /\
                           hashDiffers scenario.digest scenario.blocks oldBlock
                                       (ChangeBlock c))
      \/ (ChangeType c = "removed" /\
          scenario.first !! BlockID c = Some (ChangeBlock c) /\
          scenario.second !! BlockID c = None).
Proof.
  apply (ComputeDiff_complete scenario.digest 3 scenario.first scenario.second
           scenario.blocks); reflexivity.
Defined.

(** The shape of a block that is not nil is a node. *)
Lemma unfold_Some_node (h : heap) (n : nat) (a : nat) (s : Shape) :
  unfold h n (Some a) = Some s -> exists b cs, s = NodeShape a b cs /\ h !! a = Some b.
Proof.
  destruct n; [done |]. rewrite unfold_S.
  destruct (h !! a) as [b|]; [|done]. cbn [mbind option_bind].
  destruct (mapM _ _) as [cs|]; [|done]. cbn [mbind option_bind].
  intros [= <-]. eauto.
Qed.

Lemma unfold_None_nil (h : heap) (n : nat) (s : Shape) :
  unfold h n None = Some s -> s = NilShape.
Proof. rewrite unfold_nil. by intros [= <-]. Qed.

(** The content hash of a block is a function of its value. *)
Lemma computeBlockHash_value (md5_Sum : string -> string) (h1 h2 : heap)
    (n : nat) (p1 p2 : ptr) (s1 s2 : Shape) :
  unfold h1 n p1 = Some s1 -> unfold h2 n p2 = Some s2 -> value s1 = value s2 ->
  computeBlockHash md5_Sum h1 p1 = computeBlockHash md5_Sum h2 p2.
Proof.
  intros H1 H2 Hv. destruct p1 as [a1|], p2 as [a2|].
  - apply unfold_Some_node in H1 as (b1 & cs1 & -> & Hb1).
    apply unfold_Some_node in H2 as (b2 & cs2 & -> & Hb2).
    unfold computeBlockHash. simpl. rewrite Hb1, Hb2. simpl.
    simpl in Hv. by injection Hv as _ -> -> -> -> _ _.
  - apply unfold_Some_node in H1 as (b1 & cs1 & -> & _).
    apply unfold_None_nil in H2 as ->. done.
  - apply unfold_Some_node in H2 as (b2 & cs2 & -> & _).
    apply unfold_None_nil in H1 as ->. done.
  - done.
Qed.

Lemma copyOf_isBlock (n : nat) (h ext ext' : heap) (p p' : ptr) :
  is_Some p -> copyOf n h ext p p' -> isBlock ((h ++ ext) ++ ext') p' = true.
Proof.
  intros [a ->] (s & s' & _ & Hs' & _ & _ & Hnil).
  destruct p' as [a'|]; [|done].
  apply unfold_Some_node in Hs' as (b & cs & _ & Hb). simpl.
  rewrite lookup_app_l by (by eapply lookup_lt_Some). by rewrite Hb.
Qed.

Lemma valueOf_Some_wf (h : heap) (n : nat) (p : ptr) (s : Shape) (h2 : heap) (p2 : ptr) :
  is_Some p -> unfold h n p = Some s -> valueOf h2 n p2 = valueOf h n p ->
  exists s2, unfold h2 n p2 = Some s2 /\ value s2 = value s /\ is_Some p2.
Proof.
  intros [a ->] Hs Hv. unfold valueOf in Hv. rewrite Hs in Hv. simpl in Hv.
  destruct (unfold h2 n p2) as [s2|] eqn:Hs2; [|done].
  injection Hv as Hv. exists s2. repeat split; [done |].
  destruct p2; [eauto |]. apply unfold_None_nil in Hs2 as ->.
  apply unfold_Some_node in Hs as (b & cs & -> & _). done.
Qed.

Section idempotence.
Variable md5_Sum : string -> string.
Variable depth : nat.

Lemma no_changes (changes : list BlockChange) :
  (forall c, c ∈ changes -> False) -> changes = [].
Proof. destruct changes as [|c ?]; [done |]. intros H. destruct (H c). left. Qed.

(** A second call, with a snapshot that has the value of the first. *)
Lemma second_call (S1 S2 baseline : gmap string ptr) (h ext ext' : heap) :
  wellFormed h depth S1 = true ->
  (forall id, is_Some (baseline !! id) <-> is_Some (S1 !! id)) ->
  (forall id p p', S1 !! id = Some p -> baseline !! id = Some p' ->
                   copyOf depth h ext p p') ->
  snapshotValue ((h ++ ext) ++ ext') depth S2 = snapshotValue h depth S1 ->
  exists baseline' h',
    ComputeDiff md5_Sum depth baseline S2 ((h ++ ext) ++ ext')
      = Some ([], baseline', h').
Proof.
  intros Hwf Hdom Hcopy Hval.
  assert (Hpair : forall id p2, S2 !! id = Some p2 ->
            exists p s s2, S1 !! id = Some p /\ is_Some p /\
                           unfold h depth p = Some s /\
                           unfold ((h ++ ext) ++ ext') depth p2 = Some s2 /\
                           value s2 = value s /\ is_Some p2).
  { intros id p2 Hp2.
    pose proof (f_equal (fun m => m !! id) Hval) as Hid. cbv beta in Hid.
    unfold snapshotValue in Hid. rewrite !lookup_fmap, Hp2 in Hid.
    destruct (S1 !! id) as [p|] eqn:Hp; [|done]. simpl in Hid.
    injection Hid as Hid.
    destruct (wellFormed_lookup h depth S1 id p Hwf Hp) as [Hsome [s Hs]].
    destruct (valueOf_Some_wf h depth p s _ p2 Hsome Hs Hid) as (s2 & ? & ? & ?).
    exists p, s, s2. done. }
  assert (Hdom2 : forall id, is_Some (S2 !! id) <-> is_Some (S1 !! id)).
  { intros id.
    pose proof (f_equal (fun m => m !! id) Hval) as Hid. cbv beta in Hid.
    unfold snapshotValue in Hid. rewrite !lookup_fmap in Hid.
    destruct (S2 !! id), (S1 !! id); simpl in Hid; split; intros [? ?]; eauto; done. }
  assert (Hwf2 : wellFormed ((h ++ ext) ++ ext') depth S2 = true).
  { unfold wellFormed. apply forallb_forall. intros [id p2] Hin.
    apply list_elem_of_In, elem_of_map_to_list in Hin.
    destruct (Hpair id p2 Hin) as (p & s & s2 & _ & _ & _ & Hs2 & _ & Hsome).
    simpl. rewrite Hs2. by destruct Hsome as [? ->]. }
  assert (Hlive : live ((h ++ ext) ++ ext') baseline = true).
  { unfold live. apply forallb_forall. intros [id p'] Hin.
    apply list_elem_of_In, elem_of_map_to_list in Hin.
    destruct (proj1 (Hdom id)) as [p Hp]; [eauto |].
    destruct (wellFormed_lookup h depth S1 id p Hwf Hp) as [Hsome _].
    simpl. eapply copyOf_isBlock; [done |]. by eapply Hcopy. }
  destruct (ComputeDiff_returns md5_Sum depth baseline S2 _ Hlive Hwf2)
    as (changes & copied & ext2 & Hrun & Hch & _).
  destruct (computeChanges_spec md5_Sum baseline S2 _ Hlive)
    as (changes' & Hch' & Hspec); [by eapply wellFormed_live |].
  simplify_eq. exists copied, (((h ++ ext) ++ ext') ++ ext2).
  rewrite Hrun. do 3 f_equal. apply no_changes. intros c Hc.
  apply Hspec in Hc.
  destruct Hc as [(_ & Hn & Hnone) | [(_ & Hn & old & Hold & Hdiff) | (_ & Hp & Hnone)]].
  - assert (is_Some (baseline !! BlockID c)) as [? ?]; [|congruence].
    apply Hdom, Hdom2. eauto.
  - destruct (Hpair _ _ Hn) as (p & s & s2 & Hp & _ & Hs & Hs2 & Hv & _).
    destruct (Hcopy _ _ _ Hp Hold) as (s0 & s' & Hs0 & Hs' & Hv' & _ & _).
    simplify_eq.
    destruct Hdiff as (oh & nh & Hoh & Hnh & Hne). apply Hne.
    rewrite (computeBlockHash_value md5_Sum _ ((h ++ ext) ++ ext') depth
               old (ChangeBlock c) s' s2) in Hoh.
    + congruence.
    + by apply unfold_extend.
    + done.
    + congruence.
  - assert (is_Some (S2 !! BlockID c)) as [? ?]; [|congruence].
    apply Hdom2, Hdom. eauto.
Qed.

(** C3.  On a well-formed detector state and snapshot S, ComputeDiff
    returns; a second call with S returns the empty change list, and
    so does a second call with any snapshot that has the value of S,
    whatever was allocated in between. *)
Theorem ComputeDiff_idempotent (previousBlocks S1 : gmap string ptr) (h : heap) :
  live h previousBlocks = true ->
  wellFormed h depth S1 = true ->
  exists changes1 baseline h1,
    ComputeDiff md5_Sum depth previousBlocks S1 h = Some (changes1, baseline, h1) /\
    (exists baseline' h2,
        ComputeDiff md5_Sum depth baseline S1 h1 = Some ([], baseline', h2)) /\
    (forall (ext : heap) (S2 : gmap string ptr),
        snapshotValue (h1 ++ ext) depth S2 = snapshotValue h depth S1 ->
        exists baseline' h2,
          ComputeDiff md5_Sum depth baseline S2 (h1 ++ ext)
            = Some ([], baseline', h2)).
Proof.
  intros Hprev Hwf.
  destruct (ComputeDiff_returns md5_Sum depth previousBlocks S1 h Hprev Hwf)
    as (changes & copied & ext & Hrun & _ & Hdom & Hcopy).
  exists changes, copied, (h ++ ext). split; [done |].
  assert (Hgen : forall (ext' : heap) (S2 : gmap string ptr),
             snapshotValue ((h ++ ext) ++ ext') depth S2 = snapshotValue h depth S1 ->
             exists baseline' h2,
               ComputeDiff md5_Sum depth copied S2 ((h ++ ext) ++ ext')
                 = Some ([], baseline', h2)).
  { intros ext' S2. by apply second_call. }
  split; [|done].
  specialize (Hgen [] S1). rewrite app_nil_r in Hgen. apply Hgen.
  unfold snapshotValue. apply map_fmap_ext. intros id p Hp.
  destruct (wellFormed_lookup h depth S1 id p Hwf Hp) as [_ [s Hs]].
  unfold valueOf. by rewrite Hs, (unfold_extend h ext depth p s Hs).
Qed.

End idempotence.

Lemma ComputeDiff_idempotent_witness :
  exists changes1 baseline h1,
    ComputeDiff scenario.digest 3 scenario.first scenario.second scenario.blocks
      = Some (changes1, baseline, h1) /\
    (exists baseline' h2,
        ComputeDiff scenario.digest 3 baseline scenario.second h1
          = Some ([], baseline', h2)) /\
    (forall (ext : heap) (S2 : gmap string ptr),
        snapshotValue (h1 ++ ext) 3 S2 = snapshotValue scenario.blocks 3 scenario.second ->
        exists baseline' h2,
          ComputeDiff scenario.digest 3 baseline S2 (h1 ++ ext)
            = Some ([], baseline', h2)).
Proof.
  apply (ComputeDiff_idempotent scenario.digest 3 scenario.first scenario.second
           scenario.blocks); reflexivity.
Defined.

Lemma copyOf_root (n : nat) (h ext : heap) (p p' : ptr) (a : nat) :
  copyOf n h ext p p' -> p' = Some a -> length h <= a < length (h ++ ext).
Proof.
  intros (s & s' & _ & Hs' & _ & Hfresh & _) ->.
  pose proof (unfold_addrs_allocated _ _ _ _ Hs') as Halloc.
  apply unfold_Some_node in Hs' as (b & cs & -> & _).
  simpl in Hfresh, Halloc.
  apply Forall_cons in Hfresh as [? _]. apply Forall_cons in Halloc as [? _]. lia.
Qed.

(** A copy keeps its value in every store that has the objects
    allocated by the copy as they were. *)
Lemma copyOf_frame (n : nat) (h ext h1 : heap) (p p' : ptr) :
  copyOf n h ext p p' ->
  (forall a, length h <= a < length (h ++ ext) -> h1 !! a = (h ++ ext) !! a) ->
  valueOf h1 n p' = valueOf h n p.
Proof.
  intros (s & s' & Hs & Hs' & Hv & Hfresh & _) Hagree.
  unfold valueOf. rewrite Hs. simpl.
  rewrite (unfold_agree (h ++ ext) h1 n p' s' Hs'); [by rewrite <- Hv |].
  pose proof (unfold_addrs_allocated _ _ _ _ Hs') as Halloc.
  rewrite Forall_forall in Hfresh, Halloc. apply Forall_forall.
  intros a Ha. apply Hagree. split; [by apply Hfresh | by apply Halloc].
Qed.

Section retained_copy.
Variable md5_Sum : string -> string.
Variable depth : nat.

(** C9.  After ComputeDiff on a well-formed state and snapshot, the
    store has only grown, and the detector's new state is a deep copy
    of the snapshot: it has the same ids; each of its blocks has the
    value of the snapshot's block, children included, and is made of
    objects allocated by the call, none of which the caller's blocks
    contain.  So in any later store that has those objects as they
    were, whatever else was written or allocated, the new state still
    has the value the snapshot had at the call, and the change list of
    the next call depends, besides that, on the blocks of the next
    snapshot only. *)
Theorem ComputeDiff_keeps_deep_copy
    (previousBlocks newBlocks : gmap string ptr) (h : heap) :
  live h previousBlocks = true ->
  wellFormed h depth newBlocks = true ->
  exists changes baseline h',
    ComputeDiff md5_Sum depth previousBlocks newBlocks h
      = Some (changes, baseline, h') /\
    (exists ext, h' = h ++ ext) /\
    dom baseline = dom newBlocks /\
    (forall id p p',
        newBlocks !! id = Some p -> baseline !! id = Some p' ->
        is_Some p' /\
        is_Some (valueOf h depth p) /\
        valueOf h' depth p' = valueOf h depth p /\
        Forall (fun a => length h <= a) (cellsOf h' depth p') /\
        Forall (fun a => a < length h) (cellsOf h depth p)) /\
    (forall h1 : heap,
        (forall a, length h <= a < length h' -> h1 !! a = h' !! a) ->
        snapshotValue h1 depth baseline = snapshotValue h depth newBlocks /\
        forall (h2 : heap) (next : gmap string ptr),
          (forall a, length h <= a < length h' -> h2 !! a = h' !! a) ->
          (forall id a, next !! id = Some (Some a) -> h1 !! a = h2 !! a) ->
          computeChanges md5_Sum baseline next h1
          = computeChanges md5_Sum baseline next h2).
Proof.
  intros Hprev Hwf.
  destruct (ComputeDiff_returns md5_Sum depth previousBlocks newBlocks h Hprev Hwf)
    as (changes & copied & ext & Hrun & _ & Hdom & Hcopy).
  exists changes, copied, (h ++ ext). split; [done |].
  split; [by exists ext |]. split; [|split].
  - apply set_eq. intros id. by rewrite !elem_of_dom.
  - intros id p p' Hp Hp'.
    destruct (wellFormed_lookup h depth newBlocks id p Hwf Hp) as [Hsome _].
    destruct (Hcopy id p p' Hp Hp') as (s & s' & Hs & Hs' & Hv & Hfresh & Hnil).
    unfold valueOf, cellsOf. rewrite Hs, Hs'. simpl. repeat split.
    + apply isSome_true. rewrite Hnil. by apply isSome_true.
    + eauto.
    + by rewrite Hv.
    + done.
    + by eapply unfold_addrs_allocated.
  - intros h1 Hh1. split.
    + unfold snapshotValue. apply map_eq. intros id. rewrite !lookup_fmap.
      destruct (newBlocks !! id) as [p|] eqn:Hp.
      * destruct (proj2 (Hdom id)) as [p' Hp']; [eauto |]. rewrite Hp'. simpl.
        f_equal. eapply copyOf_frame; [by eapply Hcopy | done].
      * destruct (copied !! id) as [p'|] eqn:Hp'; [|done].
        destruct (proj1 (Hdom id)) as [? ?]; [eauto | congruence].
    + intros h2 next Hh2 Hnext. apply computeChanges_agree; [|done].
      intros id a Ha.
      destruct (proj1 (Hdom id)) as [p Hp]; [eauto |].
      pose proof (copyOf_root _ _ _ _ _ a (Hcopy id p _ Hp Ha) eq_refl) as Hrange.
      by rewrite Hh1, Hh2.
Qed.

End retained_copy.

Lemma ComputeDiff_keeps_deep_copy_witness :
  exists changes baseline h',
    ComputeDiff scenario.digest 3 scenario.first scenario.second scenario.blocks
      = Some (changes, baseline, h') /\
    (exists ext, h' = scenario.blocks ++ ext) /\
    dom baseline = dom scenario.second /\
    (forall id p p',
        scenario.second !! id = Some p -> baseline !! id = Some p' ->
        is_Some p' /\
        is_Some (valueOf scenario.blocks 3 p) /\
        valueOf h' 3 p' = valueOf scenario.blocks 3 p /\
        Forall (fun a => length scenario.blocks <= a) (cellsOf h' 3 p') /\
        Forall (fun a => a < length scenario.blocks) (cellsOf scenario.blocks 3 p)) /\
    (forall h1 : heap,
        (forall a, length scenario.blocks <= a < length h' -> h1 !! a = h' !! a) ->
        snapshotValue h1 3 baseline = snapshotValue scenario.blocks 3 scenario.second /\
        forall (h2 : heap) (next : gmap string ptr),
          (forall a, length scenario.blocks <= a < length h' -> h2 !! a = h' !! a) ->
          (forall id a, next !! id = Some (Some a) -> h1 !! a = h2 !! a) ->
          computeChanges scenario.digest baseline next h1
          = computeChanges scenario.digest baseline next h2).
Proof.
  apply (ComputeDiff_keeps_deep_copy scenario.digest 3 scenario.first
           scenario.second scenario.blocks); reflexivity.
Defined.

(** The scenario, run: the heading that moved is not reported, the
    paragraph is added; and once the caller has edited the paragraph in
    place, the next call on the same snapshot reports it modified, the
    retained copy having kept the old content. *)
Example scenario_run :
  exists baseline h',
    ComputeDiff scenario.digest 3 scenario.first scenario.second scenario.blocks
      = Some ([mkBlockChange "added" "b2" (Some 1)], baseline, h') /\
    snapshotValue (scenario.scribble h') 3 baseline
      = snapshotValue scenario.blocks 3 scenario.second /\
    computeChanges scenario.digest baseline scenario.second (scenario.scribble h')
      = Some [mkBlockChange "modified" "b2" (Some 1)].
Proof. eexists _, _. split; [|split]; vm_compute; reflexivity. Qed.

End block_diff.

(** ** The line classifier and the parser entry points *)

Module parser_facts.
Import builtin models parser classifier.

Lemma SplitN2_two_parts (s sep : string) :
  (length (strings.SplitN2 s sep) =? 2) = strings.Contains s sep.
Proof. unfold strings.SplitN2, strings.Contains. by destruct (strings.Index s sep). Qed.

(** DetectNotionSyntax is the first-match classifier on the trimmed
    line. *)
Lemma DetectNotionSyntax_Classify (line : string) :
  DetectNotionSyntax line = Classify (strings.TrimSpace line).
Proof.
  unfold DetectNotionSyntax, Classify, rules. cbv zeta.
  generalize (strings.TrimSpace line) as t. intros t.
  cbn [List.find fst snd].
  repeat match goal with
         | |- context [strings.HasPrefix t ?p] =>
             destruct (strings.HasPrefix t p); cbn [orb]; try reflexivity
         end.
  all: unfold startsWithDigit; destruct t as [|c t]; [done |].
  all: rewrite SplitN2_two_parts.
  all: by destruct (strings.IsDigitByte c && strings.Contains (String c t) ". ").
Qed.

Section MarkdownParser.
Variable md5_Sum : string -> string.
Variable goldmark_Parse : string -> Node.
Variable goldmark_Render : string -> Node -> result string.

(** ParseLine returns nil exactly on the lines that are empty once
    trimmed. *)
Lemma ParseLine_nil (line : string) (lineNumber : Z) :
  store.isSome (ParseLine md5_Sum goldmark_Parse goldmark_Render line lineNumber)
  = negb (strings.isEmpty (strings.TrimSpace line)).
Proof.
  unfold ParseLine. cbv zeta.
  destruct (strings.isEmpty (strings.TrimSpace line)); [done |].
  destruct (Parse _ _ _ line) as [result|]; [|done].
  destruct (0 <? size (Blocks result)); [|done].
  by destruct (List.find _ _).
Qed.

(** C5.  DetectNotionSyntax trims the line and applies the rules in
    the order heading, checkbox, unordered list, ordered list, fenced
    code, blockquote, the first match giving the category and no match
    giving paragraph; so the literal lines classify as listed; and
    ParseLine yields a block exactly for the lines that are not empty
    once trimmed, nil for the others. *)
Theorem DetectNotionSyntax_precedence :
  (forall line, DetectNotionSyntax line = Classify (strings.TrimSpace line)) /\
  DetectNotionSyntax "# Heading 1" = "h1" /\
  DetectNotionSyntax "- [ ] task" = "checkbox" /\
  DetectNotionSyntax "- [x] done" = "checkbox" /\
  DetectNotionSyntax "1. item" = "ordered_list" /\
  DetectNotionSyntax "* bullet" = "unordered_list" /\
  DetectNotionSyntax "Regular text" = "paragraph" /\
  (forall line lineNumber,
      store.isSome (ParseLine md5_Sum goldmark_Parse goldmark_Render line lineNumber)
      = negb (strings.isEmpty (strings.TrimSpace line))) /\
  (forall lineNumber,
      ParseLine md5_Sum goldmark_Parse goldmark_Render "" lineNumber = None).
Proof.
  split; [exact DetectNotionSyntax_Classify |].
  do 6 (split; [vm_compute; reflexivity |]).
  split; [exact ParseLine_nil |]. reflexivity.
Qed.

(** C10.  ParseIncremental returns what Parse returns on the content:
    the block id does not matter. *)
Theorem ParseIncremental_is_Parse (content blockID : string) :
  ParseIncremental md5_Sum goldmark_Parse goldmark_Render content blockID
  = Parse md5_Sum goldmark_Parse goldmark_Render content /\
  forall blockID',
    ParseIncremental md5_Sum goldmark_Parse goldmark_Render content blockID'
    = ParseIncremental md5_Sum goldmark_Parse goldmark_Render content blockID.
Proof. split; reflexivity. Qed.

End MarkdownParser.

End parser_facts.

(** ** The hub *)

Module hub_facts.
Import builtin models websocket hub.

Section Hub.
Variable WebSocketResponse : Type.
Variable json_Marshal : WebSocketResponse -> result string.

(** One run of the loop body on a client whose channel is open. *)
Lemma dispatchTo_open (documentID data : string) (h : Hub)
    (store : gmap nat Client) (c : nat) (client : Client) :
  store !! c = Some client ->
  closed (send client) = false ->
  dispatchTo documentID data (h, store) c
  = Some (if dropped documentID client
          then mkHub (delete c (clients h)) else h,
          <[c := delivered documentID data client]> store).
Proof.
  intros Hc Hopen. unfold dispatchTo, dropped, delivered, subscribed, hasRoom.
  cbn [fst snd]. rewrite Hc. cbn [mbind option_bind].
  destruct (lookupBool (subscribedDocuments client) documentID); cbn [andb].
  - unfold trySend, close. rewrite Hopen.
    destruct (length (queue (send client)) <? capacity (send client));
      cbn [mbind option_bind negb]; [done |].
    by destruct h.
  - by rewrite insert_id.
Qed.

(** The loop over distinct live clients with open channels: each of
    them gets its delivery, the dropped ones leave the live set, and
    nothing else changes. *)
Lemma dispatch_loop (documentID data : string) (l : list nat) :
  NoDup l ->
  forall (h : Hub) (store : gmap nat Client),
    (forall c, c ∈ l -> exists client,
          store !! c = Some client /\ closed (send client) = false) ->
    exists h' store',
      rangeM (dispatchTo documentID data) (h, store) l = Some (h', store') /\
      (forall c, c ∉ l ->
                 store' !! c = store !! c /\ clients h' !! c = clients h !! c) /\
      (forall c client, c ∈ l -> store !! c = Some client ->
                        store' !! c = Some (delivered documentID data client) /\
                        clients h' !! c
                        = if dropped documentID client then None
                          else clients h !! c).
Proof.
  induction 1 as [|c l Hnotin Hnodup IH]; intros h store Hopen.
  - exists h, store. split; [done |]. split; [done |].
    intros c client Hc. by apply elem_of_nil in Hc.
  - destruct (Hopen c) as (client & Hc & Hcl); [left |].
    pose proof (dispatchTo_open documentID data h store c client Hc Hcl) as Hstep.
    set (h1 := if dropped documentID client
               then mkHub (delete c (clients h)) else h) in Hstep.
    set (store1 := <[c := delivered documentID data client]> store) in Hstep.
    destruct (IH h1 store1) as (h' & store' & Hrun & Hout & Hin).
    { intros c' Hc'. unfold store1.
      rewrite lookup_insert_ne by (by intros ->).
      apply Hopen. by right. }
    exists h', store'. cbn [rangeM]. rewrite Hstep. cbn [mbind option_bind].
    split; [done |]. split.
    + intros c' Hc'. apply not_elem_of_cons in Hc' as [Hne Hc'].
      destruct (Hout c' Hc') as [-> ->]. unfold store1, h1.
      rewrite lookup_insert_ne by done. split; [done |].
      destruct (dropped documentID client); [|done]. simpl.
      by rewrite lookup_delete_ne.
    + intros c' client' Hc' Hclient'.
      apply elem_of_cons in Hc' as [-> | Hc'].
      * destruct (Hout c Hnotin) as [-> ->]. unfold store1, h1.
        rewrite lookup_insert_eq. simplify_eq. split; [done |].
        destruct (dropped documentID client); [|done]. simpl.
        by rewrite lookup_delete_eq.
      * assert (c <> c') by (by intros ->).
        destruct (Hin c' client' Hc') as [-> ->].
        { unfold store1. by rewrite lookup_insert_ne. }
        split; [done |]. unfold h1.
        destruct (dropped documentID client'); [done |].
        destruct (dropped documentID client); [|done]. simpl.
        by rewrite lookup_delete_ne.
Qed.

(** C4, as the code has it.  When a dispatch to a document meets a
    live subscriber whose buffer is full, the dispatch still returns:
    that client's channel is closed and the client leaves the live
    set, its own set of subscriptions staying as it was; every other
    live subscriber whose buffer has room has the message queued by the
    same dispatch and stays live. *)
Theorem broadcastToDocument_drops_slow_consumer
    (h : Hub) (store : gmap nat Client) (documentID : string)
    (response : WebSocketResponse) (data : string)
    (slow : nat) (client : Client) :
  json_Marshal response = Ok data ->
  openClients h store = true ->
  is_Some (clients h !! slow) ->
  store !! slow = Some client ->
  subscribed client documentID = true ->
  hasRoom client = false ->
  exists h' store',
    broadcastToDocument WebSocketResponse json_Marshal h store documentID response
      = Some (h', store') /\
    clients h' !! slow = None /\
    store' !! slow
      = Some (mkClient (mkChannel (queue (send client)) (capacity (send client)) true)
                       (subscribedDocuments client)) /\
    forall c other,
      is_Some (clients h !! c) -> store !! c = Some other ->
      subscribed other documentID = true -> hasRoom other = true ->
      clients h' !! c = clients h !! c /\
      store' !! c
        = Some (mkClient (mkChannel (queue (send other) ++ [data])
                                    (capacity (send other)) false)
                         (subscribedDocuments other)).
Proof.
  intros Hjson Hopen Hlive Hslow Hsub Hfull.
  unfold broadcastToDocument. rewrite Hjson.
  unfold openClients in Hopen. rewrite forallb_forall in Hopen.
  assert (Hkeys : forall c, c ∈ (map_to_list (clients h)).*1 <-> is_Some (clients h !! c)).
  { intros c. rewrite list_elem_of_fmap. split.
    - intros ([c' b] & -> & Hin). apply elem_of_map_to_list in Hin. eauto.
    - intros [b Hb]. exists (c, b). split; [done |]. by apply elem_of_map_to_list. }
  destruct (dispatch_loop documentID data (map_to_list (clients h)).*1
              (NoDup_fst_map_to_list _) h store)
    as (h' & store' & Hrun & _ & Hin).
  { intros c Hc. apply Hkeys in Hc as [b Hb].
    specialize (Hopen (c, b)). simpl in Hopen.
    destruct (store !! c) as [cl|]; [|discriminate Hopen;
      by apply list_elem_of_In, elem_of_map_to_list].
    exists cl. split; [done |]. apply negb_true_iff, Hopen.
    by apply list_elem_of_In, elem_of_map_to_list. }
  exists h', store'. split; [done |].
  destruct (Hin slow client) as [Hs Hl]; [by apply Hkeys | done |].
  unfold dropped, delivered in Hs, Hl. rewrite Hsub, Hfull in Hs, Hl.
  split; [done |]. split; [done |].
  intros c other Hc Hother Hsub' Hroom.
  destruct (Hin c other) as [Hs' Hl']; [by apply Hkeys | done |].
  unfold dropped, delivered in Hs', Hl'. rewrite Hsub', Hroom in Hs', Hl'.
  done.
Qed.

(** The unregister case of [Hub.Run] does not touch the client's set
    of subscriptions either. *)
Lemma unregister_keeps_subscriptions (h : Hub) (store : gmap nat Client)
    (c : nat) (client : Client) (h' : Hub) (store' : gmap nat Client) :
  store !! c = Some client ->
  unregister h store c = Some (h', store') ->
  subscribedDocuments <$> store' !! c = Some (subscribedDocuments client).
Proof.
  intros Hc. unfold unregister. destruct (clients h !! c).
  - rewrite Hc. cbn [mbind option_bind]. unfold close.
    destruct (closed (send client)); [done |]. cbn [mbind option_bind].
    intros [= <- <-]. by rewrite lookup_insert_eq.
  - intros [= <- <-]. by rewrite Hc.
Qed.

End Hub.

Lemma broadcastToDocument_drops_slow_consumer_witness :
  exists h' store',
    broadcastToDocument string marshalText twoLive twoClients "doc" "m1"
      = Some (h', store') /\
    clients h' !! 1 = None /\
    store' !! 1
      = Some (mkClient (mkChannel ["m0"] 1 true) {[ "doc" := true ]}) /\
    forall c other,
      is_Some (clients twoLive !! c) -> twoClients !! c = Some other ->
      subscribed other "doc" = true -> hasRoom other = true ->
      clients h' !! c = clients twoLive !! c /\
      store' !! c
        = Some (mkClient (mkChannel (queue (send other) ++ ["m1"])
                                    (capacity (send other)) false)
                         (subscribedDocuments other)).
Proof.
  apply (broadcastToDocument_drops_slow_consumer string marshalText twoLive
           twoClients "doc" "m1" "m1" 1 slowClient);
    try reflexivity. by exists true.
Defined.

(** C4 as stated fails: the dropped connection's subscriptions are not
    cleared.  After the dispatch the slow consumer is closed and out of
    the live set, and its set of subscriptions still holds the
    document. *)
Lemma dropped_client_keeps_subscriptions :
  exists h' store' client',
    broadcastToDocument string marshalText twoLive twoClients "doc" "m1"
      = Some (h', store') /\
    clients h' !! 1 = None /\
    store' !! 1 = Some client' /\
    closed (send client') = true /\
    subscribedDocuments client' !! "doc" = Some true /\
    subscribedDocuments client' <> ∅.
Proof.
  eexists _, _, _. split; [vm_compute; reflexivity |].
  split; [reflexivity |]. split; [reflexivity |]. split; [reflexivity |].
  split; [reflexivity |]. intros H.
  apply (f_equal (fun m : gmap string bool => m !! "doc")) in H. discriminate H.
Qed.

End hub_facts.

(** ** The line differ and longest common subsequences *)

Module line_lcs.
Import diff script lcs line_diff.

Lemma lcs_nil_r (xs : list string) : lcs xs [] = 0.
Proof. by destruct xs. Qed.

Lemma lcs_cons (x y : string) (xs ys : list string) :
  lcs (x :: xs) (y :: ys)
  = if String.eqb x y then S (lcs xs ys)
    else Nat.max (lcs xs (y :: ys)) (lcs (x :: xs) ys).
Proof. reflexivity. Qed.

(** No common subsequence is longer than [lcs] says. *)
Lemma lcs_upper (xs ys s : list string) :
  s `sublist_of` xs -> s `sublist_of` ys -> length s <= lcs xs ys.
Proof.
  revert ys s. induction xs as [|x xs IHx]; intros ys s Hx Hy.
  - apply sublist_nil_r in Hx as ->. simpl. lia.
  - revert s Hx Hy. induction ys as [|y ys IHy]; intros s Hx Hy.
    + apply sublist_nil_r in Hy as ->. simpl. lia.
    + rewrite lcs_cons.
      apply sublist_cons_r in Hx as [Hx | (sx & -> & Hx)];
        apply sublist_cons_r in Hy as [Hy | (sy & Heq & Hy)].
      * pose proof (IHx ys s Hx Hy). pose proof (IHy s (sublist_cons _ _ _ Hx) Hy).
        destruct (String.eqb x y); lia.
      * subst s. pose proof (IHx (y :: ys) (y :: sy) Hx (sublist_skip _ _ _ Hy)).
        destruct (String.eqb x y) eqn:Hxy; [|lia].
        assert (sy `sublist_of` xs) by (etrans; [apply sublist_cons, reflexivity | done]).
        pose proof (IHx ys sy H0 Hy). simpl. lia.
      * pose proof (IHy (x :: sx) (sublist_skip _ _ _ Hx) Hy).
        destruct (String.eqb x y) eqn:Hxy; [|lia].
        assert (sx `sublist_of` ys) by (etrans; [apply sublist_cons, reflexivity | done]).
        pose proof (IHx ys sx Hx H0). simpl. lia.
      * injection Heq as -> ->. rewrite String.eqb_refl.
        pose proof (IHx ys sy Hx Hy). simpl. lia.
Qed.

(** A common subsequence of that length exists. *)
Lemma lcs_reached (xs ys : list string) :
  exists s, s `sublist_of` xs /\ s `sublist_of` ys /\ length s = lcs xs ys.
Proof.
  revert ys. induction xs as [|x xs IHx]; intros ys.
  - exists []. repeat split; apply sublist_nil_l.
  - induction ys as [|y ys IHy].
    + exists []. repeat split; apply sublist_nil_l.
    + rewrite lcs_cons. destruct (String.eqb x y) eqn:Hxy.
      * apply String.eqb_eq in Hxy as ->.
        destruct (IHx ys) as (s & H1 & H2 & H3).
        exists (y :: s). repeat split; [by apply sublist_skip .. | by rewrite <- H3].
      * destruct (Nat.max_spec (lcs xs (y :: ys)) (lcs (x :: xs) ys)) as [[_ ->] | [_ ->]].
        -- destruct IHy as (s & H1 & H2 & H3).
           exists s. repeat split; [done | by apply sublist_cons | done].
        -- destruct (IHx (y :: ys)) as (s & H1 & H2 & H3).
           exists s. repeat split; [by apply sublist_cons | done | done].
Qed.

Lemma sublist_reverse {A : Type} (l1 l2 : list A) :
  l1 `sublist_of` l2 -> reverse l1 `sublist_of` reverse l2.
Proof.
  induction 1 as [|x l1 l2 _ IH | x l1 l2 _ IH].
  - done.
  - rewrite !reverse_cons. by apply sublist_app.
  - rewrite reverse_cons. by apply sublist_inserts_r.
Qed.

Section table.
Variables oldLines newLines : list string.

Lemma prefixLcs_0_l (j : nat) : prefixLcs oldLines newLines 0 j = 0.
Proof. done. Qed.

Lemma prefixLcs_0_r (i : nat) : prefixLcs oldLines newLines i 0 = 0.
Proof. unfold prefixLcs. simpl. apply lcs_nil_r. Qed.

Lemma reverse_take_S (lines : list string) (k : nat) :
  k < length lines ->
  reverse (take (S k) lines) = lineAt lines k :: reverse (take k lines).
Proof.
  intros Hk. destruct (lookup_lt_is_Some_2 lines k Hk) as [x Hx].
  rewrite (take_S_r _ _ _ Hx), reverse_snoc. f_equal.
  unfold lineAt. by rewrite nth_lookup, Hx.
Qed.

(** The recurrence the filling loops follow. *)
Lemma prefixLcs_S (i j : nat) :
  i < length oldLines -> j < length newLines ->
  prefixLcs oldLines newLines (S i) (S j)
  = if String.eqb (lineAt oldLines i) (lineAt newLines j)
    then prefixLcs oldLines newLines i j + 1
    else max (prefixLcs oldLines newLines i (S j))
             (prefixLcs oldLines newLines (S i) j).
Proof.
  intros Hi Hj. unfold prefixLcs.
  rewrite !reverse_take_S by done. rewrite lcs_cons.
  destruct (String.eqb _ _); [lia |].
  unfold max. destruct (_ <? _) eqn:Hlt.
  - apply Nat.ltb_lt in Hlt. lia.
  - apply Nat.ltb_ge in Hlt. lia.
Qed.

End table.

Lemma nth_insert {A : Type} (l : list A) (i k : nat) (x d : A) :
  nth k (<[i := x]> l) d = if decide (i = k /\ i < length l) then x else nth k l d.
Proof.
  rewrite !nth_lookup, list_lookup_insert.
  by destruct (decide (i = k /\ i < length l)).
Qed.

Lemma dpAt_dpSet (rows cols : nat) (dp : list (list nat)) (i j v i' j' : nat) :
  shaped rows cols dp -> i < rows -> j < cols ->
  dpAt (dpSet dp i j v) i' j'
  = if decide (i = i' /\ j = j') then v else dpAt dp i' j'.
Proof.
  intros [Hrows Hcols] Hi Hj. unfold dpAt, dpSet. rewrite nth_insert.
  assert (Hrow : length (nth i dp []) = cols).
  { rewrite Forall_forall in Hcols. apply Hcols, list_elem_of_In, nth_In. lia. }
  destruct (decide (i = i' /\ i < length dp)) as [[<- _] | Hne].
  - rewrite nth_insert, Hrow.
    destruct (decide (j = j' /\ j < cols)) as [[<- _] | Hne'].
    + by rewrite decide_True.
    + rewrite decide_False; [done |]. intros [_ <-]. apply Hne'. done.
  - rewrite decide_False; [done |]. intros [<- _]. apply Hne. lia.
Qed.

Lemma dpAt_makeTable (oldLines newLines : list string) (i j : nat) :
  dpAt (makeTable oldLines newLines) i j = 0.
Proof.
  unfold dpAt, makeTable. rewrite !nth_lookup.
  destruct (replicate _ _ !! i) as [row|] eqn:Hrow; simpl.
  - apply lookup_replicate in Hrow as [-> _].
    destruct (replicate _ _ !! j) as [v|] eqn:Hv; simpl; [|done].
    by apply lookup_replicate in Hv as [-> _].
  - by destruct j.
Qed.

(** A loop over [seq s k], with what it keeps true from one index to
    the next. *)
Lemma foldl_seq_inv {A : Type} (P : nat -> A -> Prop) (f : A -> nat -> A)
    (k : nat) :
  forall (s : nat) (a : A),
    P s a ->
    (forall x b, s <= x < s + k -> P x b -> P (S x) (f b x)) ->
    P (s + k) (foldl f a (seq s k)).
Proof.
  induction k as [|k IH]; intros s a Ha Hstep.
  - by rewrite Nat.add_0_r.
  - cbn [seq foldl]. replace (s + S k) with (S s + k) by lia.
    apply IH.
    + apply Hstep; [lia | done].
    + intros x b Hx. apply Hstep. lia.
Qed.

Section table.
Variables oldLines newLines : list string.

Lemma fillCell_filledTo (dp : list (list nat)) (r c : nat) :
  1 <= r <= length oldLines -> 1 <= c <= length newLines ->
  filledTo oldLines newLines r (c - 1) dp ->
  filledTo oldLines newLines r c (fillCell oldLines newLines dp r c).
Proof.
  intros Hr Hc [Hshape Hcells].
  assert (Hnew : fillCell oldLines newLines dp r c
                 = dpSet dp r c (prefixLcs oldLines newLines r c)).
  { destruct r as [|r']; [lia |]. destruct c as [|c']; [lia |].
    unfold fillCell.
    replace (S r' - 1) with r' in * by lia.
    replace (S c' - 1) with c' in * by lia.
    rewrite (Hcells r' c'), (Hcells r' (S c')), (Hcells (S r') c') by lia.
    rewrite prefixLcs_S by lia.
    by destruct (String.eqb _ _). }
  rewrite Hnew. split; [by apply dpSet_shaped |].
  intros i j Hi Hj Hdone.
  rewrite (dpAt_dpSet _ _ _ _ _ _ _ _ Hshape) by lia.
  destruct (decide (r = i /\ c = j)) as [[<- <-] | Hne]; [done |].
  apply Hcells; [done | done |]. lia.
Qed.

Lemma fillRow_filledTo (dp : list (list nat)) (r : nat) :
  1 <= r <= length oldLines ->
  filledTo oldLines newLines r 0 dp ->
  filledTo oldLines newLines (S r) 0
    (foldl (fun dp' j => fillCell oldLines newLines dp' r j) dp
           (seq 1 (length newLines))).
Proof.
  intros Hr Hdp.
  pose proof (foldl_seq_inv
    (fun c dp' => filledTo oldLines newLines r (c - 1) dp')
    (fun dp' j => fillCell oldLines newLines dp' r j)
    (length newLines) 1 dp) as Hloop.
  cbv beta in Hloop. destruct Hloop as [Hshape Hcells].
  - done.
  - intros c dp' Hc Hdp'. replace (S c - 1) with c by lia.
    apply fillCell_filledTo; [done | lia | done].
  - split; [done |]. intros i j Hi Hj Hdone.
    apply Hcells; [done | done |]. lia.
Qed.

(** The table the filling loops leave: the cell [i][j] holds the
    length of a longest common subsequence of the first [i] old lines
    and the first [j] new lines. *)
Lemma fillTable_prefixLcs (i j : nat) :
  i <= length oldLines -> j <= length newLines ->
  dpAt (fillTable oldLines newLines) i j = prefixLcs oldLines newLines i j.
Proof.
  intros Hi Hj.
  pose proof (foldl_seq_inv
    (fun r dp => filledTo oldLines newLines r 0 dp)
    (fun dp r => foldl (fun dp' j => fillCell oldLines newLines dp' r j) dp
                       (seq 1 (length newLines)))
    (length oldLines) 1 (makeTable oldLines newLines)) as Hloop.
  cbv beta in Hloop. destruct Hloop as [_ Hcells].
  - split.
    + unfold makeTable. split; [by rewrite length_replicate |].
      apply Forall_replicate. by rewrite length_replicate.
    + intros i' j' _ _ Hdone. rewrite dpAt_makeTable.
      destruct (decide (i' = 0)) as [-> | Hi'].
      * by rewrite prefixLcs_0_l.
      * replace j' with 0 by lia. by rewrite prefixLcs_0_r.
  - intros r dp Hr Hdp. by apply fillRow_filledTo; [lia |].
  - apply Hcells; [done | done |]. lia.
Qed.

End table.

Lemma lcs_reverse (xs ys : list string) :
  lcs (reverse xs) (reverse ys) = lcs xs ys.
Proof.
  apply Nat.le_antisymm.
  - destruct (lcs_reached (reverse xs) (reverse ys)) as (s & Hx & Hy & <-).
    rewrite <- (length_reverse s). apply lcs_upper.
    + apply sublist_reverse in Hx. by rewrite reverse_involutive in Hx.
    + apply sublist_reverse in Hy. by rewrite reverse_involutive in Hy.
  - destruct (lcs_reached xs ys) as (s & Hx & Hy & <-).
    rewrite <- (length_reverse s). apply lcs_upper; by apply sublist_reverse.
Qed.

Lemma prefixLcs_all (oldLines newLines : list string) :
  prefixLcs oldLines newLines (length oldLines) (length newLines)
  = lcs oldLines newLines.
Proof. unfold prefixLcs. by rewrite !firstn_all, lcs_reverse. Qed.

Lemma max_le (a b : nat) : a <= b -> max a b = b.
Proof. intros H. unfold max. destruct (b <? a) eqn:E; [apply Nat.ltb_lt in E; lia | done]. Qed.

Lemma max_gt (a b : nat) : b < a -> max a b = a.
Proof. intros H. unfold max. by rewrite (proj2 (Nat.ltb_lt _ _) H). Qed.

Section backtracking.
Variables oldLines newLines : list string.

Lemma backtrackStep_tracks (st st' : backtrack) :
  backtrackStep oldLines newLines (fillTable oldLines newLines) st = Some st' ->
  tracks oldLines newLines st -> tracks oldLines newLines st'.
Proof.
  destruct st as [i j cs]. unfold tracks, backtrackStep.
  cbn [bt_i bt_j bt_changes]. intros H (Hi & Hj & Hlcs & Hcount).
  destruct i as [|i], j as [|j]; cbn [Nat.ltb Nat.leb orb andb Nat.eqb] in H.
  - done.
  - injection H as <-. cbn [bt_i bt_j bt_changes].
    rewrite prefixLcs_0_l in *. replace (S j - 1) with j by lia.
    change (common (?c :: cs)) with (common cs).
    change (edits (?c :: cs)) with (c :: edits cs).
    cbn [length]. lia.
  - injection H as <-. cbn [bt_i bt_j bt_changes].
    rewrite prefixLcs_0_r in *. replace (S i - 1) with i by lia.
    change (common (?c :: cs)) with (common cs).
    change (edits (?c :: cs)) with (c :: edits cs).
    cbn [length]. lia.
  - replace (S i - 1) with i in H by lia. replace (S j - 1) with j in H by lia.
    rewrite prefixLcs_S in Hlcs by lia.
    rewrite !fillTable_prefixLcs in H by lia.
    destruct (String.eqb _ _).
    + injection H as <-. cbn [bt_i bt_j bt_changes].
      change (common (?c :: cs)) with (LineContent c :: common cs).
      change (edits (?c :: cs)) with (edits cs).
      cbn [length]. lia.
    + destruct (_ <=? _) eqn:Hle; injection H as <-; cbn [bt_i bt_j bt_changes].
      * apply Nat.leb_le in Hle. rewrite max_le in Hlcs by done.
        change (common (?c :: cs)) with (common cs).
        change (edits (?c :: cs)) with (c :: edits cs).
        cbn [length]. lia.
      * apply Nat.leb_gt in Hle. rewrite max_gt in Hlcs by done.
        change (common (?c :: cs)) with (common cs).
        change (edits (?c :: cs)) with (c :: edits cs).
        cbn [length]. lia.
Qed.

Lemma tracks_start :
  tracks oldLines newLines (mkBacktrack (length oldLines) (length newLines) []).
Proof. unfold tracks. simpl. lia. Qed.

Lemma computeLCS_tracks :
  exists changes,
    computeLCS oldLines newLines = Some changes /\
    accounts oldLines newLines (mkBacktrack 0 0 changes) /\
    tracks oldLines newLines (mkBacktrack 0 0 changes).
Proof.
  unfold computeLCS.
  destruct (backtrackLoop_returns oldLines newLines (fillTable oldLines newLines)
              (fun st => accounts oldLines newLines st /\ tracks oldLines newLines st)
              (length oldLines + length newLines)
              (mkBacktrack (length oldLines) (length newLines) []))
    as (changes & Hrun & Hacc & Htr).
  - intros s s' Hs [Ha Ht]. split.
    + by eapply backtrackStep_accounts.
    + by eapply backtrackStep_tracks.
  - split; [apply accounts_start | apply tracks_start].
  - done.
  - by exists changes.
Qed.

End backtracking.

Lemma common_sublist (side : LineChange -> bool) (changes : list LineChange) :
  (forall c, hasType "unchanged" c = true -> side c = true) ->
  sublist (common changes) (map LineContent (List.filter side changes)).
Proof.
  intros Hside. unfold common. induction changes as [|c cs IH]; [done |].
  cbn [List.filter]. destruct (hasType "unchanged" c) eqn:Hc.
  - rewrite (Hside c Hc). cbn [map]. by constructor.
  - destruct (side c); cbn [map]; [by constructor | done].
Qed.

Lemma lcs_longestCommon (xs ys : list string) :
  exists s, longestCommon s xs ys /\ length s = lcs xs ys.
Proof.
  destruct (lcs_reached xs ys) as (s & Hx & Hy & Hlen).
  exists s. split; [| done]. repeat split; [done | done |].
  intros t Htx Hty. rewrite Hlen. by apply lcs_upper.
Qed.

(** X1. When the table has been filled, the cell dp[i][j] holds the
    length of a longest common subsequence of the first [i] old lines
    and the first [j] new lines. *)
Theorem fillTable_cell_is_lcs_length (oldLines newLines : list string) (i j : nat) :
  i <= length oldLines -> j <= length newLines ->
  exists s,
    longestCommon s (take i oldLines) (take j newLines) /\
    length s = dpAt (fillTable oldLines newLines) i j.
Proof.
  intros Hi Hj. rewrite fillTable_prefixLcs by done.
  unfold prefixLcs. rewrite lcs_reverse. apply lcs_longestCommon.
Qed.

Lemma fillTable_cell_is_lcs_length_witness :
  let oldLines := ["a"; "b"; "c"; "d"] in
  let newLines := ["b"; "x"; "d"; "a"] in
  exists s,
    longestCommon s (take 4 oldLines) (take 3 newLines) /\
    length s = dpAt (fillTable oldLines newLines) 4 3.
Proof.
  apply (fillTable_cell_is_lcs_length ["a"; "b"; "c"; "d"] ["b"; "x"; "d"; "a"] 4 3);
    simpl; lia.
Defined.

(** X2. computeLCS returns, and the contents of the unchanged entries
    of its script, in the script's order, are a longest common
    subsequence of the old lines and the new lines. *)
Theorem computeLCS_unchanged_is_longest (oldLines newLines : list string) :
  exists changes,
    computeLCS oldLines newLines = Some changes /\
    longestCommon (common changes) oldLines newLines.
Proof.
  destruct (computeLCS_tracks oldLines newLines)
    as (changes & Hrun & [_ _ _ Hnc _ Hoc _] & (_ & _ & Hlcs & _)).
  cbn [bt_i bt_j bt_changes] in *. rewrite drop_0 in Hnc, Hoc.
  rewrite prefixLcs_0_l, Nat.add_0_r, prefixLcs_all in Hlcs.
  exists changes. split; [done |]. repeat split.
  - rewrite <- Hoc. apply common_sublist. intros c Hc. unfold onOldSide.
    rewrite Hc. apply orb_true_r.
  - rewrite <- Hnc. apply common_sublist. intros c Hc. unfold onNewSide.
    rewrite Hc. apply orb_true_r.
  - intros t Hto Htn. rewrite Hlcs. by apply lcs_upper.
Qed.

Lemma filter_split (t : string) (side : LineChange -> bool)
    (changes : list LineChange) :
  (forall c, side c = hasType t c || hasType "unchanged" c) ->
  (forall c, hasType t c = true -> hasType "unchanged" c = false) ->
  length (List.filter side changes)
  = length (List.filter (hasType t) changes) + length (common changes).
Proof.
  intros Hside Hdisj. unfold common. rewrite length_map.
  induction changes as [|c cs IH]; [done |].
  cbn [List.filter]. rewrite Hside.
  destruct (hasType t c) eqn:Ht.
  - rewrite (Hdisj c Ht). cbn [orb length]. lia.
  - destruct (hasType "unchanged" c); cbn [orb length]; lia.
Qed.

(** X3. In the script of computeLCS every new line is either an added
    entry or an unchanged entry, and every old line is either a
    removed entry or an unchanged entry: the added entries number
    newLen minus the unchanged ones, the removed entries oldLen minus
    the unchanged ones. *)
Theorem computeLCS_edit_counts (oldLines newLines : list string) :
  exists changes,
    computeLCS oldLines newLines = Some changes /\
    length (List.filter (hasType "added") changes) + length (common changes)
    = length newLines /\
    length (List.filter (hasType "removed") changes) + length (common changes)
    = length oldLines.
Proof.
  destruct (computeLCS_accounts oldLines newLines)
    as (changes & Hrun & [_ _ _ Hnc _ Hoc _]).
  cbn [bt_i bt_j bt_changes] in *. rewrite drop_0 in Hnc, Hoc.
  exists changes. split; [done |]. split.
  - rewrite <- (filter_split "added" onNewSide); [by rewrite <- Hnc, length_map | done |].
    intros c Hc. apply hasType_eq in Hc. unfold hasType. by rewrite Hc.
  - rewrite <- (filter_split "removed" onOldSide); [by rewrite <- Hoc, length_map | done |].
    intros c Hc. apply hasType_eq in Hc. unfold hasType. by rewrite Hc.
Qed.

(** X4. Comparing a sequence of lines with itself gives one unchanged
    entry per line, numbered from 1, and nothing else. *)
Theorem computeLCS_same_lines (lines : list string) :
  computeLCS lines lines = Some (uniform "unchanged" lines).
Proof.
  destruct (computeLCS_tracks lines lines)
    as (changes & -> & [_ _ _ Hnc Hnn _ _] & (_ & _ & Hlcs & Hcount)).
  cbn [bt_i bt_j bt_changes] in *. rewrite drop_0 in Hnc.
  rewrite prefixLcs_0_l, Nat.add_0_r, prefixLcs_all in Hlcs.
  assert (Hfull : length lines <= lcs lines lines) by by apply lcs_upper.
  assert (Hedits : edits changes = []).
  { apply length_zero_iff_nil. lia. }
  apply filter_nil_Forall in Hedits.
  assert (Hall : Forall (fun c => hasType "unchanged" c = true) changes).
  { eapply Forall_impl; [exact Hedits |]. intros c Hc. cbv beta in Hc.
    by apply negb_false_iff in Hc. }
  assert (List.filter onNewSide changes = changes) as Hnew.
  { apply filter_all. eapply Forall_impl; [exact Hall |].
    intros c Hc. unfold onNewSide. cbv beta in Hc. rewrite Hc. apply orb_true_r. }
  rewrite Hnew in Hnc, Hnn. rewrite Nat.sub_0_r in Hnn.
  f_equal. by apply (uniform_intro "unchanged" changes lines 0).
Qed.

End line_lcs.

(** ** The blocks of a parse and the line blocks *)

Module parser_blocks.
Import builtin models parser classifier store tree strings strings_facts.

Lemma Node_nested_ind (P : Node -> Prop) :
  (forall kind segment children,
      Forall P children -> P (mkNode kind segment children)) ->
  forall n, P n.
Proof.
  intros H. fix IH 1. intros [kind segment children]. apply H.
  induction children as [|c cs IHcs]; constructor; [apply IH | apply IHcs].
Qed.

Lemma foldl_store_lookup (l : list Block) :
  forall (m : gmap string Block) (id : string),
    foldl store_block m l !! id
    = match last (List.filter (fun b => String.eqb (ID b) id) l) with
      | Some b => Some b
      | None => m !! id
      end.
Proof.
  induction l as [|b l IH]; intros m id; [done |].
  cbn [foldl List.filter]. rewrite IH. unfold store_block.
  destruct (String.eqb (ID b) id) eqn:Hid.
  - apply String.eqb_eq in Hid. rewrite last_cons.
    destruct (last _); [done |]. by rewrite <- Hid, lookup_insert_eq.
  - apply String.eqb_neq in Hid. destruct (last _); [done |].
    by rewrite lookup_insert_ne.
Qed.

Section MarkdownParser.
Variable md5_Sum : string -> string.
Variable goldmark_Render : string -> Node -> result string.

Lemma walk_preorder (source : string) (n : Node) :
  forall m,
    walk md5_Sum goldmark_Render source n m
    = foldl store_block m
        (omap (fun n' => nodeToBlock md5_Sum goldmark_Render n' source) (preorder n)).
Proof.
  induction n as [kind segment children IH] using Node_nested_ind. intros m.
  cbn [walk preorder omap NodeChildren].
  set (m' := match nodeToBlock _ _ (mkNode kind segment children) source with
             | Some block => <[ID block := block]> m
             | None => m
             end).
  assert (Hchildren : forall m0,
             foldl (fun acc child => walk md5_Sum goldmark_Render source child acc)
                   m0 children
             = foldl store_block m0
                 (omap (fun n' => nodeToBlock md5_Sum goldmark_Render n' source)
                       (concat (map preorder children)))).
  { induction IH as [|c cs Hc _ IHcs]; intros m0; [done |].
    cbn [foldl map concat]. rewrite omap_app, foldl_app, <- Hc. apply IHcs. }
  rewrite Hchildren. subst m'.
  change (list_omap Node Block ?f (?x :: ?l))
    with (match f x with Some y => y :: omap f l | None => omap f l end).
  cbv beta.
  by destruct (nodeToBlock _ _ (mkNode kind segment children) source).
Qed.

(** X8. The block stored under an id is the block of the last node,
    in document order, whose block has this id: a later node
    overwrites an earlier one with the same id, and there is no entry
    for an id no node has. *)
Theorem extractBlocks_lookup (doc : Node) (source id : string) :
  extractBlocks md5_Sum goldmark_Render doc source !! id
  = last (List.filter (fun b => String.eqb (ID b) id)
            (omap (fun n => nodeToBlock md5_Sum goldmark_Render n source)
                  (preorder doc))).
Proof.
  unfold extractBlocks. rewrite walk_preorder, foldl_store_lookup.
  rewrite lookup_empty. by destruct (last _).
Qed.

Lemma nodeToBlock_shape (node : Node) (source : string) (b : Block) :
  nodeToBlock md5_Sum goldmark_Render node source = Some b ->
  ID b = generateBlockID md5_Sum node source /\
  Children b = [] /\
  Line (Position_ b) = 0%Z /\
  oneOf blockTypes (Type_ b) = true /\
  (oneOf headingTypes (Type_ b) = true <-> (1 <= Level b <= 6)%Z).
Proof.
  unfold nodeToBlock.
  destruct (Segment node) as [[start stop]|];
    destruct (Kind node) as [| |n| |[|]| | | | | |]; intros [= <-];
    cbn [ID Children Position_ Line Type_ Level].
  all: split; [reflexivity |]; split; [reflexivity |]; split; [reflexivity |].
  all: repeat match goal with
         | |- context [(?n0 =? ?k)%Z] =>
             is_var n0; destruct (Z.eqb_spec n0 k); [subst n0 |]; cbv iota
         end.
  all: split; [reflexivity |].
  all: split;
    [ first [ intros _; lia | intros H; vm_compute in H; discriminate H ]
    | first [ intros _; reflexivity | intros H; exfalso; lia ] ].
Qed.

Lemma extractBlocks_from_node (doc : Node) (source id : string) (b : Block) :
  extractBlocks md5_Sum goldmark_Render doc source !! id = Some b ->
  ID b = id /\
  exists node, node ∈ preorder doc /\
               nodeToBlock md5_Sum goldmark_Render node source = Some b.
Proof.
  unfold extractBlocks. rewrite walk_preorder, foldl_store_lookup, lookup_empty.
  intros Hlast.
  assert (Hlast' : last (List.filter (fun b' => String.eqb (ID b') id)
                          (omap (fun n => nodeToBlock md5_Sum goldmark_Render n source)
                                (preorder doc))) = Some b)
    by (by destruct (last _)).
  clear Hlast. rename Hlast' into Hlast.
  apply last_Some_elem_of, list_elem_of_In, filter_In in Hlast as [Hin Hid].
  apply String.eqb_eq in Hid. split; [done |].
  apply list_elem_of_In, list_elem_of_omap in Hin as (node & Hnode & Hb).
  by exists node.
Qed.

(** X9. Every block of the map extractBlocks returns is stored under
    its own ID, has no children and line number 0, has one of the
    sixteen block types, and has a type h1..h6 exactly when its level
    is between 1 and 6. *)
Theorem extractBlocks_block_shape (doc : Node) (source id : string) (b : Block) :
  extractBlocks md5_Sum goldmark_Render doc source !! id = Some b ->
  ID b = id /\
  Children b = [] /\
  Line (Position_ b) = 0%Z /\
  oneOf blockTypes (Type_ b) = true /\
  (oneOf headingTypes (Type_ b) = true <-> (1 <= Level b <= 6)%Z).
Proof.
  intros Hb. apply extractBlocks_from_node in Hb as (Hid & node & _ & Hnode).
  apply nodeToBlock_shape in Hnode as (_ & Hrest). by split.
Qed.

(** X10. The nodes without a segment all get the ID of the empty
    content at position 0-0: when no node of the tree has a segment,
    at most one block is left in the map. *)
Theorem extractBlocks_without_segments
    (doc : Node) (source id1 id2 : string) (b1 b2 : Block) :
  noSegment doc = true ->
  extractBlocks md5_Sum goldmark_Render doc source !! id1 = Some b1 ->
  extractBlocks md5_Sum goldmark_Render doc source !! id2 = Some b2 ->
  id1 = id2 /\ b1 = b2.
Proof.
  intros Hno H1 H2.
  assert (Hkey : forall id b,
             extractBlocks md5_Sum goldmark_Render doc source !! id = Some b ->
             id = strings.takeBytes 8 (fmt.hex (md5_Sum "-0-0"))).
  { intros id b Hb. apply extractBlocks_from_node in Hb as (<- & node & Hin & Hnode).
    unfold noSegment in Hno. rewrite forallb_forall in Hno.
    specialize (Hno node (proj1 (list_elem_of_In _ _) Hin)).
    assert (Hseg : Segment node = None).
    { unfold nodeToBlock in Hnode.
      destruct (Kind node); try discriminate Hnode; by destruct (Segment node). }
    apply nodeToBlock_shape in Hnode as (-> & _).
    unfold generateBlockID. by rewrite Hseg. }
  assert (id1 = id2) as <- by (rewrite (Hkey _ _ H1); by rewrite (Hkey _ _ H2)).
  split; [done | congruence].
Qed.

(** X12. The block ParseLine returns keeps the line as its content,
    spans the whole line at the given line number, has the line ID,
    level 0 (for a heading line too) and no children; and a detected
    category other than paragraph is its type, whatever goldmark
    found. *)
Theorem ParseLine_fields (goldmark_Parse : string -> Node)
    (line : string) (lineNumber : Z) (b : Block) :
  ParseLine md5_Sum goldmark_Parse goldmark_Render line lineNumber = Some b ->
  ID b = generateLineID md5_Sum line lineNumber /\
  Level b = 0%Z /\
  Content b = line /\
  Position_ b = mkPosition 0 (Z.of_nat (String.length line)) lineNumber /\
  Children b = [] /\
  (DetectNotionSyntax line <> "paragraph" -> Type_ b = DetectNotionSyntax line).
Proof.
  unfold ParseLine. cbv zeta.
  destruct (strings.isEmpty (strings.TrimSpace line)); [done |].
  destruct (Parse _ _ _ line) as [result|]; [| by intros [= <-]].
  destruct (0 <? size (Blocks result)); [| by intros [= <-]].
  destruct (List.find _ _) as [goldmarkBlock|]; [| by intros [= <-]].
  intros [= <-]. cbn [ID Level Content Position_ Children Type_].
  repeat (split; [reflexivity |]). intros Hty.
  destruct (String.eqb_spec (DetectNotionSyntax line) "paragraph"); done.
Qed.

End MarkdownParser.

Lemma hexDigit_isHexDigit (k : nat) : k < 16 -> isHexDigit (fmt.hexDigit k) = true.
Proof. intros H. do 16 (destruct k as [|k]; [reflexivity |]). lia. Qed.

Lemma hex_length (digest : string) :
  String.length (fmt.hex digest) = 2 * String.length digest.
Proof. induction digest as [|c d IH]; cbn [fmt.hex String.length]; lia. Qed.

Lemma hex_digits (digest : string) :
  forallb isHexDigit (list_ascii_of_string (fmt.hex digest)) = true.
Proof.
  induction digest as [|c d IH]; [done |].
  cbn [fmt.hex list_ascii_of_string forallb].
  pose proof (nat_ascii_bounded c) as Hc.
  rewrite !hexDigit_isHexDigit, IH; [done | |].
  - apply Nat.mod_upper_bound. lia.
  - apply Nat.Div0.div_lt_upper_bound. lia.
Qed.

Lemma takeBytes_length (n : nat) (s : string) :
  String.length (strings.takeBytes n s) = Nat.min n (String.length s).
Proof.
  revert s. induction n as [|n IH]; intros [|c s]; cbn [strings.takeBytes String.length];
    [done | done | done |]. by rewrite IH.
Qed.

Lemma takeBytes_forallb (f : ascii -> bool) (n : nat) (s : string) :
  forallb f (list_ascii_of_string s) = true ->
  forallb f (list_ascii_of_string (strings.takeBytes n s)) = true.
Proof.
  revert s. induction n as [|n IH]; intros [|c s];
    cbn [strings.takeBytes list_ascii_of_string forallb]; [done | done | done |].
  intros [-> Hs]%andb_true_iff. by rewrite IH.
Qed.

(** X11. With a digest of at least four bytes (MD5 gives sixteen), a
    block ID is eight lower-case hexadecimal digits. *)
Theorem generateBlockID_format (md5_Sum : string -> string)
    (node : Node) (source : string) :
  (forall s, 4 <= String.length (md5_Sum s)) ->
  String.length (generateBlockID md5_Sum node source) = 8 /\
  forallb isHexDigit (list_ascii_of_string (generateBlockID md5_Sum node source)) = true.
Proof.
  intros Hlen. unfold generateBlockID.
  destruct (match Segment node with
            | Some (start, stop) => (start, stop, sourceSlice source start stop)
            | None => (0, 0, EmptyString)
            end) as [[startPos endPos] content].
  split.
  - rewrite takeBytes_length, hex_length.
    specialize (Hlen (content +:+ "-" +:+ fmt.decimal (Z.of_nat startPos)
                              +:+ "-" +:+ fmt.decimal (Z.of_nat endPos))). lia.
  - apply takeBytes_forallb, hex_digits.
Qed.

Lemma generateBlockID_format_witness :
  String.length (generateBlockID digest16 doc "# Title") = 8 /\
  forallb isHexDigit (list_ascii_of_string (generateBlockID digest16 doc "# Title")) = true.
Proof.
  apply (generateBlockID_format digest16 doc "# Title").
  intros s. unfold digest16. rewrite takeBytes_length.
  rewrite strings_facts.length_append. cbn [String.length]. lia.
Defined.

Lemma extractBlocks_block_shape_witness :
  let b := mkBlock "2d302d30" "paragraph" 0 "" "# Title" (mkPosition 0 0 0) [] in
  ID b = "2d302d30" /\
  Children b = [] /\
  Line (Position_ b) = 0%Z /\
  oneOf blockTypes (Type_ b) = true /\
  (oneOf headingTypes (Type_ b) = true <-> (1 <= Level b <= 6)%Z).
Proof.
  apply (extractBlocks_block_shape scenario.digest render doc "# Title" "2d302d30").
  vm_compute. reflexivity.
Defined.

Lemma extractBlocks_without_segments_witness :
  let b := mkBlock "2d302d30" "paragraph" 0 "" "# Title" (mkPosition 0 0 0) [] in
  "2d302d30" = "2d302d30" /\ b = b.
Proof.
  apply (extractBlocks_without_segments scenario.digest render doc "# Title");
    [reflexivity | vm_compute; reflexivity | vm_compute; reflexivity].
Defined.

Lemma ParseLine_fields_witness :
  let b := mkBlock (generateLineID scenario.digest "# Title" 3) "h1" 0 "# Title"
                   "<h1>Title</h1>" (mkPosition 0 7 3) [] in
  ID b = generateLineID scenario.digest "# Title" 3 /\
  Level b = 0%Z /\
  Content b = "# Title" /\
  Position_ b = mkPosition 0 (Z.of_nat (String.length "# Title")) 3 /\
  Children b = [] /\
  (DetectNotionSyntax "# Title" <> "paragraph" -> Type_ b = DetectNotionSyntax "# Title").
Proof.
  apply (ParseLine_fields scenario.digest render parse "# Title" 3).
  vm_compute. reflexivity.
Defined.

Lemma append_empty_r (s : string) : s +:+ EmptyString = s.
Proof. induction s as [|c s IH]; [done |]. by rewrite append_String, IH. Qed.

Lemma append_assoc (a b c : string) : (a +:+ b) +:+ c = a +:+ (b +:+ c).
Proof. induction a as [|x a IH]; [done |]. by rewrite !append_String, IH. Qed.

Lemma rev_app_spec (s acc : string) :
  String.rev_app s acc = String.rev s +:+ acc.
Proof.
  revert acc. induction s as [|c s IH]; intros acc; [done |].
  unfold String.rev. cbn [String.rev_app]. rewrite (IH (String c acc)), (IH (String c EmptyString)).
  by rewrite append_assoc.
Qed.

Lemma rev_String (c : ascii) (s : string) :
  String.rev (String c s) = String.rev s +:+ String c EmptyString.
Proof. unfold String.rev at 1. cbn [String.rev_app]. apply rev_app_spec. Qed.

Lemma rev_append (a b : string) :
  String.rev (a +:+ b) = String.rev b +:+ String.rev a.
Proof.
  induction a as [|x a IH]; [by rewrite append_empty_r |].
  by rewrite append_String, !rev_String, IH, append_assoc.
Qed.

Lemma rev_involutive (s : string) : String.rev (String.rev s) = s.
Proof.
  induction s as [|c s IH]; [done |].
  by rewrite rev_String, rev_append, IH.
Qed.

Lemma length_rev (s : string) : String.length (String.rev s) = String.length s.
Proof.
  induction s as [|c s IH]; [done |].
  rewrite rev_String, length_append, IH. simpl. lia.
Qed.

Lemma take_drop_bytes (n : nat) (s : string) :
  takeBytes n s +:+ dropBytes n s = s.
Proof.
  revert s. induction n as [|n IH]; intros [|c s]; cbn [takeBytes dropBytes]; try done.
  by rewrite append_String, IH.
Qed.

Lemma dropBytes_dropBytes (a b : nat) (s : string) :
  dropBytes a (dropBytes b s) = dropBytes (b + a) s.
Proof.
  revert s. induction b as [|b IH]; intros s; [done |].
  destruct s as [|c s]; cbn [dropBytes Nat.add]; [by destruct a | apply IH].
Qed.

(** Whether a string starts with a space rune is decided by its first
    bytes: cutting bytes off its end does not turn a string that starts
    with none into one that starts with one. *)
Lemma spaceRuneLen_prefix (p q : string) :
  spaceRuneLen (p +:+ q) = 0 -> spaceRuneLen p = 0.
Proof.
  destruct p as [|c1 [|c2 [|c3 p]]]; [done | | |].
  - rewrite append_String. unfold spaceRuneLen.
    by destruct (asciiSpace c1).
  - rewrite !append_String. unfold spaceRuneLen.
    destruct (asciiSpace c1); [done |].
    by destruct ((nat_of_ascii c1 =? 194) && _).
  - by rewrite !append_String.
Qed.

Lemma trimLeftSpace_fixed (fuel : nat) (s : string) :
  spaceRuneLen s = 0 -> trimLeftSpace fuel s = s.
Proof. intros H. destruct fuel; [done |]. cbn [trimLeftSpace]. by rewrite H. Qed.

Lemma trimRightSpaceRev_fixed (fuel : nat) (r : string) :
  spaceRuneLenRev r = 0 -> trimRightSpaceRev fuel r = r.
Proof. intros H. destruct fuel; [done |]. cbn [trimRightSpaceRev]. by rewrite H. Qed.

Lemma trimRightSpaceRev_drops (fuel : nat) (r : string) :
  exists k, trimRightSpaceRev fuel r = dropBytes k r.
Proof.
  revert r. induction fuel as [|fuel IH]; intros r; [by exists 0 |].
  cbn [trimRightSpaceRev]. destruct (spaceRuneLenRev r) as [|k]; [by exists 0 |].
  destruct (IH (dropBytes (S k) r)) as (k' & ->).
  exists (S k + k'). apply dropBytes_dropBytes.
Qed.

(** strings.TrimSpace leaves nothing to trim. *)
Lemma TrimSpace_idempotent (s : string) :
  TrimSpace (TrimSpace s) = TrimSpace s.
Proof.
  unfold TrimSpace at 2. cbv zeta.
  set (l := trimLeftSpace (String.length s) s).
  set (r := trimRightSpaceRev (String.length l) (String.rev l)).
  assert (Hl : spaceRuneLen l = 0) by by apply trimLeftSpace_done.
  assert (Hr : spaceRuneLenRev r = 0).
  { apply trimRightSpaceRev_done. by rewrite length_rev. }
  assert (Ht : spaceRuneLen (String.rev r) = 0).
  { destruct (trimRightSpaceRev_drops (String.length l) (String.rev l)) as (k & Hk).
    fold r in Hk. apply (spaceRuneLen_prefix _ (String.rev (takeBytes k (String.rev l)))).
    by rewrite Hk, <- rev_append, take_drop_bytes, rev_involutive. }
  unfold TrimSpace. cbv zeta.
  by rewrite (trimLeftSpace_fixed _ _ Ht), rev_involutive,
             (trimRightSpaceRev_fixed _ _ Hr).
Qed.

(** X13. DetectNotionSyntax looks at the trimmed line only: the white
    space around a line does not change its category. *)
Theorem DetectNotionSyntax_ignores_outer_space (line : string) :
  DetectNotionSyntax (TrimSpace line) = DetectNotionSyntax line.
Proof. unfold DetectNotionSyntax. by rewrite TrimSpace_idempotent. Qed.

(** X14. The line ID is computed from the trimmed line and the line
    number: two lines that differ by the white space around them get
    the same ID at the same line number. *)
Theorem generateLineID_ignores_outer_space (md5_Sum : string -> string)
    (line : string) (lineNumber : Z) :
  generateLineID md5_Sum (TrimSpace line) lineNumber
  = generateLineID md5_Sum line lineNumber.
Proof. unfold generateLineID. by rewrite TrimSpace_idempotent. Qed.

Lemma pretty_N_go_length (x : N) :
  forall s, String.length s <= String.length (pretty_N_go x s).
Proof.
  induction (N.lt_wf_0 x) as [x _ IH]. intros s.
  destruct (decide (x = 0%N)) as [-> | Hx]; [by rewrite pretty_N_go_0 |].
  rewrite pretty_N_go_step by lia.
  etransitivity; [| apply IH; apply N.div_lt; lia]. simpl. lia.
Qed.

Lemma pretty_N_go_digits (k : nat) :
  forall (x : N) (s : string),
    (10 ^ N.of_nat k <= x)%N ->
    String.length s + S k <= String.length (pretty_N_go x s).
Proof.
  induction k as [|k IH]; intros x s Hx.
  - rewrite pretty_N_go_step by (simpl in Hx; lia).
    etransitivity; [| apply pretty_N_go_length]. simpl. lia.
  - assert (10 ^ N.of_nat k <= x `div` 10)%N as Hdiv.
    { apply N.div_le_lower_bound; [lia |].
      replace (N.of_nat (S k)) with (N.succ (N.of_nat k)) in Hx by lia.
      by rewrite N.pow_succ_r' in Hx. }
    rewrite pretty_N_go_step.
    + etransitivity; [| apply IH; exact Hdiv]. simpl. lia.
    + assert (0 < 10 ^ N.of_nat (S k))%N; [| lia].
      apply N.neq_0_lt_0, N.pow_nonzero. lia.
Qed.

Lemma decimal_digits (n : Z) :
  (1000000 <= n)%Z -> 7 <= String.length (fmt.decimal n).
Proof.
  intros Hn. unfold fmt.decimal, pretty, pretty_Z.
  destruct n as [|p|p]; [lia | | lia].
  unfold pretty, pretty_positive, pretty, pretty_N.
  rewrite decide_False by done.
  apply (pretty_N_go_digits 6 (N.pos p) EmptyString). simpl. lia.
Qed.

Lemma takeBytes_String (n : nat) (c : ascii) (s : string) :
  takeBytes (S n) (String c s) = String c (takeBytes n s).
Proof. reflexivity. Qed.

Lemma takeBytes_append (n : nat) (a b : string) :
  n <= String.length a -> takeBytes n (a +:+ b) = takeBytes n a.
Proof.
  revert a. induction n as [|n IH]; intros a H; [done |].
  destruct a as [|c a]; simpl in H; [lia |].
  rewrite append_String. cbn [takeBytes]. rewrite IH; [done | lia].
Qed.

(** X15. The line ID is cut to twelve bytes, after the five of the
    prefix and the digits of the line number: from line 1000000 on
    nothing of the content is left in it, and all lines get the same ID
    at the same line number. *)
Theorem generateLineID_large_line_number (md5_Sum : string -> string)
    (line1 line2 : string) (lineNumber : Z) :
  (1000000 <= lineNumber)%Z ->
  generateLineID md5_Sum line1 lineNumber = generateLineID md5_Sum line2 lineNumber.
Proof.
  intros Hn. apply decimal_digits in Hn.
  assert (Hcut : forall rest,
             takeBytes 12 ("line_" +:+ fmt.decimal lineNumber +:+ rest)
             = "line_" +:+ takeBytes 7 (fmt.decimal lineNumber)).
  { intros rest. rewrite !append_String, append_empty_l.
    rewrite !takeBytes_String. by rewrite takeBytes_append. }
  unfold generateLineID. cbv zeta. by rewrite !Hcut.
Qed.

Lemma generateLineID_large_line_number_witness :
  generateLineID scenario.digest "# Title" 1000000
  = generateLineID scenario.digest "body" 1000000.
Proof.
  apply (generateLineID_large_line_number scenario.digest "# Title" "body" 1000000).
  lia.
Defined.

Lemma SplitN2_cases (s sep : string) :
  (exists first rest, SplitN2 s sep = [first; rest]) \/ SplitN2 s sep = [s].
Proof.
  unfold SplitN2. destruct (Index s sep) as [m|]; [left | by right].
  by eexists _, _.
Qed.

(** X28. A line DetectNotionSyntax takes for an ordered list item is
    rendered as one: the text after the first [". "] of the trimmed
    line in a list item, never through the paragraph fallback of
    renderLineToHTML. *)
Theorem renderLineToHTML_ordered_list (line : string) :
  DetectNotionSyntax line = "ordered_list" ->
  exists number rest,
    SplitN2 (TrimSpace line) ". " = [number; rest] /\
    renderLineToHTML line (DetectNotionSyntax line)
    = "<ol><li>" +:+ rest +:+ "</li></ol>".
Proof.
  intros Hdetect. rewrite Hdetect.
  assert (Hsplit : length (SplitN2 (TrimSpace line) ". ") = 2).
  { revert Hdetect. unfold DetectNotionSyntax. cbv zeta.
    repeat match goal with
           | |- context [HasPrefix (TrimSpace line) ?p] =>
               destruct (HasPrefix (TrimSpace line) p); cbn [orb]; try discriminate
           end.
    all: destruct (TrimSpace line) as [|c t]; try discriminate.
    all: destruct (IsDigitByte c); cbn [andb]; try discriminate.
    all: destruct (length (SplitN2 (String c t) ". ") =? 2) eqn:Hlen;
      try discriminate.
    all: intros _; by apply Nat.eqb_eq. }
  destruct (SplitN2_cases (TrimSpace line) ". ") as [(number & rest & Hparts) | Hone];
    [| by rewrite Hone in Hsplit].
  exists number, rest. split; [done |].
  unfold renderLineToHTML. cbv zeta. cbn [String.eqb Ascii.eqb Bool.eqb].
  by rewrite Hparts.
Qed.

Lemma renderLineToHTML_ordered_list_witness :
  exists number rest,
    SplitN2 (TrimSpace "1. item") ". " = [number; rest] /\
    renderLineToHTML "1. item" (DetectNotionSyntax "1. item")
    = "<ol><li>" +:+ rest +:+ "</li></ol>".
Proof. apply (renderLineToHTML_ordered_list "1. item"). reflexivity. Defined.

(** X30. The checkbox case of renderLineToHTML looks for ["- [x]"]
    anywhere in the trimmed line: a line that starts with the unchecked
    box ["- [ ]"] and has ["- [x]"] further on is classified as a
    checkbox and rendered as a checked one, the later ["- [x]"] being
    the text that is cut out. *)
Theorem renderLineToHTML_unchecked_box_rendered_checked (line : string) :
  HasPrefix (TrimSpace line) "- [ ]" = true ->
  Contains (TrimSpace line) "- [x]" = true ->
  DetectNotionSyntax line = "checkbox" /\
  renderLineToHTML line (DetectNotionSyntax line)
  = "<ul><li><input type=" +:+ quote +:+ "checkbox" +:+ quote
      +:+ " checked disabled>"
      +:+ TrimSpace (ReplaceFirstWithEmpty (TrimSpace line) "- [x]")
      +:+ "</li></ul>".
Proof.
  intros Hbox Hchecked.
  assert (Hdetect : DetectNotionSyntax line = "checkbox").
  { unfold DetectNotionSyntax. cbv zeta. rewrite Hbox.
    destruct (TrimSpace line) as [|c t]; [discriminate Hbox |].
    cbn [HasPrefix] in Hbox. apply andb_true_iff in Hbox as [Hc _].
    apply Ascii.eqb_eq in Hc. subst c. reflexivity. }
  split; [done |]. rewrite Hdetect.
  unfold renderLineToHTML. cbv zeta. cbn [String.eqb Ascii.eqb Bool.eqb].
  by rewrite Hchecked.
Qed.

Lemma renderLineToHTML_unchecked_box_rendered_checked_witness :
  DetectNotionSyntax "- [ ] not - [x]" = "checkbox" /\
  renderLineToHTML "- [ ] not - [x]" (DetectNotionSyntax "- [ ] not - [x]")
  = "<ul><li><input type=" +:+ quote +:+ "checkbox" +:+ quote
      +:+ " checked disabled>"
      +:+ TrimSpace (ReplaceFirstWithEmpty (TrimSpace "- [ ] not - [x]") "- [x]")
      +:+ "</li></ul>".
Proof.
  apply (renderLineToHTML_unchecked_box_rendered_checked "- [ ] not - [x]");
    reflexivity.
Defined.

End parser_blocks.

(** ** The block differ on empty states, empty snapshots and nil blocks *)

Module block_edges.
Import builtin models diff store block_diff parser_blocks.

Lemma rangeM_panics {A S : Type} (body : S -> A -> option S) (l : list A) (x : A) :
  x ∈ l -> (forall s, body s x = None) -> forall s, rangeM body s l = None.
Proof.
  intros Hin Hx. induction l as [|y l IH]; intros s.
  - by apply elem_of_nil in Hin.
  - cbn [rangeM]. apply elem_of_cons in Hin as [<- | Hin].
    + by rewrite Hx.
    + destruct (body s y) as [s'|]; [| done]. simpl. by apply IH.
Qed.

Section edges.
Variable md5_Sum : string -> string.
Variable depth : nat.

(** X5. When an id is in the detector's state and in the new
    snapshot and one of the two pointers is nil, ComputeDiff
    dereferences it in computeBlockHash: the call panics. *)
Theorem ComputeDiff_nil_block_panics
    (previousBlocks newBlocks : gmap string ptr) (h : heap)
    (id : string) (oldBlock newBlock : ptr) :
  previousBlocks !! id = Some oldBlock ->
  newBlocks !! id = Some newBlock ->
  oldBlock = None \/ newBlock = None ->
  ComputeDiff md5_Sum depth previousBlocks newBlocks h = None.
Proof.
  intros Hold Hnew Hnil. unfold ComputeDiff, computeChanges.
  rewrite (rangeM_panics _ _ (id, newBlock)); [done | |].
  - by apply elem_of_map_to_list.
  - intros acc. unfold diffNewBlock. cbn [fst snd]. rewrite Hold.
    unfold hasBlockChanged, computeBlockHash.
    destruct Hnil as [-> | ->]; [done |].
    by destruct (oldBlock ≫= _).
Qed.

Lemma second_loop_nothing_seen (l : list (string * ptr)) :
  forall changes,
    foldl (diffOldBlock ∅) changes l
    = changes ++ ((fun kv => mkBlockChange "removed" kv.1 kv.2) <$> l).
Proof.
  induction l as [|kv l IH]; intros changes; cbn [foldl fmap list_fmap].
  - by rewrite app_nil_r.
  - rewrite IH. unfold diffOldBlock at 1, lookupBool.
    rewrite lookup_empty. cbn [default negb]. by rewrite <- app_assoc.
Qed.

(** X6. An empty new snapshot: every block of the detector's state
    is reported removed, once, with the pointer the state holds;
    nothing is hashed or copied, the store is as it was and the new
    state is empty.  It holds whatever the state points to. *)
Theorem ComputeDiff_empty_snapshot (previousBlocks : gmap string ptr) (h : heap) :
  ComputeDiff md5_Sum depth previousBlocks ∅ h
  = Some ((fun kv => mkBlockChange "removed" kv.1 kv.2)
            <$> map_to_list previousBlocks, ∅, h).
Proof.
  unfold ComputeDiff, computeChanges, copyBlocks.
  rewrite map_to_list_empty. cbn [rangeM mbind option_bind].
  by rewrite second_loop_nothing_seen.
Qed.

Lemma first_loop_fresh (h : heap) (l : list (string * ptr)) :
  forall changes seen,
  exists seen',
    rangeM (diffNewBlock md5_Sum NewBlockDiffer h) (changes, seen) l
    = Some (changes ++ ((fun kv => mkBlockChange "added" kv.1 kv.2) <$> l), seen').
Proof.
  induction l as [|kv l IH]; intros changes seen; cbn [rangeM fmap list_fmap].
  - exists seen. by rewrite app_nil_r.
  - assert (Hstep : diffNewBlock md5_Sum NewBlockDiffer h (changes, seen) kv
                    = Some (changes ++ [mkBlockChange "added" kv.1 kv.2],
                            <[kv.1 := true]> seen)).
    { unfold diffNewBlock, NewBlockDiffer. by rewrite lookup_empty. }
    rewrite Hstep. cbn [mbind option_bind].
    destruct (IH (changes ++ [mkBlockChange "added" kv.1 kv.2])
                 (<[kv.1 := true]> seen)) as (seen' & ->).
    exists seen'. by rewrite <- app_assoc.
Qed.

(** X7. The first call on a new detector: every block of the
    snapshot is reported added, once, with the caller's pointer, and
    nothing else is reported. *)
Theorem ComputeDiff_first_call (newBlocks : gmap string ptr) (h : heap) :
  wellFormed h depth newBlocks = true ->
  exists previousBlocks' h',
    ComputeDiff md5_Sum depth NewBlockDiffer newBlocks h
    = Some ((fun kv => mkBlockChange "added" kv.1 kv.2)
              <$> map_to_list newBlocks, previousBlocks', h').
Proof.
  intros Hwf. unfold ComputeDiff, computeChanges.
  destruct (first_loop_fresh h (map_to_list newBlocks) [] ∅) as (seen' & ->).
  destruct (copyBlocks_spec depth newBlocks h Hwf) as (copied & ext & -> & _).
  cbn [mbind option_bind]. unfold NewBlockDiffer at 1.
  rewrite map_to_list_empty. cbn [foldl app].
  by exists copied, (h ++ ext).
Qed.

End edges.

Lemma ComputeDiff_nil_block_panics_witness :
  ComputeDiff scenario.digest 3 {[ "b1" := None ]} scenario.first scenario.blocks = None.
Proof.
  apply (ComputeDiff_nil_block_panics scenario.digest 3 {[ "b1" := None ]}
           scenario.first scenario.blocks "b1" None (Some 0));
    [reflexivity | reflexivity | by left].
Defined.

Lemma ComputeDiff_first_call_witness :
  exists previousBlocks' h',
    ComputeDiff scenario.digest 3 NewBlockDiffer scenario.second scenario.blocks
    = Some ((fun kv => mkBlockChange "added" kv.1 kv.2)
              <$> map_to_list scenario.second, previousBlocks', h').
Proof.
  apply (ComputeDiff_first_call scenario.digest 3 scenario.second scenario.blocks).
  reflexivity.
Defined.

(** X29. computeBlockHash joins the four fields with ["|"] and does
    not escape them: two blocks of the same type and level whose
    content and HTML differ only by where the text
    ["|" level "|"] is cut have the same hash input, and
    hasBlockChanged reports no change between them, whatever the
    digest function. *)
Theorem hasBlockChanged_misses_moved_separator (md5_Sum : string -> string)
    (h : heap) (a1 a2 : nat) (b1 b2 : Block) (x y z : string) :
  h !! a1 = Some b1 ->
  h !! a2 = Some b2 ->
  Type_ b1 = Type_ b2 ->
  Level b1 = Level b2 ->
  Content b1 = x +:+ "|" +:+ fmt.decimal (Level b1) +:+ "|" +:+ y ->
  HTML b1 = z ->
  Content b2 = x ->
  HTML b2 = y +:+ "|" +:+ fmt.decimal (Level b1) +:+ "|" +:+ z ->
  hasBlockChanged md5_Sum h (Some a1) (Some a2) = Some false.
Proof.
  intros H1 H2 Hty Hlv Hc1 Hh1 Hc2 Hh2.
  unfold hasBlockChanged, computeBlockHash.
  cbn [mbind option_bind]. rewrite H1, H2. cbn [mbind option_bind].
  rewrite Hc1, Hh1, Hc2, Hh2, <- Hty, <- Hlv.
  replace (Type_ b1 +:+ "|" +:+ x +:+ "|" +:+ fmt.decimal (Level b1) +:+ "|"
             +:+ y +:+ "|" +:+ fmt.decimal (Level b1) +:+ "|" +:+ z)
    with (Type_ b1 +:+ "|" +:+ (x +:+ "|" +:+ fmt.decimal (Level b1) +:+ "|" +:+ y)
             +:+ "|" +:+ fmt.decimal (Level b1) +:+ "|" +:+ z).
  - by rewrite String.eqb_refl.
  - by rewrite !append_assoc.
Qed.

Lemma hasBlockChanged_misses_moved_separator_witness :
  hasBlockChanged scenario.digest
    [ mkBlock "b" "paragraph" 0 "x|0|y" "z" (mkPosition 0 5 0) [];
      mkBlock "b" "paragraph" 0 "x" "y|0|z" (mkPosition 0 1 0) [] ]
    (Some 0) (Some 1)
  = Some false.
Proof.
  apply (hasBlockChanged_misses_moved_separator scenario.digest
           [ mkBlock "b" "paragraph" 0 "x|0|y" "z" (mkPosition 0 5 0) [];
             mkBlock "b" "paragraph" 0 "x" "y|0|z" (mkPosition 0 1 0) [] ]
           0 1
           (mkBlock "b" "paragraph" 0 "x|0|y" "z" (mkPosition 0 5 0) [])
           (mkBlock "b" "paragraph" 0 "x" "y|0|z" (mkPosition 0 1 0) [])
           "x" "y" "z"); reflexivity.
Defined.

End block_edges.

(** ** The event loop and the message handlers *)

Module hub_sessions.
Import builtin models parser websocket handlers hub session hub_facts.

Lemma keys_of (h : Hub) (c : nat) :
  c ∈ (map_to_list (clients h)).*1 <-> is_Some (clients h !! c).
Proof.
  rewrite list_elem_of_fmap. split.
  - intros ([c' b] & -> & Hin). apply elem_of_map_to_list in Hin. eauto.
  - intros [b Hb]. exists (c, b). split; [done |]. by apply elem_of_map_to_list.
Qed.

Lemma openClients_spec (h : Hub) (store : gmap nat Client) :
  openClients h store = true <->
  forall c, is_Some (clients h !! c) -> isOpen store c = true.
Proof.
  unfold openClients. rewrite forallb_forall. split.
  - intros H c [b Hb]. apply (H (c, b)).
    by apply list_elem_of_In, elem_of_map_to_list.
  - intros H [c b] Hin. apply list_elem_of_In, elem_of_map_to_list in Hin.
    apply (H c). eauto.
Qed.

Lemma isOpen_inv (store : gmap nat Client) (c : nat) :
  isOpen store c = true ->
  exists client, store !! c = Some client /\ closed (send client) = false.
Proof.
  unfold isOpen. destruct (store !! c) as [client|]; [| done].
  intros H%negb_true_iff. by exists client.
Qed.

Lemma isOpen_insert (store : gmap nat Client) (c c' : nat) (client : Client) :
  isOpen (<[c := client]> store) c'
  = if decide (c = c') then negb (closed (send client)) else isOpen store c'.
Proof.
  unfold isOpen. destruct (decide (c = c')) as [<- | Hne].
  - by rewrite lookup_insert_eq.
  - by rewrite lookup_insert_ne.
Qed.

(** The non-blocking send to a client whose channel is open. *)
Lemma selectSend_open (h : Hub) (store : gmap nat Client) (c : nat)
    (client : Client) (data : string) :
  store !! c = Some client ->
  closed (send client) = false ->
  selectSend (h, store) c data
  = Some (keep c client h, <[c := offer data client]> store).
Proof.
  intros Hc Hopen. unfold selectSend, keep, offer, hasRoom, trySend, close.
  cbn [fst snd]. rewrite Hc. cbn [mbind option_bind]. rewrite Hopen.
  by destruct (length (queue (send client)) <? capacity (send client)).
Qed.

(** The send to a client whose channel is closed panics. *)
Lemma selectSend_closed (h : Hub) (store : gmap nat Client) (c : nat)
    (client : Client) (data : string) :
  store !! c = Some client ->
  closed (send client) = true ->
  selectSend (h, store) c data = None.
Proof.
  intros Hc Hclosed. unfold selectSend, trySend. cbn [fst snd].
  rewrite Hc. cbn [mbind option_bind]. by rewrite Hclosed.
Qed.

Lemma offer_keeps_open (h : Hub) (store : gmap nat Client) (c : nat)
    (client : Client) (data : string) :
  openClients h store = true ->
  openClients (keep c client h) (<[c := offer data client]> store) = true.
Proof.
  rewrite !openClients_spec. intros Hopen c' Hlive.
  rewrite isOpen_insert. unfold keep, offer in *.
  destruct (hasRoom client); cbn [clients] in Hlive.
  - destruct (decide (c = c')); [done | by apply Hopen].
  - destruct (decide (c = c')) as [<- | Hne].
    + rewrite lookup_delete_eq in Hlive. by destruct Hlive.
    + rewrite lookup_delete_ne in Hlive by done. by apply Hopen.
Qed.

Lemma subscriptions_keep_open (h : Hub) (store : gmap nat Client) (c : nat)
    (client : Client) (subs : gmap string bool) :
  store !! c = Some client ->
  openClients h store = true ->
  openClients h (<[c := withSubscriptions client subs]> store) = true.
Proof.
  rewrite !openClients_spec. intros Hc Hopen c' Hlive.
  rewrite isOpen_insert. destruct (decide (c = c')) as [<- | Hne]; [| by apply Hopen].
  specialize (Hopen c Hlive). unfold isOpen in Hopen. by rewrite Hc in Hopen.
Qed.

Lemma selectSend_frame (h h' : Hub) (store store' : gmap nat Client) (c : nat)
    (data : string) :
  selectSend (h, store) c data = Some (h', store') ->
  (forall c', c' <> c ->
              store' !! c' = store !! c' /\ clients h' !! c' = clients h !! c') /\
  subscribedDocuments <$> store' !! c = subscribedDocuments <$> store !! c.
Proof.
  unfold selectSend. cbn [fst snd].
  destruct (store !! c) as [client|] eqn:Hc; [| done]. cbn [mbind option_bind].
  destruct (trySend (send client) data) as [[ch|]|]; cbn [mbind option_bind]; [| | done].
  - intros [= <- <-]. split; [| by rewrite lookup_insert_eq].
    intros c' Hne. by rewrite lookup_insert_ne.
  - destruct (close (send client)) as [ch|]; [| done]. cbn [mbind option_bind].
    intros [= <- <-]. split; [| by rewrite lookup_insert_eq].
    intros c' Hne. cbn [clients].
    by rewrite lookup_insert_ne, lookup_delete_ne.
Qed.

Lemma dispatchTo_subscriptions (documentID data : string) (h h' : Hub)
    (store store' : gmap nat Client) (c : nat) :
  dispatchTo documentID data (h, store) c = Some (h', store') ->
  forall c', subscribedDocuments <$> store' !! c' = subscribedDocuments <$> store !! c'.
Proof.
  unfold dispatchTo. cbn [fst snd].
  destruct (store !! c) as [client|] eqn:Hc; [| done]. cbn [mbind option_bind].
  destruct (lookupBool _ _); [| by intros [= <- <-]].
  assert (Hins : forall ch c',
             subscribedDocuments
               <$> <[c := mkClient ch (subscribedDocuments client)]> store !! c'
             = subscribedDocuments <$> store !! c').
  { intros ch c'. destruct (decide (c = c')) as [<- | Hne].
    - by rewrite lookup_insert_eq, Hc.
    - by rewrite lookup_insert_ne. }
  destruct (trySend (send client) data) as [[ch|]|]; cbn [mbind option_bind]; [| | done].
  - intros [= <- <-]. apply Hins.
  - destruct (close (send client)) as [ch|]; [| done]. cbn [mbind option_bind].
    intros [= <- <-]. apply Hins.
Qed.

Lemma rangeM_preserves {A S : Type} (P : S -> Prop) (body : S -> A -> option S)
    (l : list A) :
  (forall s x s', body s x = Some s' -> P s -> P s') ->
  forall s s', rangeM body s l = Some s' -> P s -> P s'.
Proof.
  intros Hbody. induction l as [|x l IH]; intros s s'; cbn [rangeM].
  - by intros [= <-].
  - destruct (body s x) as [s1|] eqn:Hs1; [| done]. cbn [mbind option_bind].
    intros Hrun Hs. eapply IH; [exact Hrun |]. by eapply Hbody.
Qed.

(** The loop of the broadcast case of Run over distinct clients with
    open channels. *)
Lemma broadcast_loop (message : string) (l : list nat) :
  NoDup l ->
  forall (h : Hub) (store : gmap nat Client),
    (forall c, c ∈ l -> isOpen store c = true) ->
    exists h' store',
      rangeM (fun st c => selectSend st c message) (h, store) l = Some (h', store') /\
      (forall c, c ∉ l ->
                 store' !! c = store !! c /\ clients h' !! c = clients h !! c) /\
      (forall c client, c ∈ l -> store !! c = Some client ->
                        store' !! c = Some (offer message client) /\
                        clients h' !! c
                        = if hasRoom client then clients h !! c else None).
Proof.
  induction 1 as [|c l Hnotin Hnodup IH]; intros h store Hopen.
  - exists h, store. split; [done |]. split; [done |].
    intros c client Hc. by apply elem_of_nil in Hc.
  - destruct (isOpen_inv store c) as (client & Hc & Hcl); [apply Hopen; left |].
    pose proof (selectSend_open h store c client message Hc Hcl) as Hstep.
    destruct (IH (keep c client h) (<[c := offer message client]> store))
      as (h' & store' & Hrun & Hout & Hin).
    { intros c' Hc'. rewrite isOpen_insert.
      rewrite decide_False by (by intros ->). apply Hopen. by right. }
    exists h', store'. cbn [rangeM]. rewrite Hstep. cbn [mbind option_bind].
    split; [done |]. split.
    + intros c' Hc'. apply not_elem_of_cons in Hc' as [Hne Hc'].
      destruct (Hout c' Hc') as [-> ->].
      rewrite lookup_insert_ne by done. split; [done |].
      unfold keep. destruct (hasRoom client); [done |]. simpl.
      by rewrite lookup_delete_ne.
    + intros c' client' Hc' Hclient'.
      apply elem_of_cons in Hc' as [-> | Hc'].
      * destruct (Hout c Hnotin) as [-> ->].
        rewrite lookup_insert_eq. simplify_eq. split; [done |].
        unfold keep. destruct (hasRoom client); [done |]. simpl.
        by rewrite lookup_delete_eq.
      * assert (c <> c') by (by intros ->).
        destruct (Hin c' client' Hc') as [-> ->].
        { by rewrite lookup_insert_ne. }
        split; [done |]. unfold keep.
        destruct (hasRoom client'); [| done].
        destruct (hasRoom client); [done |]. simpl.
        by rewrite lookup_delete_ne.
Qed.

Lemma delivered_open (documentID data : string) (client : Client) :
  closed (send client) = false ->
  dropped documentID client = false ->
  closed (send (delivered documentID data client)) = false.
Proof.
  unfold dropped, delivered. intros Hopen.
  destruct (subscribed client documentID); [| done].
  by destruct (hasRoom client).
Qed.

Section Hub.
Variable WebSocketResponse : Type.
Variable json_Marshal : WebSocketResponse -> result string.

(** A dispatch to a document returns on a hub whose live clients
    have open channels, and leaves such a hub. *)
Lemma broadcastToDocument_keeps_open (h : Hub) (store : gmap nat Client)
    (documentID : string) (response : WebSocketResponse) :
  openClients h store = true ->
  exists h' store',
    broadcastToDocument WebSocketResponse json_Marshal h store documentID response
      = Some (h', store') /\
    openClients h' store' = true.
Proof.
  intros Hopen. unfold broadcastToDocument.
  destruct (json_Marshal response) as [data | err]; [| by exists h, store].
  pose proof (proj1 (openClients_spec h store) Hopen) as Hopen'.
  destruct (dispatch_loop documentID data (map_to_list (clients h)).*1
              (NoDup_fst_map_to_list _) h store)
    as (h' & store' & Hrun & Hout & Hin).
  { intros c Hc. apply isOpen_inv, Hopen'. by apply keys_of. }
  exists h', store'. split; [done |]. apply openClients_spec.
  intros c Hlive.
  destruct (decide (c ∈ (map_to_list (clients h)).*1)) as [Hc | Hc].
  - destruct (isOpen_inv store c) as (client & Hclient & Hcl);
      [apply Hopen'; by apply keys_of |].
    destruct (Hin c client Hc Hclient) as [Hs Hl].
    unfold isOpen. rewrite Hs. apply negb_true_iff, delivered_open; [done |].
    destruct (dropped documentID client); [| done].
    rewrite Hl in Hlive. by destruct Hlive.
  - destruct (Hout c Hc) as [_ Hl]. rewrite Hl in Hlive.
    by apply keys_of in Hlive.
Qed.

End Hub.

Section Hub.
Variable Time : Type.
Variable json_Marshal : WebSocketResponse Time -> result string.
Variable json_Unmarshal : string -> result WebSocketMessage.
Variable md5_Sum : string -> string.
Variable goldmark_Parse : string -> Node.
Variable goldmark_Render : string -> Node -> result string.

Lemma sendToClient_open (h : Hub) (store : gmap nat Client) (c : nat)
    (client : Client) (response : WebSocketResponse Time) :
  store !! c = Some client ->
  closed (send client) = false ->
  sendToClient Time json_Marshal (h, store) c response
  = Some (match json_Marshal response with
          | Ok data => (keep c client h, <[c := offer data client]> store)
          | Err _ => (h, store)
          end).
Proof.
  intros Hc Hopen. unfold sendToClient.
  destruct (json_Marshal response) as [data|]; [| done].
  by apply selectSend_open.
Qed.

Lemma sendToClient_keeps_open (h : Hub) (store : gmap nat Client) (c : nat)
    (response : WebSocketResponse Time) :
  openClients h store = true ->
  isOpen store c = true ->
  exists h' store',
    sendToClient Time json_Marshal (h, store) c response = Some (h', store') /\
    openClients h' store' = true.
Proof.
  intros Hopen (client & Hc & Hcl)%isOpen_inv.
  rewrite (sendToClient_open h store c client response Hc Hcl).
  destruct (json_Marshal response) as [data|].
  - eexists _, _. split; [done |]. by apply offer_keeps_open.
  - by exists h, store.
Qed.

Lemma sendToClient_frame (h h' : Hub) (store store' : gmap nat Client) (c : nat)
    (response : WebSocketResponse Time) :
  sendToClient Time json_Marshal (h, store) c response = Some (h', store') ->
  forall c', c' <> c ->
             store' !! c' = store !! c' /\ clients h' !! c' = clients h !! c'.
Proof.
  unfold sendToClient. destruct (json_Marshal response) as [data|].
  - intros H. by apply selectSend_frame in H as [H _].
  - by intros [= <- <-].
Qed.

Lemma sendToClient_closed (h : Hub) (store : gmap nat Client) (c : nat)
    (client : Client) (response : WebSocketResponse Time) :
  total json_Marshal ->
  store !! c = Some client ->
  closed (send client) = true ->
  sendToClient Time json_Marshal (h, store) c response = None.
Proof.
  intros Htotal Hc Hclosed. unfold sendToClient.
  destruct (Htotal response) as (data & ->). by eapply selectSend_closed.
Qed.

(** X16. HandleMessage returns for a client whose channel is open, on
    a hub whose live clients all have open channels, and leaves such
    a hub: whatever the message, no send or close hits a closed
    channel. *)
Theorem HandleMessage_keeps_clients_open (h : Hub) (store : gmap nat Client)
    (c : nat) (now : Time) (messageData : string) :
  openClients h store = true ->
  isOpen store c = true ->
  exists h' store',
    HandleMessage Time json_Marshal json_Unmarshal md5_Sum goldmark_Parse
                  goldmark_Render (h, store) c now messageData
    = Some (h', store') /\
    openClients h' store' = true.
Proof.
  intros Hopen Hc.
  assert (Hsend := fun r => sendToClient_keeps_open h store c r Hopen Hc).
  assert (Hsubs : forall subs r,
             exists h' store',
               (client ← store !! c;
                sendToClient Time json_Marshal
                  (h, <[c := mkClient (send client) (subs client)]> store) c r)
               = Some (h', store') /\ openClients h' store' = true).
  { intros subs r. destruct (isOpen_inv store c Hc) as (client & Hclient & Hcl).
    rewrite Hclient. cbn [mbind option_bind].
    apply sendToClient_keeps_open.
    - by apply (subscriptions_keep_open h store c client (subs client)).
    - rewrite isOpen_insert, decide_True by done. simpl. by rewrite Hcl. }
  unfold HandleMessage.
  destruct (json_Unmarshal messageData) as [msg | err]; [| apply Hsend].
  destruct (String.eqb (MessageType msg) "parse").
  { unfold handleParse. destruct (strings.isEmpty _); [apply Hsend |].
    destruct (Parse _ _ _ _); apply Hsend. }
  destruct (String.eqb (MessageType msg) "parse_incremental").
  { unfold handleParseIncremental. destruct (strings.isEmpty _); [apply Hsend |].
    destruct (ParseIncremental _ _ _ _ _) as [result | err]; [| apply Hsend].
    cbv zeta.
    destruct (Hsend (mkWebSocketResponse Time "parsed_incremental" true
                       (ParseData result) EmptyString now))
      as (h1 & store1 & -> & Hopen1).
    cbn [mbind option_bind fst snd].
    destruct (negb _); [| by exists h1, store1].
    by apply broadcastToDocument_keeps_open. }
  destruct (String.eqb (MessageType msg) "subscribe").
  { unfold handleSubscribe. destruct (strings.isEmpty _); [apply Hsend |].
    apply (Hsubs (fun client => <[DocumentID msg := true]> (subscribedDocuments client))). }
  destruct (String.eqb (MessageType msg) "unsubscribe"); [| apply Hsend].
  unfold handleUnsubscribe. destruct (strings.isEmpty _); [apply Hsend |].
  apply (Hsubs (fun client => delete (DocumentID msg) (subscribedDocuments client))).
Qed.

(** X17. HandleMessage for a client whose channel has been closed (a
    client the hub dropped or unregistered) panics, whatever the
    message, when the response can be marshalled: sendToClient does
    not look whether the client is still live. *)
Theorem HandleMessage_closed_channel_panics (h : Hub) (store : gmap nat Client)
    (c : nat) (client : Client) (now : Time) (messageData : string) :
  total json_Marshal ->
  store !! c = Some client ->
  closed (send client) = true ->
  HandleMessage Time json_Marshal json_Unmarshal md5_Sum goldmark_Parse
                goldmark_Render (h, store) c now messageData
  = None.
Proof.
  intros Htotal Hc Hclosed.
  assert (Hsend := fun r => sendToClient_closed h store c client r Htotal Hc Hclosed).
  assert (Hsubs : forall subs r,
             (client' ← store !! c;
              sendToClient Time json_Marshal
                (h, <[c := mkClient (send client') (subs client')]> store) c r)
             = None).
  { intros subs r. rewrite Hc. cbn [mbind option_bind].
    apply (sendToClient_closed _ _ c (mkClient (send client) (subs client)));
      [done | by rewrite lookup_insert_eq | done]. }
  unfold HandleMessage.
  destruct (json_Unmarshal messageData) as [msg | err]; [| apply Hsend].
  destruct (String.eqb (MessageType msg) "parse").
  { unfold handleParse. destruct (strings.isEmpty _); [apply Hsend |].
    destruct (Parse _ _ _ _); apply Hsend. }
  destruct (String.eqb (MessageType msg) "parse_incremental").
  { unfold handleParseIncremental. destruct (strings.isEmpty _); [apply Hsend |].
    destruct (ParseIncremental _ _ _ _ _) as [result | err]; [| apply Hsend].
    cbv zeta. by rewrite Hsend. }
  destruct (String.eqb (MessageType msg) "subscribe").
  { unfold handleSubscribe. destruct (strings.isEmpty _); [apply Hsend |].
    apply (Hsubs (fun client => <[DocumentID msg := true]> (subscribedDocuments client))). }
  destruct (String.eqb (MessageType msg) "unsubscribe"); [| apply Hsend].
  unfold handleUnsubscribe. destruct (strings.isEmpty _); [apply Hsend |].
  apply (Hsubs (fun client => delete (DocumentID msg) (subscribedDocuments client))).
Qed.

(** X18. A message other than parse_incremental touches the sender
    only: every other client keeps its queue, its channel, its
    subscriptions and its place in the live set. *)
Theorem HandleMessage_touches_sender_only (h h' : Hub)
    (store store' : gmap nat Client) (c : nat) (now : Time)
    (messageData : string) :
  isIncremental json_Unmarshal messageData = false ->
  HandleMessage Time json_Marshal json_Unmarshal md5_Sum goldmark_Parse
                goldmark_Render (h, store) c now messageData
  = Some (h', store') ->
  forall c', c' <> c ->
             store' !! c' = store !! c' /\ clients h' !! c' = clients h !! c'.
Proof.
  intros Hinc.
  assert (Hsend := fun r => sendToClient_frame h h' store store' c r).
  assert (Hsubs : forall subs r,
             (client ← store !! c;
              sendToClient Time json_Marshal
                (h, <[c := mkClient (send client) (subs client)]> store) c r)
             = Some (h', store') ->
             forall c', c' <> c ->
                        store' !! c' = store !! c' /\ clients h' !! c' = clients h !! c').
  { intros subs r. destruct (store !! c) as [client|]; [| done].
    cbn [mbind option_bind]. intros H c' Hne.
    destruct (sendToClient_frame _ _ _ _ _ _ H c' Hne) as [-> ->].
    by rewrite lookup_insert_ne. }
  unfold isIncremental in Hinc. unfold HandleMessage.
  destruct (json_Unmarshal messageData) as [msg | err]; [| apply Hsend].
  destruct (String.eqb (MessageType msg) "parse").
  { unfold handleParse. destruct (strings.isEmpty _); [apply Hsend |].
    destruct (Parse _ _ _ _); apply Hsend. }
  rewrite Hinc.
  destruct (String.eqb (MessageType msg) "subscribe").
  { unfold handleSubscribe. destruct (strings.isEmpty _); [apply Hsend |].
    apply (Hsubs (fun client => <[DocumentID msg := true]> (subscribedDocuments client))). }
  destruct (String.eqb (MessageType msg) "unsubscribe"); [| apply Hsend].
  unfold handleUnsubscribe. destruct (strings.isEmpty _); [apply Hsend |].
  apply (Hsubs (fun client => delete (DocumentID msg) (subscribedDocuments client))).
Qed.

End Hub.

Lemma offer_subscriptions (data : string) (client : Client) :
  subscribedDocuments (offer data client) = subscribedDocuments client.
Proof. unfold offer. by destruct (hasRoom client). Qed.

Lemma offer_room_open (data : string) (client : Client) :
  hasRoom client = true -> closed (send (offer data client)) = false.
Proof. unfold offer. by intros ->. Qed.

Lemma delivered_offer (documentID data : string) (client : Client) :
  subscribed client documentID = true ->
  delivered documentID data client = offer data client.
Proof. unfold delivered, offer. by intros ->. Qed.

Section Hub.
Variable Time : Type.
Variable json_Marshal : WebSocketResponse Time -> result string.
Variable md5_Sum : string -> string.
Variable goldmark_Parse : string -> Node.
Variable goldmark_Render : string -> Node -> result string.

(** X19. Subscribing stores the document in the client's set and
    unsubscribing takes it out again: for a client with room in its
    buffer the two calls return, the document is in the set after the
    first and not after the second, and the other documents stay. *)
Theorem subscribe_then_unsubscribe (h : Hub) (store : gmap nat Client)
    (c : nat) (client : Client) (now now' : Time) (msg : WebSocketMessage) :
  store !! c = Some client ->
  closed (send client) = false ->
  hasRoom client = true ->
  strings.isEmpty (DocumentID msg) = false ->
  exists h1 store1 h2 store2,
    handleSubscribe Time json_Marshal (h, store) c now msg = Some (h1, store1) /\
    subscribedDocuments <$> store1 !! c
    = Some (<[DocumentID msg := true]> (subscribedDocuments client)) /\
    handleUnsubscribe Time json_Marshal (h1, store1) c now' msg
    = Some (h2, store2) /\
    subscribedDocuments <$> store2 !! c
    = Some (delete (DocumentID msg) (subscribedDocuments client)).
Proof.
  intros Hc Hopen Hroom Hdoc.
  assert (Hsent : forall (h0 : Hub) (st : gmap nat Client) (x : Client) r,
             st !! c = Some x ->
             closed (send x) = false ->
             exists h' store',
               sendToClient Time json_Marshal (h0, st) c r = Some (h', store') /\
               exists x', store' !! c = Some x' /\
                          subscribedDocuments x' = subscribedDocuments x /\
                          (hasRoom x = true -> closed (send x') = false)).
  { intros h0 st x r Hst Hx.
    rewrite (sendToClient_open _ _ _ _ c x r Hst Hx).
    destruct (json_Marshal r) as [data|].
    - eexists _, _. split; [done |]. exists (offer data x).
      rewrite lookup_insert_eq. split; [done |].
      split; [apply offer_subscriptions | apply offer_room_open].
    - eexists _, _. split; [done |]. by exists x. }
  unfold handleSubscribe, handleUnsubscribe. rewrite Hdoc.
  cbn [fst snd]. rewrite Hc. cbn [mbind option_bind].
  match goal with
  | |- context [sendToClient Time json_Marshal (h, <[c := ?x]> store) c ?r] =>
      destruct (Hsent h (<[c := x]> store) x r (lookup_insert_eq _ _ _) Hopen)
        as (h1 & store1 & Hfirst & x1 & Hx1 & Hsubs1 & Hopen1)
  end.
  cbn [subscribedDocuments] in Hsubs1. specialize (Hopen1 Hroom).
  exists h1, store1. rewrite Hfirst, Hx1. cbn [mbind option_bind fmap option_fmap option_map].
  match goal with
  | |- context [sendToClient Time json_Marshal (h1, <[c := ?x]> store1) c ?r] =>
      destruct (Hsent h1 (<[c := x]> store1) x r (lookup_insert_eq _ _ _) Hopen1)
        as (h2 & store2 & Hsecond & x2 & Hx2 & Hsubs2 & _)
  end.
  cbn [subscribedDocuments] in Hsubs2.
  exists h2, store2. rewrite Hsecond, Hx2. cbn [fmap option_fmap option_map].
  split; [done |]. split; [by rewrite Hsubs1 |]. split; [done |].
  by rewrite Hsubs2, Hsubs1, delete_insert_eq.
Qed.

(** X20. The sender of a parse_incremental message is not left out
    of the dispatch to the document: when it is subscribed to the
    document it names, the response is offered to it twice, and it is
    dropped by its own message when its buffer had room for one. *)
Theorem handleParseIncremental_reaches_sender (h : Hub) (store : gmap nat Client)
    (c : nat) (client : Client) (now : Time) (msg : WebSocketMessage)
    (result : ParseResponse) (data : string) :
  openClients h store = true ->
  is_Some (clients h !! c) ->
  store !! c = Some client ->
  subscribed client (DocumentID msg) = true ->
  hasRoom client = true ->
  strings.isEmpty (MessageContent msg) = false ->
  strings.isEmpty (DocumentID msg) = false ->
  Parse md5_Sum goldmark_Parse goldmark_Render (MessageContent msg) = Ok result ->
  json_Marshal (mkWebSocketResponse Time "parsed_incremental" true
                  (ParseData result) EmptyString now) = Ok data ->
  exists h' store',
    handleParseIncremental Time json_Marshal md5_Sum goldmark_Parse goldmark_Render
                           (h, store) c now msg
    = Some (h', store') /\
    store' !! c = Some (offer data (offer data client)) /\
    clients h' !! c
    = if hasRoom (offer data client) then clients h !! c else None.
Proof.
  intros Hopen Hlive Hc Hsub Hroom Hcontent Hdoc Hparse Hjson.
  pose proof (proj1 (openClients_spec h store) Hopen c Hlive) as Hco.
  apply isOpen_inv in Hco as (client0 & Hc0 & Hcl). rewrite Hc in Hc0.
  injection Hc0 as <-.
  unfold handleParseIncremental, ParseIncremental.
  rewrite Hcontent, Hparse. cbv zeta.
  rewrite (sendToClient_open Time json_Marshal h store c client _ Hc Hcl), Hjson.
  cbn [mbind option_bind fst snd]. rewrite Hdoc. cbn [negb].
  unfold keep. rewrite Hroom.
  pose proof (offer_keeps_open h store c client data Hopen) as Hopen1.
  unfold keep in Hopen1. rewrite Hroom in Hopen1.
  set (store1 := <[c := offer data client]> store) in *.
  pose proof (proj1 (openClients_spec h store1) Hopen1) as Hopen1'.
  unfold broadcastToDocument. rewrite Hjson.
  destruct (dispatch_loop (DocumentID msg) data (map_to_list (clients h)).*1
              (NoDup_fst_map_to_list _) h store1)
    as (h' & store' & Hrun & _ & Hin).
  { intros c0 Hc0. apply isOpen_inv, Hopen1'. by apply keys_of. }
  exists h', store'. split; [done |].
  destruct (Hin c (offer data client)) as [Hs Hl].
  { by apply keys_of. }
  { unfold store1. by rewrite lookup_insert_eq. }
  assert (Hsub' : subscribed (offer data client) (DocumentID msg) = true).
  { unfold subscribed. by rewrite offer_subscriptions. }
  rewrite delivered_offer in Hs by done. split; [done |].
  rewrite Hl. unfold dropped. rewrite Hsub'. cbn [andb].
  by destruct (hasRoom (offer data client)).
Qed.

End Hub.

(** X21. The broadcast case of Run, on a hub whose live clients have
    open channels: the message is queued for every live client whose
    buffer has room; every live client whose buffer is full has its
    channel closed and leaves the live set; the clients that were not
    live are not touched. *)
Theorem broadcast_reaches_live_clients (h : Hub) (store : gmap nat Client)
    (message : string) :
  openClients h store = true ->
  exists h' store',
    broadcast (h, store) message = Some (h', store') /\
    (forall c client,
        is_Some (clients h !! c) -> store !! c = Some client ->
        store' !! c = Some (offer message client) /\
        clients h' !! c = if hasRoom client then clients h !! c else None) /\
    (forall c, clients h !! c = None ->
               store' !! c = store !! c /\ clients h' !! c = None).
Proof.
  intros Hopen. pose proof (proj1 (openClients_spec h store) Hopen) as Hopen'.
  unfold broadcast. cbn [fst].
  destruct (broadcast_loop message (map_to_list (clients h)).*1
              (NoDup_fst_map_to_list _) h store)
    as (h' & store' & Hrun & Hout & Hin).
  { intros c Hc. apply Hopen'. by apply keys_of. }
  exists h', store'. split; [done |]. split.
  - intros c client Hlive Hc. apply Hin; [by apply keys_of | done].
  - intros c Hc. destruct (Hout c) as [-> ->]; [| done].
    rewrite keys_of, Hc. by intros [? ?].
Qed.

Lemma broadcast_keeps_open (h : Hub) (store : gmap nat Client) (message : string) :
  openClients h store = true ->
  exists h' store',
    broadcast (h, store) message = Some (h', store') /\
    openClients h' store' = true.
Proof.
  intros Hopen. pose proof (proj1 (openClients_spec h store) Hopen) as Hopen'.
  unfold broadcast. cbn [fst].
  destruct (broadcast_loop message (map_to_list (clients h)).*1
              (NoDup_fst_map_to_list _) h store)
    as (h' & store' & Hrun & Hout & Hin).
  { intros c Hc. apply Hopen'. by apply keys_of. }
  exists h', store'. split; [done |]. apply openClients_spec. intros c Hlive.
  destruct (clients h !! c) as [b|] eqn:Hb.
  - destruct (isOpen_inv store c) as (client & Hc & Hcl); [apply Hopen'; eauto |].
    destruct (Hin c client) as [Hs Hl]; [apply keys_of; eauto | done |].
    unfold isOpen. rewrite Hs. apply negb_true_iff, offer_room_open.
    destruct (hasRoom client); [done |]. rewrite Hl in Hlive. by destruct Hlive.
  - destruct (Hout c) as [_ Hl].
    { rewrite keys_of, Hb. by intros [? ?]. }
    rewrite Hl, Hb in Hlive. by destruct Hlive.
Qed.

(** X22. Unregistering a client twice is unregistering it once: the
    second time the client is not in the live set, nothing is closed
    again and nothing changes. *)
Theorem unregister_twice (h h' : Hub) (store store' : gmap nat Client) (c : nat) :
  unregister h store c = Some (h', store') ->
  clients h' !! c = None /\ unregister h' store' c = Some (h', store').
Proof.
  unfold unregister at 1. destruct (clients h !! c) as [b|] eqn:Hb.
  - destruct (store !! c) as [client|]; [| done]. cbn [mbind option_bind].
    destruct (close (send client)) as [ch|]; [| done]. cbn [mbind option_bind].
    intros [= <- <-]. unfold unregister. cbn [clients].
    by rewrite lookup_delete_eq.
  - intros [= <- <-]. unfold unregister. by rewrite Hb.
Qed.

Lemma unregister_subscriptions (h h' : Hub) (store store' : gmap nat Client)
    (c : nat) :
  unregister h store c = Some (h', store') ->
  forall c', subscribedDocuments <$> store' !! c' = subscribedDocuments <$> store !! c'.
Proof.
  unfold unregister. destruct (clients h !! c); [| by intros [= <- <-]].
  destruct (store !! c) as [client|] eqn:Hc; [| done]. cbn [mbind option_bind].
  destruct (close (send client)) as [ch|]; [| done]. cbn [mbind option_bind].
  intros [= <- <-] c'. destruct (decide (c = c')) as [<- | Hne].
  - by rewrite lookup_insert_eq, Hc.
  - by rewrite lookup_insert_ne.
Qed.

Lemma selectSend_subscriptions (h h' : Hub) (store store' : gmap nat Client)
    (c : nat) (data : string) :
  selectSend (h, store) c data = Some (h', store') ->
  forall c', subscribedDocuments <$> store' !! c' = subscribedDocuments <$> store !! c'.
Proof.
  intros H c'. apply selectSend_frame in H as [Hframe Hc].
  destruct (decide (c' = c)) as [-> | Hne]; [done |].
  by destruct (Hframe c' Hne) as [-> _].
Qed.

Section Hub.
Variable Time : Type.
Variable json_Marshal : WebSocketResponse Time -> result string.

(** X23. One iteration of Run keeps the channels of the live clients
    open: on a hub whose live clients have open channels, whatever
    the event (a registration being that of a client whose channel
    is open), the iteration returns and leaves such a hub. *)
Theorem runStep_keeps_clients_open (h : Hub) (store : gmap nat Client)
    (ev : event Time) :
  openClients h store = true ->
  admissible store ev = true ->
  exists h' store',
    runStep Time json_Marshal (h, store) ev = Some (h', store') /\
    openClients h' store' = true.
Proof.
  intros Hopen Hadm. pose proof (proj1 (openClients_spec h store) Hopen) as Hopen'.
  destruct ev as [c now | c | message]; cbn [runStep admissible] in *.
  - unfold register. cbn [fst snd].
    assert (Hopen1 : openClients (mkHub (<[c := true]> (clients h))) store = true).
    { apply openClients_spec. intros c' Hlive. cbn [clients] in Hlive.
      destruct (decide (c = c')) as [<- | Hne]; [done |].
      rewrite lookup_insert_ne in Hlive by done. by apply Hopen'. }
    destruct (json_Marshal _) as [data|]; [| by eexists _, _].
    destruct (isOpen_inv store c Hadm) as (client & Hc & Hcl).
    rewrite (selectSend_open _ store c client data Hc Hcl).
    eexists _, _. split; [done |]. by apply offer_keeps_open.
  - unfold unregister. cbn [fst snd].
    destruct (clients h !! c) as [b|] eqn:Hb; [| by exists h, store].
    destruct (isOpen_inv store c) as (client & Hc & Hcl); [apply Hopen'; eauto |].
    rewrite Hc. cbn [mbind option_bind]. unfold close. rewrite Hcl.
    cbn [mbind option_bind]. eexists _, _. split; [done |].
    apply openClients_spec. intros c' Hlive. cbn [clients] in Hlive.
    rewrite isOpen_insert. destruct (decide (c = c')) as [<- | Hne].
    + rewrite lookup_delete_eq in Hlive. by destruct Hlive.
    + rewrite lookup_delete_ne in Hlive by done. by apply Hopen'.
  - by apply broadcast_keeps_open.
Qed.

Lemma runStep_subscriptions (st st' : Hub * gmap nat Client) (ev : event Time) :
  runStep Time json_Marshal st ev = Some st' ->
  forall c, subscribedDocuments <$> st'.2 !! c = subscribedDocuments <$> st.2 !! c.
Proof.
  destruct st as [h store], st' as [h' store']. cbn [fst snd].
  destruct ev as [c now | c | message]; cbn [runStep].
  - unfold register. cbn [fst snd].
    destruct (json_Marshal _) as [data|]; [| by intros [= <- <-]].
    apply selectSend_subscriptions.
  - apply unregister_subscriptions.
  - unfold broadcast. cbn [fst]. intros Hrun.
    apply (rangeM_preserves
             (fun s : Hub * gmap nat Client =>
                forall c, subscribedDocuments <$> s.2 !! c
                          = subscribedDocuments <$> store !! c)
             (fun s c => selectSend s c message) (map_to_list (clients h)).*1)
      with (s := (h, store)) (s' := (h', store')); [| exact Hrun | done].
    intros [h0 store0] x [h1 store1] Hs Hp c0. cbn [snd] in *.
    rewrite <- Hp. by eapply selectSend_subscriptions.
Qed.

(** X24. Run never changes a set of subscriptions: registering,
    unregistering, broadcasting and dropping a slow client leave the
    subscribedDocuments of every client as they were. *)
Theorem Run_keeps_subscriptions (st st' : Hub * gmap nat Client)
    (events : list (event Time)) :
  Run Time json_Marshal st events = Some st' ->
  forall c, subscribedDocuments <$> st'.2 !! c = subscribedDocuments <$> st.2 !! c.
Proof.
  unfold Run. revert st. induction events as [|ev events IH]; intros st.
  - by intros [= <-].
  - cbn [rangeM]. destruct (runStep Time json_Marshal st ev) as [st1|] eqn:Hst1; [| done].
    cbn [mbind option_bind]. intros Hrun c.
    rewrite (IH st1 Hrun c). by apply (runStep_subscriptions st st1 ev).
Qed.

End Hub.

Lemma HandleMessage_keeps_clients_open_witness :
  exists h' store',
    HandleMessage nat marshalType unmarshalType scenario.digest parseLeaf renderSource
                  (oneLive, connections) 1 0 "subscribe"
    = Some (h', store') /\
    openClients h' store' = true.
Proof.
  apply (HandleMessage_keeps_clients_open nat marshalType unmarshalType scenario.digest
           parseLeaf renderSource oneLive connections 1 0 "subscribe");
    reflexivity.
Defined.

Lemma HandleMessage_closed_channel_panics_witness :
  HandleMessage nat marshalType unmarshalType scenario.digest parseLeaf renderSource
                (oneLive, connections) 2 0 "parse"
  = None.
Proof.
  apply (HandleMessage_closed_channel_panics nat marshalType unmarshalType
           scenario.digest parseLeaf renderSource oneLive connections 2 gone 0 "parse");
    [intros response; eexists; reflexivity | reflexivity | reflexivity].
Defined.

Lemma HandleMessage_touches_sender_only_witness :
  isIncremental unmarshalType "parse" = false /\
  forall c', c' <> 1 ->
             <[1 := mkClient (mkChannel ["parsed"] 2 false) {[ "doc" := true ]}]>
               connections !! c'
             = connections !! c' /\
             clients oneLive !! c' = clients oneLive !! c'.
Proof.
  split; [reflexivity |].
  apply (HandleMessage_touches_sender_only nat marshalType unmarshalType
           scenario.digest parseLeaf renderSource oneLive oneLive connections
           (<[1 := mkClient (mkChannel ["parsed"] 2 false) {[ "doc" := true ]}]>
              connections)
           1 0 "parse");
    [reflexivity | vm_compute; reflexivity].
Defined.

Lemma subscribe_then_unsubscribe_witness :
  let msg := mkWebSocketMessage "subscribe" "notes" EmptyString EmptyString in
  exists h1 store1 h2 store2,
    handleSubscribe nat marshalType (oneLive, connections) 1 0 msg = Some (h1, store1) /\
    subscribedDocuments <$> store1 !! 1
    = Some (<["notes" := true]> (subscribedDocuments roomy)) /\
    handleUnsubscribe nat marshalType (h1, store1) 1 1 msg = Some (h2, store2) /\
    subscribedDocuments <$> store2 !! 1
    = Some (delete "notes" (subscribedDocuments roomy)).
Proof.
  apply (subscribe_then_unsubscribe nat marshalType oneLive connections 1 roomy 0 1
           (mkWebSocketMessage "subscribe" "notes" EmptyString EmptyString));
    reflexivity.
Defined.

Lemma handleParseIncremental_reaches_sender_witness :
  let msg := mkWebSocketMessage "parse_incremental" "doc" "# Title" EmptyString in
  exists h' store',
    handleParseIncremental nat marshalType scenario.digest parseLeaf renderSource
                           (oneLive, connections) 1 0 msg
    = Some (h', store') /\
    store' !! 1
    = Some (offer "parsed_incremental" (offer "parsed_incremental" roomy)) /\
    clients h' !! 1
    = if hasRoom (offer "parsed_incremental" roomy) then clients oneLive !! 1 else None.
Proof.
  apply (handleParseIncremental_reaches_sender nat marshalType scenario.digest
           parseLeaf renderSource oneLive connections 1 roomy 0
           (mkWebSocketMessage "parse_incremental" "doc" "# Title" EmptyString)
           (mkParseResponse "# Title"
              (extractBlocks scenario.digest renderSource (parseLeaf "# Title") "# Title")
              [] true EmptyString)
           "parsed_incremental");
    [reflexivity | eexists; reflexivity | reflexivity | reflexivity | reflexivity
    | reflexivity | reflexivity | reflexivity | reflexivity].
Defined.

Lemma broadcast_reaches_live_clients_witness :
  exists h' store',
    broadcast (oneLive, connections) "m" = Some (h', store') /\
    (forall c client,
        is_Some (clients oneLive !! c) -> connections !! c = Some client ->
        store' !! c = Some (offer "m" client) /\
        clients h' !! c = if hasRoom client then clients oneLive !! c else None) /\
    (forall c, clients oneLive !! c = None ->
               store' !! c = connections !! c /\ clients h' !! c = None).
Proof.
  apply (broadcast_reaches_live_clients oneLive connections "m"). reflexivity.
Defined.

Lemma unregister_twice_witness :
  clients NewHub !! 1 = None /\
  unregister NewHub
    (<[1 := mkClient (mkChannel [] 2 true) {[ "doc" := true ]}]> connections) 1
  = Some (NewHub,
          <[1 := mkClient (mkChannel [] 2 true) {[ "doc" := true ]}]> connections).
Proof.
  apply (unregister_twice oneLive NewHub connections
           (<[1 := mkClient (mkChannel [] 2 true) {[ "doc" := true ]}]> connections) 1).
  vm_compute. reflexivity.
Defined.

Lemma runStep_keeps_clients_open_witness :
  exists h' store',
    runStep nat marshalType (NewHub, connections) (Register nat 1 0) = Some (h', store') /\
    openClients h' store' = true.
Proof.
  apply (runStep_keeps_clients_open nat marshalType NewHub connections (Register nat 1 0));
    reflexivity.
Defined.

Lemma Run_keeps_subscriptions_witness :
  Run nat marshalType (oneLive, connections) [Broadcast nat "m"; Unregister nat 1]
  = Some (NewHub, <[1 := mkClient (mkChannel ["m"] 2 true) {[ "doc" := true ]}]> connections) /\
  forall c,
    subscribedDocuments
      <$> (NewHub, <[1 := mkClient (mkChannel ["m"] 2 true) {[ "doc" := true ]}]> connections).2 !! c
    = subscribedDocuments <$> (oneLive, connections).2 !! c.
Proof.
  split; [vm_compute; reflexivity |].
  apply (Run_keeps_subscriptions nat marshalType (oneLive, connections)
           (NewHub, <[1 := mkClient (mkChannel ["m"] 2 true) {[ "doc" := true ]}]> connections)
           [Broadcast nat "m"; Unregister nat 1]).
  vm_compute. reflexivity.
Defined.

End hub_sessions.

(** ** The incremental parser *)

Module with_diff.
Import builtin models diff parser store tree incremental parsed block_diff block_edges parser_blocks.

Lemma isBlock_extend (h ext : heap) (p : ptr) :
  isBlock h p = true -> isBlock (h ++ ext) p = true.
Proof.
  destruct p as [a|]; [| done]. unfold isBlock.
  destruct (h !! a) as [b|] eqn:Hb; [| done].
  by rewrite (lookup_app_l_Some _ _ _ _ Hb).
Qed.

Lemma live_extend (h ext : heap) (blocks : gmap string ptr) :
  live h blocks = true -> live (h ++ ext) blocks = true.
Proof.
  unfold live. rewrite !forallb_forall. intros H kv Hkv.
  by apply isBlock_extend, H.
Qed.

Section pointers.
Variable blocks : gmap string Block.
Variable h : heap.

Lemma blockPointers_lookup (id : string) (p : ptr) :
  (blockPointers blocks h).1 !! id = Some p <->
  exists i b, map_to_list blocks !! i = Some (id, b) /\ p = Some (length h + i).
Proof.
  unfold blockPointers. cbn [fst].
  rewrite <- elem_of_list_to_map.
  - rewrite elem_of_lookup_imap. split.
    + intros (i & [id' b] & [= -> ->] & Hi). by exists i, b.
    + intros (i & b & Hi & ->). by exists i, (id, b).
  - rewrite fmap_imap.
    rewrite (imap_ext _ (const fst)) by done.
    rewrite imap_const. apply NoDup_fst_map_to_list.
Qed.

Lemma blockPointers_object (i : nat) (id : string) (b : Block) :
  map_to_list blocks !! i = Some (id, b) ->
  (blockPointers blocks h).2 !! (length h + i) = Some b.
Proof.
  intros Hi. unfold blockPointers. cbn [snd].
  rewrite lookup_app_r by lia. replace (length h + i - length h) with i by lia.
  by rewrite list_lookup_fmap, Hi.
Qed.

Lemma blockPointers_unfold (n i : nat) (id : string) (b : Block) :
  flat blocks ->
  map_to_list blocks !! i = Some (id, b) ->
  unfold (blockPointers blocks h).2 (S n) (Some (length h + i))
  = Some (NodeShape (length h + i) b []).
Proof.
  intros Hflat Hi. rewrite unfold_S, (blockPointers_object i id b Hi).
  cbn [mbind option_bind]. rewrite (Hflat id b); [done |].
  apply elem_of_map_to_list. by eapply list_elem_of_lookup_2.
Qed.

Lemma blockPointers_wellFormed (n : nat) :
  flat blocks ->
  wellFormed (blockPointers blocks h).2 (S n) (blockPointers blocks h).1 = true.
Proof.
  intros Hflat. unfold wellFormed. rewrite forallb_forall. intros [id p] Hin.
  apply list_elem_of_In, elem_of_map_to_list, blockPointers_lookup in Hin
    as (i & b & Hi & ->).
  cbn [snd]. by rewrite (blockPointers_unfold n i id b Hflat Hi).
Qed.

(** The snapshot made of the blocks of a parse has the values of
    these blocks, wherever in the store they stand. *)
Lemma blockPointers_value (n : nat) :
  flat blocks ->
  snapshotValue (blockPointers blocks h).2 (S n) (blockPointers blocks h).1
  = (fun b => Some (leaf b)) <$> blocks.
Proof.
  intros Hflat. apply map_eq. intros id. unfold snapshotValue.
  rewrite !lookup_fmap. destruct (blocks !! id) as [b|] eqn:Hb.
  - apply elem_of_map_to_list, list_elem_of_lookup in Hb as (i & Hi).
    rewrite (proj2 (blockPointers_lookup id (Some (length h + i)))) by eauto.
    cbn [fmap option_fmap option_map]. unfold valueOf.
    by rewrite (blockPointers_unfold n i id b Hflat Hi).
  - destruct ((blockPointers blocks h).1 !! id) as [p|] eqn:Hp; [| done].
    apply blockPointers_lookup in Hp as (i & b & Hi & _).
    apply list_elem_of_lookup_2, elem_of_map_to_list in Hi. congruence.
Qed.

End pointers.

Section IncrementalParser.
Variable md5_Sum : string -> string.
Variable goldmark_Parse : string -> Node.
Variable goldmark_Render : string -> Node -> result string.

Lemma Parse_flat (content : string) (result : ParseResponse) :
  Parse md5_Sum goldmark_Parse goldmark_Render content = Ok result ->
  flat (Blocks result).
Proof.
  unfold Parse. destruct (strings.isEmpty content).
  - intros [= <-] id b Hb. cbn [Blocks] in Hb. by rewrite lookup_empty in Hb.
  - destruct (goldmark_Render content _) as [html|]; [| done].
    intros [= <-] id b Hb. cbn [Blocks] in Hb.
    apply extractBlocks_from_node in Hb as (_ & node & _ & Hnode).
    by apply nodeToBlock_shape in Hnode as (_ & ? & _).
Qed.

End IncrementalParser.

Section IncrementalParser.
Variable md5_Sum : string -> string.
Variable goldmark_Parse : string -> Node.
Variable goldmark_Render : string -> Node -> result string.
Variable depth : nat.

(** The diff of a parse against a live state: what ComputeDiff
    returns on the snapshot made of the parsed blocks. *)
Lemma diff_of_parse (previousBlocks : gmap string ptr) (h : heap)
    (blocks : gmap string Block) :
  0 < depth ->
  flat blocks ->
  live h previousBlocks = true ->
  exists changes copied ext,
    ComputeDiff md5_Sum depth previousBlocks
                (blockPointers blocks h).1 (blockPointers blocks h).2
    = Some (changes, copied, (blockPointers blocks h).2 ++ ext) /\
    live ((blockPointers blocks h).2 ++ ext) copied = true /\
    wellFormed (blockPointers blocks h).2 depth (blockPointers blocks h).1 = true /\
    (forall id, is_Some (copied !! id)
                <-> is_Some ((blockPointers blocks h).1 !! id)) /\
    (forall id p p', (blockPointers blocks h).1 !! id = Some p ->
                     copied !! id = Some p' ->
                     copyOf depth (blockPointers blocks h).2 ext p p').
Proof.
  intros Hdepth Hflat Hlive. destruct depth as [|n]; [lia |].
  pose proof (blockPointers_wellFormed blocks h n Hflat) as Hwf.
  destruct (ComputeDiff_returns md5_Sum (S n) previousBlocks
              (blockPointers blocks h).1 (blockPointers blocks h).2)
    as (changes & copied & ext & Hrun & _ & Hkeys & Hcopy); [| done |].
  { by apply live_extend. }
  exists changes, copied, ext. split; [done |]. split; [| done].
  unfold live. rewrite forallb_forall. intros [id p'] Hin.
  apply list_elem_of_In, elem_of_map_to_list in Hin. cbn [snd].
  destruct (proj1 (Hkeys id)) as [p Hp]; [eauto |].
  destruct (wellFormed_lookup _ _ _ id p Hwf Hp) as [Hsome _].
  pose proof (copyOf_isBlock (S n) _ ext [] p p' Hsome (Hcopy id p p' Hp Hin)) as Hb.
  by rewrite app_nil_r in Hb.
Qed.

(** X25. ParseWithDiff returns on every content when the blocks the
    parser remembers are in the store, and what it remembers
    afterwards is in the store again: calls can follow one another
    without a panic. *)
Theorem ParseWithDiff_keeps_state_live (previousBlocks : gmap string ptr)
    (h : heap) (content : string) :
  0 < depth ->
  live h previousBlocks = true ->
  exists response previousBlocks' h',
    ParseWithDiff md5_Sum goldmark_Parse goldmark_Render depth previousBlocks h content
    = Some (response, previousBlocks', h') /\
    live h' previousBlocks' = true.
Proof.
  intros Hdepth Hlive. unfold ParseWithDiff.
  destruct (Parse _ _ _ content) as [result | err] eqn:Hparse;
    [| by eexists _, _, _].
  destruct (diff_of_parse previousBlocks h (Blocks result) Hdepth
              (Parse_flat _ _ _ _ _ Hparse) Hlive)
    as (changes & copied & ext & Hrun & Hlive' & _).
  destruct (blockPointers (Blocks result) h) as [newBlocks h1].
  cbn [fst snd] in Hrun, Hlive'. rewrite Hrun. cbn [mbind option_bind].
  by eexists _, _, _.
Qed.

(** X26. Parsing the same content twice in a row reports no change
    the second time. *)
Theorem ParseWithDiff_same_content_twice (previousBlocks : gmap string ptr)
    (h : heap) (content : string) (result : ParseResponse) :
  0 < depth ->
  live h previousBlocks = true ->
  Parse md5_Sum goldmark_Parse goldmark_Render content = Ok result ->
  exists response1 previousBlocks1 h1 response2 previousBlocks2 h2,
    ParseWithDiff md5_Sum goldmark_Parse goldmark_Render depth previousBlocks h content
    = Some (Ok response1, previousBlocks1, h1) /\
    ParseWithDiff md5_Sum goldmark_Parse goldmark_Render depth previousBlocks1 h1 content
    = Some (Ok response2, previousBlocks2, h2) /\
    Changes response2 = [].
Proof.
  intros Hdepth Hlive Hparse. unfold ParseWithDiff. rewrite Hparse.
  pose proof (Parse_flat _ _ _ _ _ Hparse) as Hflat.
  destruct (diff_of_parse previousBlocks h (Blocks result) Hdepth Hflat Hlive)
    as (changes & copied & ext & Hrun & _ & Hwf & Hkeys & Hcopy).
  set (H1 := (blockPointers (Blocks result) h).2) in *.
  destruct (second_call md5_Sum depth (blockPointers (Blocks result) h).1
              (blockPointers (Blocks result) (H1 ++ ext)).1 copied H1 ext
              (map_to_list (Blocks result)).*2 Hwf Hkeys Hcopy)
    as (baseline' & h' & Hsecond).
  { destruct depth as [|n]; [lia |].
    change ((H1 ++ ext) ++ (map_to_list (Blocks result)).*2)
      with (blockPointers (Blocks result) (H1 ++ ext)).2.
    unfold H1. by rewrite !blockPointers_value. }
  change ((H1 ++ ext) ++ (map_to_list (Blocks result)).*2)
    with (blockPointers (Blocks result) (H1 ++ ext)).2 in Hsecond.
  eexists _, copied, (H1 ++ ext), _, baseline', h'.
  split; [| split].
  - rewrite (surjective_pairing (blockPointers (Blocks result) h)).
    cbv beta iota. fold H1. rewrite Hrun. reflexivity.
  - rewrite (surjective_pairing (blockPointers (Blocks result) (H1 ++ ext))).
    cbv beta iota. rewrite Hsecond. reflexivity.
  - reflexivity.
Qed.

(** X27. ParseWithDiff on the empty content reports every block the
    parser remembers as removed, and the parser remembers nothing
    afterwards; the store is as it was. *)
Theorem ParseWithDiff_empty_content (previousBlocks : gmap string ptr) (h : heap) :
  ParseWithDiff md5_Sum goldmark_Parse goldmark_Render depth previousBlocks h
                EmptyString
  = Some (Ok (mkParseResponse EmptyString ∅
                ((fun kv => mkBlockChange "removed" kv.1 kv.2)
                   <$> map_to_list previousBlocks)
                true EmptyString),
          ∅, h).
Proof.
  unfold ParseWithDiff, Parse. cbn [strings.isEmpty Blocks].
  unfold blockPointers. rewrite map_to_list_empty.
  cbn [imap fmap list_fmap list_to_map foldr]. rewrite app_nil_r.
  unfold ComputeDiff, computeChanges, copyBlocks.
  rewrite map_to_list_empty. cbn [rangeM mbind option_bind].
  by rewrite second_loop_nothing_seen.
Qed.

End IncrementalParser.

Lemma ParseWithDiff_keeps_state_live_witness :
  exists response previousBlocks' h',
    ParseWithDiff scenario.digest parse render 3 scenario.first scenario.blocks "# Title"
    = Some (response, previousBlocks', h') /\
    live h' previousBlocks' = true.
Proof.
  apply (ParseWithDiff_keeps_state_live scenario.digest parse render 3
           scenario.first scenario.blocks "# Title"); [lia | reflexivity].
Defined.

Lemma ParseWithDiff_same_content_twice_witness :
  exists response1 previousBlocks1 h1 response2 previousBlocks2 h2,
    ParseWithDiff scenario.digest parse render 3 scenario.first scenario.blocks "# Title"
    = Some (Ok response1, previousBlocks1, h1) /\
    ParseWithDiff scenario.digest parse render 3 previousBlocks1 h1 "# Title"
    = Some (Ok response2, previousBlocks2, h2) /\
    Changes response2 = [].
Proof.
  apply (ParseWithDiff_same_content_twice scenario.digest parse render 3
           scenario.first scenario.blocks "# Title"
           (mkParseResponse "# Title"
              (extractBlocks scenario.digest render (parse "# Title") "# Title")
              [] true EmptyString));
    [lia | reflexivity | reflexivity].
Defined.

End with_diff.
